(** * Distributed-systems simulators: election and clock synchronisation

    A shallow embedding of the algorithm compilers ([simularBully],
    [simularRingCompleto], [simularCristian], [simularBerkeley]) and of the
    two playback controllers (the [ElectionSimulator] and
    [ClockSyncSimulator] components), with the properties stated about them.

    Conventions of the embedding.
    - A JavaScript [number] that the program only ever uses as an integer
      (node ids, millisecond clocks, offsets) is a [Z]; array indices and
      the cursor are [nat].  The two divisions of the program, [RTT / 2]
      and [suma / n], are computed in [Q].  The doubles of the program are
      integers far below 2^53, and [RTT / 2] is such an integer or half of
      one; [suma / n], with at most 13 nodes, either is a half-integer or
      lies at least [1 / (2 n)] away from one, so rounding the double
      quotient and rounding the exact quotient give the same integer.
    - The values of [Math.random()] are binary64 values supplied by the
      caller, one per call; their product with the latency bound, and the
      product and difference that give an initial offset, are the binary64
      operations, rounded to nearest, and [Math.floor] of the result is an
      integer again.
    - [x?: T] is [option T], [None] standing for [undefined].
    - A template literal is a concatenation of strings, [${n}] of an
      integer being its decimal notation.
    - The state of a React component is an explicit record of its
      [useState] cells; an event handler is a function on that record.
      Playback speed and the geometry of the message line only affect
      timing and drawing and are left out. *)

From Stdlib Require Import List ZArith QArith Qround String Ascii Bool Lia.
From Stdlib Require Import DecimalString Permutation SpecFloat.
Import ListNotations.
Open Scope Z_scope.

(** ** JavaScript helpers *)

Module JS.

(** [`${n}`] for an integer [n]. *)
Definition str (n : Z) : string := NilZero.string_of_int (Z.to_int n).

(** [xs.join(sep)] on an array of integers. *)
Definition join (sep : string) (xs : list Z) : string :=
  String.concat sep (map str xs).

(** [xs.includes(x)]. *)
Definition includes (x : Z) (xs : list Z) : bool := existsb (Z.eqb x) xs.

(** [xs.findIndex(p)]; [xs.indexOf(xs.find(p))] is the same index, the
    found object being the first one that satisfies [p]. *)
Fixpoint findIndex {A} (p : A -> bool) (xs : list A) : option nat :=
  match xs with
  | [] => None
  | x :: r => if p x then Some O else option_map S (findIndex p r)
  end.

(** [Math.max(...xs)] on a non-empty array: the callers spread an array
    that was seeded with one element and only grows.  (On the empty
    array JavaScript answers [-Infinity]; that case is given 0 here and
    is never reached.) *)
Definition Math_max (xs : list Z) : Z :=
  match xs with
  | [] => 0
  | x :: r => fold_left Z.max r x
  end.

(** [Math.round(q)]: the nearest integer, halves going up. *)
Definition Math_round (q : Q) : Z := Qfloor (q + (1 # 2))%Q.

(** A number that is not an integer of the model: an IEEE 754 binary64
    value, which is what [Math.random()] answers and what a product or a
    difference with such a value is rounded to. *)
Definition double : Type := spec_float.

(** The binary64 value of an integer. *)
Definition double_of_Z (n : Z) : double := binary_normalize 53 1024 n 0 false.

(** [x * y], [x - y] and [x / y] on binary64 values, rounded to nearest,
    ties to even. *)
Definition double_mul (x y : double) : double := SFmul 53 1024 x y.
Definition double_sub (x y : double) : double := SFsub 53 1024 x y.
Definition double_div (x y : double) : double := SFdiv 53 1024 x y.

(** [Math.floor(x)] on a finite binary64 value.  (On an infinity or on NaN
    JavaScript answers the argument; no integer stands for it, that case
    is given 0 here.  The values floored by the program, the product of a
    draw of [Math.random()] and the latency bound and the difference that
    gives an initial offset, are finite.) *)
Definition Math_floor (x : double) : Z :=
  match x with
  | S754_finite s m e =>
      let v := if s then Zneg m else Zpos m in
      if e <? 0 then v / 2 ^ (- e) else v * 2 ^ e
  | _ => 0
  end.

(** The binary64 values that are neither an infinity nor NaN. *)
Definition es_finito (x : double) : bool :=
  match x with
  | S754_zero _ => true
  | S754_finite _ _ _ => true
  | _ => false
  end.

(** The values [Math.random()] can answer: the binary64 values that are at
    least 0 and less than 1. *)
Definition en_unidad (u : double) : bool :=
  match u with
  | S754_zero _ => true
  | S754_finite false m e =>
      bounded 53 1024 m e && (e <? 0) && (Zpos m <? 2 ^ (- e))
  | _ => false
  end.

(** What [k] right shifts leave of a mantissa [P] in the rounding of a
    binary64 operation: the shifted mantissa is at most the quotient by
    [2^k], and a set round bit means that at least half a unit was cut. *)
Definition cortado (P k : Z) (r : shr_record) : Prop :=
  0 <= shr_m r /\
  shr_m r * 2 ^ k <= P /\
  (shr_r r = true -> (2 * shr_m r + 1) * 2 ^ k <= 2 * P).

(** [xs.slice(i)] and [xs.slice(0, i)]. *)
Definition slice_from {A} (i : nat) (xs : list A) : list A := skipn i xs.
Definition slice_to {A} (i : nat) (xs : list A) : list A := firstn i xs.

End JS.

(** * Leader election: Bully and Ring *)

Module Election.

(** [NodoSim]. *)
Record NodoSim := mkNodo {
  id : Z;
  failed : bool;
  highlighted : bool
}.

(** [MessageKind]. *)
Inductive MessageKind := election | ok | ring1 | ring2.

(** [SimMensaje]. *)
Record SimMensaje := mkMensaje {
  fromId : Z;
  toId : Z;
  tipo : MessageKind;
  payload : option (list Z)
}.

(** [SimAction].  [leaderId?: number | null] has three shapes: absent
    ([None]), [null] ([Some None]) and a node id ([Some (Some n)]).  No
    compiler writes [mensaje: null], so [None] is the absent message. *)
Record SimAction := mkAccion {
  descripcion : string;
  highlightIds : option (list Z);
  leaderId : option (option Z);
  mensaje : option SimMensaje
}.

Definition MessageKind_eqb (a b : MessageKind) : bool :=
  match a, b with
  | election, election | ok, ok | ring1, ring1 | ring2, ring2 => true
  | _, _ => false
  end.

(** [nodos.filter((n) => !n.failed)]. *)
Definition vivos (nodos : list NodoSim) : list NodoSim :=
  filter (fun n => negb (failed n)) nodos.

(** ** [simularBully] *)

Definition bully_mensajes (iniciador : NodoSim) (s : NodoSim) : list SimAction :=
  [ mkAccion
      ("Nodo " ++ JS.str (id iniciador) ++ " envía mensaje de ELECCIÓN al nodo "
         ++ JS.str (id s) ++ ".")
      (Some [id iniciador; id s]) None
      (Some (mkMensaje (id iniciador) (id s) election None));
    mkAccion
      ("Nodo " ++ JS.str (id s) ++ " responde OK al nodo "
         ++ JS.str (id iniciador) ++ ".")
      (Some [id s; id iniciador]) None
      (Some (mkMensaje (id s) (id iniciador) ok None)) ].

Definition simularBully (nodos : list NodoSim) (iniciadorId : Z)
  : list SimAction :=
  let vivos := vivos nodos in
  match find (fun n => id n =? iniciadorId) vivos with
  | None =>
      [ mkAccion
          ("El nodo iniciador " ++ JS.str iniciadorId
             ++ " está caído. No puede iniciar.")
          None None None ]
  | Some iniciador =>
      let superiores := filter (fun n => id n >? id iniciador) vivos in
      let nuevoLider :=
        fold_left (fun max n => if id n >? id max then n else max)
                  vivos iniciador in
      let acciones :=
        [ mkAccion
            ("Nodo " ++ JS.str (id iniciador)
               ++ " detecta la caída del líder e inicia la elección (Bully).")
            (Some [id iniciador]) None None ] in
      if (List.length superiores =? 0)%nat then
        acciones ++
        [ mkAccion
            ("Nodo " ++ JS.str (id iniciador)
               ++ " no encuentra nodos con ID superior. Se convierte en líder.")
            (Some [id iniciador]) (Some (Some (id iniciador))) None ]
      else
        acciones ++ flat_map (bully_mensajes iniciador) superiores ++
        [ mkAccion
            ("El nodo con mayor ID activo es " ++ JS.str (id nuevoLider)
               ++ ". Se convierte en el nuevo líder.")
            (Some [id nuevoLider]) (Some (Some (id nuevoLider))) None ]
  end.

(** The initiator names a node that is present and not failed. *)
Definition iniciador_vivo (nodos : list NodoSim) (iniciadorId : Z) : Prop :=
  exists n, In n nodos /\ failed n = false /\ id n = iniciadorId.

(** The [leaderId] field of the last action of a sequence. *)
Definition ultimo_leaderId (acciones : list SimAction) : option (option Z) :=
  match rev acciones with
  | [] => None
  | a :: _ => leaderId a
  end.

(** The scenario of the specification: ids 12, 55, 30, 81, all alive. *)
Definition nodos_escenario : list NodoSim :=
  [ mkNodo 12 false false; mkNodo 55 false false;
    mkNodo 30 false false; mkNodo 81 false false ].

(** The same nodes after node 81 was failed. *)
Definition nodos_escenario_sin_81 : list NodoSim :=
  [ mkNodo 12 false false; mkNodo 55 false false;
    mkNodo 30 false false; mkNodo 81 true false ].

(** ** [simularRingCompleto] *)

(** One turn of the collection loop [for (let i = 1; i <= anillo.length; i++)]:
    the message goes from [anillo[i - 1]] to [anillo[i % anillo.length]]
    with a copy of the ids gathered so far, then the receiver's id is pushed
    unless it is included already.  The loop state is the pair of [acciones]
    and [idsEnMensaje].  Both indices are inside the ring on every turn, so
    the default of [nth] is never read. *)
Definition ring_fase1_paso (iniciador : NodoSim) (anillo : list NodoSim)
  (st : list SimAction * list Z) (i : nat) : list SimAction * list Z :=
  let '(acciones, idsEnMensaje) := st in
  let from := nth (i - 1) anillo iniciador in
  let to := nth (i mod List.length anillo)%nat anillo iniciador in
  (acciones ++
   [ mkAccion
       ("Mensaje de ELECCIÓN pasa de nodo " ++ JS.str (id from) ++ " a nodo "
          ++ JS.str (id to) ++ " con IDs [" ++ JS.join ", " idsEnMensaje ++ "].")
       (Some [id from; id to]) None
       (Some (mkMensaje (id from) (id to) ring1 (Some idsEnMensaje))) ],
   if JS.includes (id to) idsEnMensaje
   then idsEnMensaje
   else idsEnMensaje ++ [id to]).

Definition ring_fase1 (iniciador : NodoSim) (anillo : list NodoSim)
  (st : list SimAction * list Z) : list SimAction * list Z :=
  fold_left (ring_fase1_paso iniciador anillo)
            (seq 1 (List.length anillo)) st.

(** One turn of the announcement loop. *)
Definition ring_fase2_paso (iniciador : NodoSim) (anillo : list NodoSim)
  (idLeader : Z) (idxLider : nat) (acciones : list SimAction) (i : nat)
  : list SimAction :=
  let from := nth ((idxLider + i - 1) mod List.length anillo)%nat anillo iniciador in
  let to := nth ((idxLider + i) mod List.length anillo)%nat anillo iniciador in
  acciones ++
  [ mkAccion
      ("Mensaje de ANUNCIO del líder (" ++ JS.str idLeader ++ ") pasa de nodo "
         ++ JS.str (id from) ++ " a nodo " ++ JS.str (id to) ++ ".")
      (Some [id from; id to]) None
      (Some (mkMensaje (id from) (id to) ring2 None)) ].

Definition ring_fase2 (iniciador : NodoSim) (anillo : list NodoSim)
  (idLeader : Z) (idxLider : nat) (acciones : list SimAction)
  : list SimAction :=
  fold_left (ring_fase2_paso iniciador anillo idLeader idxLider)
            (seq 1 (List.length anillo)) acciones.

(** [[...vivos.slice(idxInicio), ...vivos.slice(0, idxInicio)]]. *)
Definition ring_anillo (vivos : list NodoSim) (idxInicio : nat) : list NodoSim :=
  JS.slice_from idxInicio vivos ++ JS.slice_to idxInicio vivos.

(** The action pushed when the collection message is back at the initiator. *)
Definition ring_accion_regreso (idIniciador : Z) (idsEnMensaje : list Z)
  : SimAction :=
  let idLeader := JS.Math_max idsEnMensaje in
  mkAccion
    ("El mensaje regresa al nodo iniciador " ++ JS.str idIniciador
       ++ " con la lista completa [" ++ JS.join ", " idsEnMensaje
       ++ "]. Líder elegido: nodo " ++ JS.str idLeader ++ ".")
    (Some [idIniciador; idLeader]) None None.

(** [vivos.indexOf(iniciador)] is the index of the first alive node with the
    initiator's id, [iniciador] being the object [find] returned; likewise
    [anillo.indexOf(nodoLider)].  When [find] answers [undefined] the code
    falls back on [iniciador], which is [anillo[0]]. *)
Definition simularRingCompleto (nodos : list NodoSim) (iniciadorId : Z)
  : list SimAction :=
  let vivos := vivos nodos in
  if (List.length vivos =? 0)%nat then
    [ mkAccion "No hay nodos activos en el anillo." None None None ]
  else
    match find (fun n => id n =? iniciadorId) vivos with
    | None =>
        [ mkAccion
            ("El nodo iniciador " ++ JS.str iniciadorId
               ++ " está caído. No puede iniciar.")
            None None None ]
    | Some iniciador =>
        let idxInicio :=
          match JS.findIndex (fun n => id n =? iniciadorId) vivos with
          | Some i => i
          | None => O
          end in
        let anillo := ring_anillo vivos idxInicio in
        let idsEnMensaje := [id iniciador] in
        let acciones :=
          [ mkAccion
              ("Nodo " ++ JS.str (id iniciador)
                 ++ " inicia la elección (Ring). Mensaje inicial contiene ["
                 ++ JS.join ", " idsEnMensaje ++ "].")
              (Some [id iniciador]) None None ] in
        let '(acciones, idsEnMensaje) :=
          ring_fase1 iniciador anillo (acciones, idsEnMensaje) in
        let idLeader := JS.Math_max idsEnMensaje in
        let acciones := acciones ++ [ ring_accion_regreso (id iniciador) idsEnMensaje ] in
        let nodoLider :=
          match find (fun n => id n =? idLeader) anillo with
          | Some n => n
          | None => iniciador
          end in
        let idxLider :=
          match JS.findIndex (fun n => id n =? idLeader) anillo with
          | Some i => i
          | None => O
          end in
        let acciones :=
          acciones ++
          [ mkAccion
              ("Nodo " ++ JS.str (id nodoLider)
                 ++ " inicia la fase de ANUNCIO del líder en el anillo.")
              (Some [id nodoLider]) None None ] in
        let acciones := ring_fase2 iniciador anillo idLeader idxLider acciones in
        acciones ++
        [ mkAccion
            ("Todos los nodos actualizan al líder " ++ JS.str idLeader ++ ".")
            (Some (map id anillo)) (Some (Some idLeader)) None ]
    end.

(** The ids gathered by the collection loop of a run: the second component
    of the loop state when the loop of [simularRingCompleto] ends. *)
Definition ring_idsEnMensaje (nodos : list NodoSim) (iniciadorId : Z) : list Z :=
  let vivos := vivos nodos in
  match find (fun n => id n =? iniciadorId) vivos with
  | None => []
  | Some iniciador =>
      let idxInicio :=
        match JS.findIndex (fun n => id n =? iniciadorId) vivos with
        | Some i => i
        | None => O
        end in
      snd (ring_fase1 iniciador (ring_anillo vivos idxInicio)
             ([ mkAccion
                  ("Nodo " ++ JS.str (id iniciador)
                     ++ " inicia la elección (Ring). Mensaje inicial contiene ["
                     ++ JS.join ", " [id iniciador] ++ "].")
                  (Some [id iniciador]) None None ],
              [id iniciador]))
  end.

(** [m] is the greatest element of [xs]. *)
Definition es_maximo (m : Z) (xs : list Z) : Prop :=
  In m xs /\ Forall (fun x => x <= m) xs.

(** [if (!idsEnMensaje.includes(x)) idsEnMensaje.push(x)], as a function
    of the array. *)
Definition agrega (x : Z) (ids : list Z) : list Z :=
  if JS.includes x ids then ids else ids ++ [x].

(** An action that carries a message of kind [k] and sets no leader. *)
Definition lleva_mensaje (k : MessageKind) (a : SimAction) : Prop :=
  leaderId a = None /\ exists m, mensaje a = Some m /\ tipo m = k.

(** The ring of the specification's example: ids 13, 47, 22, 99. *)
Definition nodos_anillo_ejemplo : list NodoSim :=
  [ mkNodo 13 false false; mkNodo 47 false false;
    mkNodo 22 false false; mkNodo 99 false false ].

(** The number of actions of a sequence that carry a message of a kind. *)
Definition cuenta_mensajes (k : MessageKind) (acciones : list SimAction) : nat :=
  List.length
    (filter (fun a => match mensaje a with
                      | Some m => MessageKind_eqb (tipo m) k
                      | None => false
                      end) acciones).

(** ** The [ElectionSimulator] component

    The component's state is the tuple of its [useState] cells.  One more
    cell records what React keeps for [useCallback]: [avanzarPaso] is
    memoised with the dependency list [[acciones.length]], so the function
    in use is the one created by the last render in which the length of
    [acciones] changed, and the [acciones] it reads is the array of that
    render ([memo_acciones]). *)

Inductive Algorithm := bully | ring.

Module Estado.
Record t := mk {
  numNodos : Z;
  algoritmoActivo : Algorithm;
  nodos : list NodoSim;
  leaderId : option Z;
  recentLeaderId : option Z;
  logs : list string;
  modoIniciador : bool;
  nodoIniciador : option Z;
  acciones : list SimAction;
  pasoIndex : nat;
  isPlaying : bool;
  mensajeActual : option SimMensaje;
  memo_acciones : list SimAction
}.
End Estado.

(** The state of a freshly mounted component. *)
Definition estado_inicial : Estado.t :=
  Estado.mk 5 bully [] None None [] false None [] O false None [].

Definition setNumNodos (v : Z) (s : Estado.t) : Estado.t :=
  Estado.mk v (Estado.algoritmoActivo s) (Estado.nodos s) (Estado.leaderId s)
    (Estado.recentLeaderId s) (Estado.logs s) (Estado.modoIniciador s)
    (Estado.nodoIniciador s) (Estado.acciones s) (Estado.pasoIndex s)
    (Estado.isPlaying s) (Estado.mensajeActual s) (Estado.memo_acciones s).

Definition setAlgoritmoActivo (v : Algorithm) (s : Estado.t) : Estado.t :=
  Estado.mk (Estado.numNodos s) v (Estado.nodos s) (Estado.leaderId s)
    (Estado.recentLeaderId s) (Estado.logs s) (Estado.modoIniciador s)
    (Estado.nodoIniciador s) (Estado.acciones s) (Estado.pasoIndex s)
    (Estado.isPlaying s) (Estado.mensajeActual s) (Estado.memo_acciones s).

Definition setNodos (v : list NodoSim) (s : Estado.t) : Estado.t :=
  Estado.mk (Estado.numNodos s) (Estado.algoritmoActivo s) v (Estado.leaderId s)
    (Estado.recentLeaderId s) (Estado.logs s) (Estado.modoIniciador s)
    (Estado.nodoIniciador s) (Estado.acciones s) (Estado.pasoIndex s)
    (Estado.isPlaying s) (Estado.mensajeActual s) (Estado.memo_acciones s).

Definition setLeaderId (v : option Z) (s : Estado.t) : Estado.t :=
  Estado.mk (Estado.numNodos s) (Estado.algoritmoActivo s) (Estado.nodos s) v
    (Estado.recentLeaderId s) (Estado.logs s) (Estado.modoIniciador s)
    (Estado.nodoIniciador s) (Estado.acciones s) (Estado.pasoIndex s)
    (Estado.isPlaying s) (Estado.mensajeActual s) (Estado.memo_acciones s).

Definition setRecentLeaderId (v : option Z) (s : Estado.t) : Estado.t :=
  Estado.mk (Estado.numNodos s) (Estado.algoritmoActivo s) (Estado.nodos s)
    (Estado.leaderId s) v (Estado.logs s) (Estado.modoIniciador s)
    (Estado.nodoIniciador s) (Estado.acciones s) (Estado.pasoIndex s)
    (Estado.isPlaying s) (Estado.mensajeActual s) (Estado.memo_acciones s).

Definition setLogs (v : list string) (s : Estado.t) : Estado.t :=
  Estado.mk (Estado.numNodos s) (Estado.algoritmoActivo s) (Estado.nodos s)
    (Estado.leaderId s) (Estado.recentLeaderId s) v (Estado.modoIniciador s)
    (Estado.nodoIniciador s) (Estado.acciones s) (Estado.pasoIndex s)
    (Estado.isPlaying s) (Estado.mensajeActual s) (Estado.memo_acciones s).

Definition setModoIniciador (v : bool) (s : Estado.t) : Estado.t :=
  Estado.mk (Estado.numNodos s) (Estado.algoritmoActivo s) (Estado.nodos s)
    (Estado.leaderId s) (Estado.recentLeaderId s) (Estado.logs s) v
    (Estado.nodoIniciador s) (Estado.acciones s) (Estado.pasoIndex s)
    (Estado.isPlaying s) (Estado.mensajeActual s) (Estado.memo_acciones s).

Definition setNodoIniciador (v : option Z) (s : Estado.t) : Estado.t :=
  Estado.mk (Estado.numNodos s) (Estado.algoritmoActivo s) (Estado.nodos s)
    (Estado.leaderId s) (Estado.recentLeaderId s) (Estado.logs s)
    (Estado.modoIniciador s) v (Estado.acciones s) (Estado.pasoIndex s)
    (Estado.isPlaying s) (Estado.mensajeActual s) (Estado.memo_acciones s).

Definition setAcciones (v : list SimAction) (s : Estado.t) : Estado.t :=
  Estado.mk (Estado.numNodos s) (Estado.algoritmoActivo s) (Estado.nodos s)
    (Estado.leaderId s) (Estado.recentLeaderId s) (Estado.logs s)
    (Estado.modoIniciador s) (Estado.nodoIniciador s) v (Estado.pasoIndex s)
    (Estado.isPlaying s) (Estado.mensajeActual s) (Estado.memo_acciones s).

Definition setPasoIndex (v : nat) (s : Estado.t) : Estado.t :=
  Estado.mk (Estado.numNodos s) (Estado.algoritmoActivo s) (Estado.nodos s)
    (Estado.leaderId s) (Estado.recentLeaderId s) (Estado.logs s)
    (Estado.modoIniciador s) (Estado.nodoIniciador s) (Estado.acciones s) v
    (Estado.isPlaying s) (Estado.mensajeActual s) (Estado.memo_acciones s).

Definition setIsPlaying (v : bool) (s : Estado.t) : Estado.t :=
  Estado.mk (Estado.numNodos s) (Estado.algoritmoActivo s) (Estado.nodos s)
    (Estado.leaderId s) (Estado.recentLeaderId s) (Estado.logs s)
    (Estado.modoIniciador s) (Estado.nodoIniciador s) (Estado.acciones s)
    (Estado.pasoIndex s) v (Estado.mensajeActual s) (Estado.memo_acciones s).

Definition setMensajeActual (v : option SimMensaje) (s : Estado.t) : Estado.t :=
  Estado.mk (Estado.numNodos s) (Estado.algoritmoActivo s) (Estado.nodos s)
    (Estado.leaderId s) (Estado.recentLeaderId s) (Estado.logs s)
    (Estado.modoIniciador s) (Estado.nodoIniciador s) (Estado.acciones s)
    (Estado.pasoIndex s) (Estado.isPlaying s) v (Estado.memo_acciones s).

Definition setMemoAcciones (v : list SimAction) (s : Estado.t) : Estado.t :=
  Estado.mk (Estado.numNodos s) (Estado.algoritmoActivo s) (Estado.nodos s)
    (Estado.leaderId s) (Estado.recentLeaderId s) (Estado.logs s)
    (Estado.modoIniciador s) (Estado.nodoIniciador s) (Estado.acciones s)
    (Estado.pasoIndex s) (Estado.isPlaying s) (Estado.mensajeActual s) v.

(** What a render does to the memoised [avanzarPaso]: [useCallback] keeps
    the previous function unless [acciones.length] differs from the length
    seen when that function was created. *)
Definition render (s : Estado.t) : Estado.t :=
  if (List.length (Estado.acciones s) =? List.length (Estado.memo_acciones s))%nat
  then s
  else setMemoAcciones (Estado.acciones s) s.

(** [pushLog]: [setLogs((prev) => [...prev, `[t=${prev.length}] ${msg}`])]. *)
Definition pushLog (msg : string) (s : Estado.t) : Estado.t :=
  setLogs
    (Estado.logs s ++
     [ ("[t=" ++ JS.str (Z.of_nat (List.length (Estado.logs s))) ++ "] " ++ msg)%string ])
    s.

(** [generarNodos], given the distinct ids its sampling loop has drawn. *)
Definition generarNodos (ids : list Z) : list NodoSim :=
  map (fun i => mkNodo i false false) ids.

(** [handleGenerarNodos]; [ids] are the ids drawn by [generarNodos]. *)
Definition handleGenerarNodos (ids : list Z) (s : Estado.t) : Estado.t :=
  if (Estado.numNodos s <? 3) || (Estado.numNodos s >? 15) then
    setNumNodos 5 s
  else
    setLogs
      [ "[t=0] Nodos generados (todos activos, sin líder inicial).";
        "[t=1] Selecciona un iniciador y luego pulsa 'Iniciar elección'." ]%string
      (setMensajeActual None
         (setIsPlaying false
            (setPasoIndex O
               (setAcciones []
                  (setModoIniciador false
                     (setNodoIniciador None
                        (setRecentLeaderId None
                           (setLeaderId None
                              (setNodos (generarNodos ids) s))))))))).

(** [toggleFallarNodo]. *)
Definition toggleFallarNodo (i : Z) (s : Estado.t) : Estado.t :=
  let estabaFallado :=
    match find (fun n => id n =? i) (Estado.nodos s) with
    | Some n => failed n
    | None => false
    end in
  let s1 :=
    setNodos
      (map (fun n => if id n =? i then mkNodo (id n) (negb (failed n)) false else n)
           (Estado.nodos s)) s in
  let s2 :=
    pushLog
      ("Nodo " ++ JS.str i ++ " "
         ++ (if estabaFallado then "revivido" else "marcado como caído") ++ ".")
      s1 in
  match Estado.leaderId s with
  | Some l =>
      if (l =? i) && negb estabaFallado then
        pushLog
          ("El líder " ++ JS.str i ++ " ha fallado. Ya no hay líder actual.")
          (setLeaderId None s2)
      else s2
  | None => s2
  end.

(** [seleccionarIniciador]. *)
Definition seleccionarIniciador (i : Z) (s : Estado.t) : Estado.t :=
  if negb (Estado.modoIniciador s) then s
  else
    match find (fun n => id n =? i) (Estado.nodos s) with
    | Some nodo =>
        if failed nodo then
          pushLog
            ("No se puede seleccionar el nodo " ++ JS.str i
               ++ " como iniciador (está caído).") s
        else
          pushLog
            ("Nodo " ++ JS.str i ++ " seleccionado como iniciador de la elección.")
            (setModoIniciador false
               (setNodos
                  (map (fun n => mkNodo (id n) (failed n) (id n =? i))
                       (Estado.nodos s))
                  (setNodoIniciador (Some i) s)))
    | None =>
        pushLog
          ("No se puede seleccionar el nodo " ++ JS.str i
             ++ " como iniciador (está caído).") s
    end.

(** [handleIniciarEleccion].  [!nodoIniciador] holds for [null] and for 0. *)
Definition handleIniciarEleccion (s : Estado.t) : Estado.t :=
  match Estado.nodoIniciador s with
  | None =>
      pushLog
        "Selecciona primero un nodo iniciador (botón 'Seleccionar iniciador')." s
  | Some nodoIniciador =>
      if nodoIniciador =? 0 then
        pushLog
          "Selecciona primero un nodo iniciador (botón 'Seleccionar iniciador')." s
      else if (List.length (Estado.nodos s) =? 0)%nat then
        pushLog "Primero genera los nodos." s
      else
        let accionesSim :=
          match Estado.algoritmoActivo s with
          | bully => simularBully (Estado.nodos s) nodoIniciador
          | ring => simularRingCompleto (Estado.nodos s) nodoIniciador
          end in
        setIsPlaying true
          (pushLog
             "Secuencia de elección generada. La simulación se está ejecutando automáticamente."
             (setNodos
                (map (fun n => mkNodo (id n) (failed n) (id n =? nodoIniciador))
                     (Estado.nodos s))
                (setMensajeActual None
                   (setPasoIndex O (setAcciones accionesSim s)))))
  end.

(** The effects of one action on the state, as the body of [avanzarPaso]
    lists them, the cursor apart. *)
Definition aplicar (acc : SimAction) (s : Estado.t) : Estado.t :=
  let s1 := pushLog (descripcion acc) s in
  let s2 :=
    match leaderId acc with
    | Some l => setRecentLeaderId l (setLeaderId l s1)
    | None => s1
    end in
  let s3 := setMensajeActual (mensaje acc) s2 in
  match highlightIds acc with
  | Some (h :: hs) =>
      setNodos
        (map (fun n => mkNodo (id n) (failed n) (JS.includes (id n) (h :: hs)))
             (Estado.nodos s3)) s3
  | _ =>
      setNodos (map (fun n => mkNodo (id n) (failed n) false) (Estado.nodos s3)) s3
  end.

(** One step with the action [acc]: its effects, then the cursor. *)
Definition paso_con (s : Estado.t) (acc : SimAction) : Estado.t :=
  setPasoIndex (Estado.pasoIndex s + 1) (aplicar acc s).

(** [avanzarPaso]: the memoised function, reading the [acciones] it was
    created with. *)
Definition avanzarPaso (s : Estado.t) : Estado.t :=
  let acciones := Estado.memo_acciones s in
  let currentIndex := Estado.pasoIndex s in
  if (List.length acciones <=? currentIndex)%nat then setIsPlaying false s
  else
    match nth_error acciones currentIndex with
    | Some acc => setPasoIndex (currentIndex + 1) (aplicar acc s)
    | None => s
    end.

(** [handlePlay], [handlePause], [handlePaso], [handleClearLogs]. *)
Definition handlePlay (s : Estado.t) : Estado.t :=
  if (List.length (Estado.acciones s) =? 0)%nat then
    pushLog "Primero genera una elección con 'Iniciar elección'." s
  else setIsPlaying true s.

Definition handlePause (s : Estado.t) : Estado.t := setIsPlaying false s.

Definition handlePaso (s : Estado.t) : Estado.t :=
  if (List.length (Estado.acciones s) =? 0)%nat then
    pushLog "Primero genera una elección con 'Iniciar elección'." s
  else avanzarPaso s.

Definition handleClearLogs (s : Estado.t) : Estado.t := setLogs [] s.

(** The restart button. *)
Definition reiniciar (s : Estado.t) : Estado.t :=
  setLogs
    [ "[t=0] Simulador reiniciado.";
      "[t=1] Genera nodos para comenzar de nuevo." ]%string
    (setMensajeActual None
       (setIsPlaying false
          (setPasoIndex O
             (setAcciones []
                (setNodoIniciador None
                   (setRecentLeaderId None
                      (setLeaderId None (setNodos [] s)))))))).

(** The playback effect: while playing and before the end of the sequence a
    timer is armed whose expiry calls [avanzarPaso]. *)
Definition temporizador (s : Estado.t) : Estado.t :=
  if Estado.isPlaying s
     && (Estado.pasoIndex s <? List.length (Estado.acciones s))%nat
  then avanzarPaso s
  else s.

(** What can happen to the component. *)
Inductive Evento :=
| EvNumNodos (n : Z)
| EvAlgoritmo (a : Algorithm)
| EvGenerarNodos (ids : list Z)
| EvModoIniciador
| EvClicNodo (i : Z)
| EvIniciarEleccion
| EvReiniciar
| EvPlay
| EvPause
| EvPaso
| EvClearLogs
| EvTemporizador
| EvFinCoronacion.

(** An event runs its handler, then the component renders again. *)
Definition manejar (e : Evento) (s : Estado.t) : Estado.t :=
  render
    match e with
    | EvNumNodos n =>
        if (0 <=? n) && (n <=? 99) then setNumNodos n s else s
    | EvAlgoritmo a => setAlgoritmoActivo a s
    | EvGenerarNodos ids => handleGenerarNodos ids s
    | EvModoIniciador => setModoIniciador true s
    | EvClicNodo i =>
        if Estado.modoIniciador s then seleccionarIniciador i s
        else toggleFallarNodo i s
    | EvIniciarEleccion => handleIniciarEleccion s
    | EvReiniciar => reiniciar s
    | EvPlay => handlePlay s
    | EvPause => handlePause s
    | EvPaso => handlePaso s
    | EvClearLogs => handleClearLogs s
    | EvTemporizador => temporizador s
    | EvFinCoronacion => setRecentLeaderId None s
    end.

Definition ejecutar (es : list Evento) (s : Estado.t) : Estado.t :=
  fold_left (fun s e => manejar e s) es s.

(** The events that run the step function, and those that replace the
    node set. *)
Definition es_paso (e : Evento) : Prop := e = EvPaso \/ e = EvTemporizador.

Definition reemplaza_nodos (e : Evento) : Prop :=
  (exists ids, e = EvGenerarNodos ids) \/ e = EvReiniciar.

(** A session of the specification's scenario.  Nodes 12, 55, 30, 81 are
    generated and 30 is chosen as initiator.  Node 55 is failed and a first
    Bully election is run to its end.  Then node 55 is revived, node 81 is
    failed and a second election is compiled and stepped to its end. *)
Definition sesion_primera_eleccion : list Evento :=
  [ EvNumNodos 4; EvGenerarNodos [12; 55; 30; 81];
    EvModoIniciador; EvClicNodo 30;
    EvClicNodo 55;
    EvIniciarEleccion; EvPaso; EvPaso; EvPaso; EvPaso ].

Definition sesion_segunda_eleccion : list Evento :=
  [ EvClicNodo 55; EvClicNodo 81; EvIniciarEleccion ].

Definition sesion_cuatro_pasos : list Evento := [ EvPaso; EvPaso; EvPaso; EvPaso ].

(** The state once the first election of the session has elected node 81. *)
Definition estado_lider_81 : Estado.t :=
  ejecutar sesion_primera_eleccion estado_inicial.

(** ** Observations on sequences and states *)

(** [vivos.filter((n) => n.id > iniciador.id)] for an initiator of id [i]. *)
Definition superiores_de (nodos : list NodoSim) (i : Z) : list NodoSim :=
  filter (fun n => id n >? i) (vivos nodos).

(** The leader left by applying the actions of a sequence in order to a
    state whose leader is [l]. *)
Definition lider_final (acciones : list SimAction) (l : option Z) : option Z :=
  fold_left (fun l a => match leaderId a with Some x => x | None => l end)
            acciones l.

(** The messages of a kind carried by a sequence, in order. *)
Definition mensajes_de (k : MessageKind) (acciones : list SimAction)
  : list SimMensaje :=
  flat_map (fun a => match mensaje a with
                     | Some m => if MessageKind_eqb (tipo m) k then [m] else []
                     | None => []
                     end) acciones.

(** The ring of a run, [anillo], and the index of the leader in it,
    [idxLider], as [simularRingCompleto] computes them. *)
Definition ring_idxInicio (nodos : list NodoSim) (iniciadorId : Z) : nat :=
  match JS.findIndex (fun n => id n =? iniciadorId) (vivos nodos) with
  | Some i => i
  | None => O
  end.

Definition ring_anillo_de (nodos : list NodoSim) (iniciadorId : Z)
  : list NodoSim :=
  ring_anillo (vivos nodos) (ring_idxInicio nodos iniciadorId).

Definition ring_idxLider (nodos : list NodoSim) (iniciadorId : Z) : nat :=
  match JS.findIndex
          (fun n => id n =? JS.Math_max (ring_idsEnMensaje nodos iniciadorId))
          (ring_anillo_de nodos iniciadorId) with
  | Some i => i
  | None => O
  end.

(** The messages pushed by the collection loop over [indices], the
    accumulator being [ids] when the loop starts. *)
Fixpoint ring_mensajes1 (iniciador : NodoSim) (anillo : list NodoSim)
  (indices : list nat) (ids : list Z) : list SimMensaje :=
  match indices with
  | [] => []
  | i :: r =>
      let from := nth (i - 1) anillo iniciador in
      let to := nth (i mod List.length anillo)%nat anillo iniciador in
      mkMensaje (id from) (id to) ring1 (Some ids)
        :: ring_mensajes1 iniciador anillo r (agrega (id to) ids)
  end.

(** The messages pushed by the announcement loop over [indices]. *)
Definition ring_mensajes2 (iniciador : NodoSim) (anillo : list NodoSim)
  (idxLider : nat) (indices : list nat) : list SimMensaje :=
  map (fun i =>
         mkMensaje
           (id (nth ((idxLider + i - 1) mod List.length anillo)%nat anillo iniciador))
           (id (nth ((idxLider + i) mod List.length anillo)%nat anillo iniciador))
           ring2 None)
      indices.

(** A state ready for a Ring election: nodes 13, 47, 22, 99 generated and
    47 chosen as initiator. *)
Definition estado_anillo_listo : Estado.t :=
  ejecutar [ EvAlgoritmo ring; EvNumNodos 4; EvGenerarNodos [13; 47; 22; 99];
             EvModoIniciador; EvClicNodo 47 ] estado_inicial.

(** The cursor is inside the sequence, and the sequence read by the step
    function is as long as the compiled one. *)
Definition cursor_en_rango (s : Estado.t) : Prop :=
  List.length (Estado.memo_acciones s) = List.length (Estado.acciones s) /\
  (Estado.pasoIndex s <= List.length (Estado.acciones s))%nat.

(** The states the component can be in. *)
Definition alcanzable (s : Estado.t) : Prop :=
  exists es, s = ejecutar es estado_inicial.

(** Every trace line carries the stamp of its position. *)
Definition sellado (logs : list string) : Prop :=
  forall k l, nth_error logs k = Some l ->
              String.prefix ("[t=" ++ JS.str (Z.of_nat k) ++ "] ") l = true.

End Election.

(** * Clock synchronisation: Cristian and Berkeley *)

(** A JavaScript object used as [Record<number, number>].  The keys are node
    ids, which the program generates as 0, 1, 2, ...; for such keys
    [Object.keys], [Object.values] and [Object.entries] enumerate in
    ascending key order, so the object is kept as a list of pairs in
    ascending key order, one pair per key. *)
Module Registro.

Definition t := list (Z * Z).

(** [{}]. *)
Definition vacio : t := [].

(** [r[k] = v]. *)
Fixpoint set (k v : Z) (r : t) : t :=
  match r with
  | [] => [(k, v)]
  | (k', v') :: r' =>
      if k <? k' then (k, v) :: r
      else if k =? k' then (k, v) :: r'
      else (k', v') :: set k v r'
  end.

(** [r[k]], [None] being [undefined]. *)
Fixpoint get (k : Z) (r : t) : option Z :=
  match r with
  | [] => None
  | (k', v') :: r' => if k =? k' then Some v' else get k r'
  end.

Definition keys (r : t) : list Z := map fst r.
Definition values (r : t) : list Z := map snd r.
Definition entries (r : t) : list (Z * Z) := r.

(** The object after [r[clave(x)] = valor(x)] for each [x] of [xs] in turn. *)
Definition llenar {A : Type} (clave valor : A -> Z) (xs : list A) (r : t) : t :=
  fold_left (fun r x => set (clave x) (valor x) r) xs r.

End Registro.

Module ClockSync.

Inductive ClockAlgorithm := cristian | berkeley.

Inductive Role := server | coordinator | client.

(** [ClockNode]. *)
Record ClockNode := mkNodo {
  id : Z;
  horaLocal : Z;
  offsetInicial : Z;
  offsetActual : Z;
  failed : bool;
  highlighted : bool;
  role : option Role;
  rtt : option Z
}.

Inductive TipoMensaje := request | response | berkeley_poll | berkeley_offset.

(** [ClockMessage]; no code writes its optional [payload]. *)
Record ClockMessage := mkMensaje {
  fromId : Z;
  toId : Z;
  tipo : TipoMensaje
}.

(** [ClockAction]. *)
Record ClockAction := mkAccion {
  descripcion : string;
  highlightIds : option (list Z);
  mensaje : option ClockMessage;
  ajustes : option Registro.t;
  rttValues : option Registro.t
}.

(** [nodos.filter((n) => !n.failed)]. *)
Definition vivos (nodos : list ClockNode) : list ClockNode :=
  filter (fun n => negb (failed n)) nodos.

(** The node's current time, [horaLocal + offsetActual]. *)
Definition hora (n : ClockNode) : Z := horaLocal n + offsetActual n.

(** [Math.max(5, Math.floor(Math.random() * latenciaMax))], [u] being the
    value [Math.random()] returned. *)
Definition latencia (u : JS.double) (latenciaMax : Z) : Z :=
  Z.max 5 (JS.Math_floor (JS.double_mul u (JS.double_of_Z latenciaMax))).

Section Compiladores.

(** [new Date(t).toLocaleTimeString("es-MX", { hour12: false })]: the
    wall-clock text of an instant depends on the time zone of the host. *)
Variable toLocaleTimeString : Z -> string.

(** The source of randomness: [azar k] is the value of the [k]-th call of
    [Math.random()] made by a compiler run, counting from 0. *)
Variable azar : nat -> JS.double.

(** ** [simularCristian] *)

(** The offset [theta] of one client. *)
Definition cristian_theta (baseReal dIda dVuelta T0 : Z) : Z :=
  let Tserver := baseReal + dIda in
  let RTT := dIda + dVuelta in
  JS.Math_round (inject_Z Tserver - (inject_Z T0 + inject_Z RTT / 2))%Q.

(** The body of [for (const nodo of vivos)]; [k] calls of [Math.random()]
    were made before this turn. *)
Definition cristian_nodo (latenciaMax baseReal : Z) (k : nat) (nodo : ClockNode)
  : list ClockAction :=
  let dIda := latencia (azar k) latenciaMax in
  let dVuelta := latencia (azar (S k)) latenciaMax in
  let T0 := horaLocal nodo + offsetActual nodo in
  let Tserver := baseReal + dIda in
  let RTT := dIda + dVuelta in
  let theta := cristian_theta baseReal dIda dVuelta T0 in
  [ mkAccion
      ("📤 Nodo " ++ JS.str (id nodo)
         ++ " envía REQUEST al servidor | Latencia: ida=" ++ JS.str dIda
         ++ "ms, vuelta=" ++ JS.str dVuelta ++ "ms")
      (Some [id nodo]) (Some (mkMensaje (id nodo) 0 request)) None None;
    mkAccion
      ("📥 Servidor responde a Nodo " ++ JS.str (id nodo)
         ++ " | Hora del servidor: " ++ toLocaleTimeString Tserver)
      (Some [id nodo]) (Some (mkMensaje 0 (id nodo) response)) None None;
    mkAccion
      ("⚙️ Nodo " ++ JS.str (id nodo) ++ " ajusta reloj | RTT=" ++ JS.str RTT
         ++ "ms, Offset calculado=" ++ JS.str theta ++ "ms")
      (Some [id nodo]) None
      (Some (Registro.set (id nodo) theta Registro.vacio))
      (Some (Registro.set (id nodo) RTT Registro.vacio)) ].

Fixpoint cristian_bucle (latenciaMax baseReal : Z) (k : nat)
  (vivos : list ClockNode) : list ClockAction :=
  match vivos with
  | [] => []
  | nodo :: resto =>
      cristian_nodo latenciaMax baseReal k nodo
        ++ cristian_bucle latenciaMax baseReal (S (S k)) resto
  end.

Definition simularCristian (nodos : list ClockNode) (latenciaMax : Z)
  : list ClockAction :=
  match vivos nodos with
  | [] =>
      [ mkAccion "No hay nodos activos para sincronizar con Cristian."
          None None None None ]
  | servidor :: _ =>
      let baseReal := horaLocal servidor - offsetInicial servidor in
      [ mkAccion
          "Servidor de referencia establecido. Su reloj representa el tiempo 'real' del sistema."
          None None None None ]
        ++ cristian_bucle latenciaMax baseReal O (vivos nodos)
        ++ [ mkAccion "Todos los nodos aplicaron sus ajustes según Cristian."
               None None None None ]
  end.

(** ** [simularBerkeley] *)

(** One turn of the poll loop.  The loop state is [acciones],
    [horasReportadas] and the number of [Math.random()] calls made. *)
Definition berkeley_poll_paso (latenciaMax : Z) (coord : ClockNode)
  (st : list ClockAction * Registro.t * nat) (nodo : ClockNode)
  : list ClockAction * Registro.t * nat :=
  let '(acciones, horasReportadas, k) := st in
  if id nodo =? id coord then st
  else
    let dIda := latencia (azar k) latenciaMax in
    let dVuelta := latencia (azar (S k)) latenciaMax in
    let horaNodo := horaLocal nodo + offsetActual nodo in
    (acciones ++
     [ mkAccion
         ("📤 Coordinador " ++ JS.str (id coord) ++ " envía POLL a Nodo "
            ++ JS.str (id nodo) ++ " | Latencia: ida=" ++ JS.str dIda
            ++ "ms, vuelta=" ++ JS.str dVuelta ++ "ms")
         (Some [id coord; id nodo])
         (Some (mkMensaje (id coord) (id nodo) berkeley_poll)) None None;
       mkAccion
         ("📥 Nodo " ++ JS.str (id nodo) ++ " responde con su hora local: "
            ++ toLocaleTimeString horaNodo)
         (Some [id coord; id nodo])
         (Some (mkMensaje (id nodo) (id coord) response)) None None ],
     Registro.set (id nodo) horaNodo horasReportadas,
     S (S k)).

(** One turn of the loop that sends the adjustments.  The loop state is
    [acciones] and [offsets]. *)
Definition berkeley_offset_paso (coord : ClockNode) (promedio : Z)
  (st : list ClockAction * Registro.t) (nodo : ClockNode)
  : list ClockAction * Registro.t :=
  let '(acciones, offsets) := st in
  let horaActual := horaLocal nodo + offsetActual nodo in
  let diff := promedio - horaActual in
  (acciones ++
   [ mkAccion
       ("📨 Coordinador " ++ JS.str (id coord) ++ " envía ajuste a Nodo "
          ++ JS.str (id nodo) ++ " | Offset=" ++ JS.str diff ++ "ms")
       (Some [id coord; id nodo])
       (Some (mkMensaje (id coord) (id nodo) berkeley_offset)) None None ],
   Registro.set (id nodo) diff offsets).

(** [Object.values(horasReportadas).reduce((a, b) => a + b, 0)]. *)
Definition berkeley_suma (horasReportadas : Registro.t) : Z :=
  fold_left Z.add (Registro.values horasReportadas) 0.

(** [Math.round(suma / Object.keys(horasReportadas).length)]. *)
Definition berkeley_promedio (horasReportadas : Registro.t) : Z :=
  JS.Math_round
    (inject_Z (berkeley_suma horasReportadas)
     / inject_Z (Z.of_nat (List.length (Registro.keys horasReportadas))))%Q.

(** The action that reports the average. *)
Definition berkeley_accion_promedio (coord : ClockNode) (promedio : Z)
  (horasReportadas : Registro.t) : ClockAction :=
  mkAccion
    ("🧮 Promedio calculado: " ++ toLocaleTimeString promedio ++ " | "
       ++ JS.str (Z.of_nat (List.length (Registro.keys horasReportadas)))
       ++ " nodos")
    (Some [id coord]) None None None.

(** The closing action, which carries all the adjustments. *)
Definition berkeley_accion_final (vivos : list ClockNode) (offsets : Registro.t)
  : ClockAction :=
  mkAccion "✅ Nodos aplican ajustes según Berkeley"
    (Some (map id vivos)) None (Some offsets) None.

Definition simularBerkeley (nodos : list ClockNode) (latenciaMax : Z)
  : list ClockAction :=
  match vivos nodos with
  | [] =>
      [ mkAccion "No hay nodos activos para ejecutar Berkeley."
          None None None None ]
  | coord :: _ =>
      let acciones :=
        [ mkAccion
            ("👑 Nodo " ++ JS.str (id coord)
               ++ " actúa como coordinador del algoritmo Berkeley")
            (Some [id coord]) None None None ] in
      let '(acciones, horasReportadas, _) :=
        fold_left (berkeley_poll_paso latenciaMax coord) (vivos nodos)
                  (acciones, Registro.vacio, O) in
      let horasReportadas :=
        Registro.set (id coord) (horaLocal coord + offsetActual coord)
                     horasReportadas in
      let acciones :=
        acciones ++
        [ mkAccion
            ("📊 Coordinador " ++ JS.str (id coord) ++ " recopila "
               ++ JS.str (Z.of_nat (List.length (Registro.keys horasReportadas)))
               ++ " horas de los nodos")
            (Some [id coord]) None None None ] in
      let promedio := berkeley_promedio horasReportadas in
      let acciones :=
        acciones ++ [ berkeley_accion_promedio coord promedio horasReportadas ] in
      let '(acciones, offsets) :=
        fold_left (berkeley_offset_paso coord promedio) (vivos nodos)
                  (acciones, Registro.vacio) in
      acciones ++ [ berkeley_accion_final (vivos nodos) offsets ]
  end.

(** The [horasReportadas] object of a Berkeley run when the average is
    computed: the poll loop's object with the coordinator's own time. *)
Definition berkeley_horasReportadas (nodos : list ClockNode) (latenciaMax : Z)
  : Registro.t :=
  match vivos nodos with
  | [] => Registro.vacio
  | coord :: _ =>
      Registro.set (id coord) (horaLocal coord + offsetActual coord)
        (snd (fst
           (fold_left (berkeley_poll_paso latenciaMax coord) (vivos nodos)
              ([ mkAccion
                   ("👑 Nodo " ++ JS.str (id coord)
                      ++ " actúa como coordinador del algoritmo Berkeley")
                   (Some [id coord]) None None None ],
               Registro.vacio, O))))
  end.

End Compiladores.

(** An action with the text of a POLL action blanked: the sampled delays
    are printed in that text. *)
Definition sin_texto_poll (a : ClockAction) : ClockAction :=
  match mensaje a with
  | Some m =>
      match tipo m with
      | berkeley_poll =>
          mkAccion "" (highlightIds a) (mensaje a) (ajustes a) (rttValues a)
      | _ => a
      end
  | None => a
  end.

(** [xs.reduce((a, b) => a + b, 0)]. *)
Definition suma (xs : list Z) : Z := fold_left Z.add xs 0.

(** Three clocks for examples: the reference node and two clients, the
    second client already adjusted by 40 ms. *)
Definition relojes_ejemplo : list ClockNode :=
  [ mkNodo 0 1000000 0 0 false false (Some server) None;
    mkNodo 1 1002500 2500 0 false false (Some client) None;
    mkNodo 2 998801 (-1199) 40 false false (Some client) None ].

(** A source of randomness that always answers one half. *)
Definition azar_medio : nat -> JS.double :=
  fun _ => JS.double_div (JS.double_of_Z 1) (JS.double_of_Z 2).

(** A time formatter for examples. *)
Definition hora_decimal (t : Z) : string := JS.str t.

(** ** [generarRelojes] *)

(** [now] is [Date.now()]; the offset of client [i] is
    [Math.floor(Math.random() * 6000 - 3000)] on the [i]-th draw. *)
Definition generarRelojes (now : Z) (azar : nat -> JS.double) (cantidad : Z)
  (algoritmo : ClockAlgorithm) : list ClockNode :=
  mkNodo 0 now 0 0 false false
    (Some match algoritmo with cristian => server | berkeley => coordinator end)
    None
  :: map (fun i =>
            let offset :=
              JS.Math_floor
                (JS.double_sub
                   (JS.double_mul (azar (i - 1)%nat) (JS.double_of_Z 6000))
                   (JS.double_of_Z 3000)) in
            mkNodo (Z.of_nat i) (now + offset) offset 0 false false
                   (Some client) None)
         (seq 1 (Z.to_nat cantidad)).

(** ** The [ClockSyncSimulator] component

    Its [avanzarPaso] is memoised on [[acciones, pasoIndex, nodos]], all the
    state it reads, so it always reads the state of the latest render. *)

Module Estado.
Record t := mk {
  numNodos : Z;
  algoritmoActivo : ClockAlgorithm;
  latenciaMax : Z;
  nodos : list ClockNode;
  acciones : list ClockAction;
  pasoIndex : nat;
  isPlaying : bool;
  mensajeActual : option ClockMessage;
  logs : list string
}.
End Estado.

Definition estado_inicial : Estado.t :=
  Estado.mk 4 cristian 200 [] [] O false None [].

Definition setNumNodos (v : Z) (s : Estado.t) : Estado.t :=
  Estado.mk v (Estado.algoritmoActivo s) (Estado.latenciaMax s) (Estado.nodos s)
    (Estado.acciones s) (Estado.pasoIndex s) (Estado.isPlaying s)
    (Estado.mensajeActual s) (Estado.logs s).

Definition setAlgoritmoActivo (v : ClockAlgorithm) (s : Estado.t) : Estado.t :=
  Estado.mk (Estado.numNodos s) v (Estado.latenciaMax s) (Estado.nodos s)
    (Estado.acciones s) (Estado.pasoIndex s) (Estado.isPlaying s)
    (Estado.mensajeActual s) (Estado.logs s).

Definition setLatenciaMax (v : Z) (s : Estado.t) : Estado.t :=
  Estado.mk (Estado.numNodos s) (Estado.algoritmoActivo s) v (Estado.nodos s)
    (Estado.acciones s) (Estado.pasoIndex s) (Estado.isPlaying s)
    (Estado.mensajeActual s) (Estado.logs s).

Definition setNodos (v : list ClockNode) (s : Estado.t) : Estado.t :=
  Estado.mk (Estado.numNodos s) (Estado.algoritmoActivo s) (Estado.latenciaMax s) v
    (Estado.acciones s) (Estado.pasoIndex s) (Estado.isPlaying s)
    (Estado.mensajeActual s) (Estado.logs s).

Definition setAcciones (v : list ClockAction) (s : Estado.t) : Estado.t :=
  Estado.mk (Estado.numNodos s) (Estado.algoritmoActivo s) (Estado.latenciaMax s)
    (Estado.nodos s) v (Estado.pasoIndex s) (Estado.isPlaying s)
    (Estado.mensajeActual s) (Estado.logs s).

Definition setPasoIndex (v : nat) (s : Estado.t) : Estado.t :=
  Estado.mk (Estado.numNodos s) (Estado.algoritmoActivo s) (Estado.latenciaMax s)
    (Estado.nodos s) (Estado.acciones s) v (Estado.isPlaying s)
    (Estado.mensajeActual s) (Estado.logs s).

Definition setIsPlaying (v : bool) (s : Estado.t) : Estado.t :=
  Estado.mk (Estado.numNodos s) (Estado.algoritmoActivo s) (Estado.latenciaMax s)
    (Estado.nodos s) (Estado.acciones s) (Estado.pasoIndex s) v
    (Estado.mensajeActual s) (Estado.logs s).

Definition setMensajeActual (v : option ClockMessage) (s : Estado.t) : Estado.t :=
  Estado.mk (Estado.numNodos s) (Estado.algoritmoActivo s) (Estado.latenciaMax s)
    (Estado.nodos s) (Estado.acciones s) (Estado.pasoIndex s) (Estado.isPlaying s)
    v (Estado.logs s).

Definition setLogs (v : list string) (s : Estado.t) : Estado.t :=
  Estado.mk (Estado.numNodos s) (Estado.algoritmoActivo s) (Estado.latenciaMax s)
    (Estado.nodos s) (Estado.acciones s) (Estado.pasoIndex s) (Estado.isPlaying s)
    (Estado.mensajeActual s) v.

(** [pushLog]. *)
Definition pushLog (msg : string) (s : Estado.t) : Estado.t :=
  setLogs
    (Estado.logs s ++
     [ ("[t=" ++ JS.str (Z.of_nat (List.length (Estado.logs s))) ++ "] " ++ msg)%string ])
    s.

(** [{ ...n, highlighted: v }], [{ ...n, horaLocal: v }] and the update of
    [offsetActual] and [rtt] made by [avanzarPaso]. *)
Definition con_highlighted (v : bool) (n : ClockNode) : ClockNode :=
  mkNodo (id n) (horaLocal n) (offsetInicial n) (offsetActual n) (failed n) v
         (role n) (rtt n).

Definition con_horaLocal (v : Z) (n : ClockNode) : ClockNode :=
  mkNodo (id n) v (offsetInicial n) (offsetActual n) (failed n) (highlighted n)
         (role n) (rtt n).

Definition con_ajuste (aj rv : option Registro.t) (n : ClockNode) : ClockNode :=
  mkNodo (id n) (horaLocal n) (offsetInicial n)
         match aj with
         | Some r => match Registro.get (id n) r with
                     | Some v => v
                     | None => offsetActual n
                     end
         | None => offsetActual n
         end
         (failed n) (highlighted n) (role n)
         match rv with
         | Some r => match Registro.get (id n) r with
                     | Some v => Some v
                     | None => rtt n
                     end
         | None => rtt n
         end.

(** [handleGenerarRelojes]. *)
Definition handleGenerarRelojes (now : Z) (azar : nat -> JS.double) (s : Estado.t)
  : Estado.t :=
  if (Estado.numNodos s <? 2) || (Estado.numNodos s >? 12) then setNumNodos 4 s
  else if (Estado.latenciaMax s <? 10) || (Estado.latenciaMax s >? 1000) then
    setLatenciaMax 100 s
  else
    setLogs
      [ "[t=0] Relojes generados con offsets aleatorios.";
        "[t=1] Nodo 0 actúa como "
          ++ match Estado.algoritmoActivo s with
             | cristian => "servidor"
             | berkeley => "coordinador"
             end ++ ".";
        "[t=2] Presiona 'Sincronizar' para iniciar el algoritmo." ]%string
      (setMensajeActual None
         (setIsPlaying false
            (setPasoIndex O
               (setAcciones []
                  (setNodos
                     (generarRelojes now azar (Estado.numNodos s)
                                     (Estado.algoritmoActivo s)) s))))).

(** [handleSincronizar].  The compiler reads the [nodos] of the render. *)
Definition handleSincronizar (toLocaleTimeString : Z -> string)
  (azar : nat -> JS.double) (s : Estado.t) : Estado.t :=
  if (List.length (Estado.nodos s) =? 0)%nat then pushLog "Primero genera relojes." s
  else
    let s1 :=
      setMensajeActual None
        (setNodos (map (con_highlighted false) (Estado.nodos s)) s) in
    let '(s2, accionesSim) :=
      match Estado.algoritmoActivo s with
      | cristian =>
          (pushLog "Ejecutando algoritmo Cristian..." s1,
           simularCristian toLocaleTimeString azar (Estado.nodos s)
                           (Estado.latenciaMax s))
      | berkeley =>
          (pushLog "Ejecutando algoritmo Berkeley..." s1,
           simularBerkeley toLocaleTimeString azar (Estado.nodos s)
                           (Estado.latenciaMax s))
      end in
    setIsPlaying true (setPasoIndex O (setAcciones accionesSim s2)).

(** The log lines of an action with [ajustes]: one line per entry whose
    node exists, with the offset before and after. *)
Definition log_ajustes (descripcion : string) (nodos : list ClockNode)
  (aj : Registro.t) (s : Estado.t) : Estado.t :=
  fold_left
    (fun s '(nodeId, newOffset) =>
       match find (fun n => id n =? nodeId) nodos with
       | Some nodo =>
           let before := offsetActual nodo in
           let delta := newOffset - before in
           let deltaStr :=
             (if delta >? 0 then "+" ++ JS.str delta else JS.str delta)%string in
           pushLog
             (descripcion ++ " | Nodo " ++ JS.str nodeId ++ ": offset "
                ++ JS.str before ++ "ms → " ++ JS.str newOffset ++ "ms ("
                ++ deltaStr ++ "ms)")
             s
       | None => s
       end)
    (Registro.entries aj) s.

(** The effects of one action on the state, as the body of [avanzarPaso]
    lists them, the cursor apart. *)
Definition aplicar (acc : ClockAction) (s : Estado.t) : Estado.t :=
  let s1 :=
    match ajustes acc with
    | Some aj => log_ajustes (descripcion acc) (Estado.nodos s) aj s
    | None => pushLog (descripcion acc) s
    end in
  let s2 :=
    match highlightIds acc with
    | Some hs =>
        setNodos
          (map (fun n => con_highlighted (JS.includes (id n) hs) n)
               (Estado.nodos s1)) s1
    | None => setNodos (map (con_highlighted false) (Estado.nodos s1)) s1
    end in
  let s3 := setMensajeActual (mensaje acc) s2 in
  match ajustes acc, rttValues acc with
  | None, None => s3
  | aj, rv => setNodos (map (con_ajuste aj rv) (Estado.nodos s3)) s3
  end.

(** One step with the action [acc]: its effects, then the cursor. *)
Definition paso_con (s : Estado.t) (acc : ClockAction) : Estado.t :=
  setPasoIndex (Estado.pasoIndex s + 1) (aplicar acc s).

(** [avanzarPaso]. *)
Definition avanzarPaso (s : Estado.t) : Estado.t :=
  if (List.length (Estado.acciones s) <=? Estado.pasoIndex s)%nat then
    setIsPlaying false s
  else
    match nth_error (Estado.acciones s) (Estado.pasoIndex s) with
    | Some acc => setPasoIndex (Estado.pasoIndex s + 1) (aplicar acc s)
    | None => s
    end.

(** The playback effect: while playing and before the end of the sequence a
    timer is armed whose expiry calls [avanzarPaso]. *)
Definition temporizador (s : Estado.t) : Estado.t :=
  if Estado.isPlaying s
     && (Estado.pasoIndex s <? List.length (Estado.acciones s))%nat
  then avanzarPaso s
  else s.

(** The one-second interval that advances every clock. *)
Definition tic (s : Estado.t) : Estado.t :=
  setNodos (map (fun n => con_horaLocal (horaLocal n + 1000) n) (Estado.nodos s)) s.

(** What can happen to the component. *)
Inductive Evento :=
| EvNumNodos (n : Z)
| EvLatenciaMax (n : Z)
| EvAlgoritmo (a : ClockAlgorithm)
| EvGenerarRelojes (now : Z) (azar : nat -> JS.double)
| EvSincronizar (azar : nat -> JS.double)
| EvPlay
| EvPause
| EvPaso
| EvClearLogs
| EvTemporizador
| EvTic.

Definition manejar (toLocaleTimeString : Z -> string) (e : Evento)
  (s : Estado.t) : Estado.t :=
  match e with
  | EvNumNodos n => if (0 <=? n) && (n <=? 99) then setNumNodos n s else s
  | EvLatenciaMax n => if (0 <=? n) && (n <=? 9999) then setLatenciaMax n s else s
  | EvAlgoritmo a => setAlgoritmoActivo a s
  | EvGenerarRelojes now azar => handleGenerarRelojes now azar s
  | EvSincronizar azar => handleSincronizar toLocaleTimeString azar s
  | EvPlay => setIsPlaying true s
  | EvPause => setIsPlaying false s
  | EvPaso => avanzarPaso s
  | EvClearLogs => setLogs [] s
  | EvTemporizador => temporizador s
  | EvTic => tic s
  end.

(** The events that run the step function. *)
Definition es_paso (e : Evento) : Prop := e = EvPaso \/ e = EvTemporizador.

(** ** Observations on sequences, nodes and states *)

(** The status shown on a clock card: [offsetTotal] is
    [offsetInicial + offsetActual], more than 3000 ms off is "muy
    desincronizado", more than 1000 ms off is "desincronizado". *)
Inductive SyncStatus := synced | partial | desynced.

Definition syncStatus (n : ClockNode) : SyncStatus :=
  let offsetTotal := offsetInicial n + offsetActual n in
  let absOffset := Z.abs offsetTotal in
  if absOffset >? 3000 then desynced
  else if absOffset >? 1000 then partial
  else synced.

(** An action without its text. *)
Definition sin_texto (a : ClockAction) : ClockAction :=
  mkAccion "" (highlightIds a) (mensaje a) (ajustes a) (rttValues a).

(** The messages carried by a sequence, in order. *)
Definition mensajes (acciones : list ClockAction) : list ClockMessage :=
  flat_map (fun a => match mensaje a with Some m => [m] | None => [] end)
           acciones.

(** The instant a clock was set from: its time without its initial offset. *)
Definition base (n : ClockNode) : Z := horaLocal n - offsetInicial n.

(** Every clock moved forward by [d] ms; the one-second interval does this
    with [d = 1000]. *)
Definition adelantar (d : Z) (nodos : list ClockNode) : list ClockNode :=
  map (fun n => con_horaLocal (horaLocal n + d) n) nodos.

(** The value of [offsetActual] of the node [nodeId] once the [ajustes] of
    an action are applied, [actual] being its value before. *)
Definition ajustado (acc : ClockAction) (nodeId actual : Z) : Z :=
  match ajustes acc with
  | Some r => match Registro.get nodeId r with
              | Some v => v
              | None => actual
              end
  | None => actual
  end.

(** The [offsetActual] of every node, by id, and what the [ajustes] of an
    action make of them. *)
Definition offsets (nodos : list ClockNode) : list (Z * Z) :=
  map (fun n => (id n, offsetActual n)) nodos.

Definition ajustar (l : list (Z * Z)) (acc : ClockAction) : list (Z * Z) :=
  map (fun p => (fst p, ajustado acc (fst p) (snd p))) l.

(** The events that neither generate clocks nor compile a sequence. *)
Definition sin_recompilar (e : Evento) : Prop :=
  match e with
  | EvGenerarRelojes _ _ => False
  | EvSincronizar _ => False
  | _ => True
  end.

(** A record of times with every value moved forward by [d] ms. *)
Definition desplazar (d : Z) (r : Registro.t) : Registro.t :=
  map (fun kv => (fst kv, snd kv + d)) r.

(** The states the component can be in. *)
Definition ejecutar (toLocaleTimeString : Z -> string) (es : list Evento)
  (s : Estado.t) : Estado.t :=
  fold_left (fun s e => manejar toLocaleTimeString e s) es s.

Definition alcanzable (toLocaleTimeString : Z -> string) (s : Estado.t) : Prop :=
  exists es, s = ejecutar toLocaleTimeString es estado_inicial.

(** What every reachable state satisfies: no clock is failed, ids are
    pairwise distinct, all clocks were set from the same instant, and the
    cursor is inside the sequence. *)
Definition relojes_bien_formados (nodos : list ClockNode) : Prop :=
  Forall (fun n => failed n = false) nodos /\
  NoDup (map id nodos) /\
  exists t, Forall (fun n => base n = t) nodos.

(** A session: four clocks generated at instant 1000000 and one tick; then
    a run compiled; then the run played to its end, by hand and by the
    timer, with a tick in between. *)
Definition azar_ejemplo : nat -> JS.double :=
  fun k =>
    JS.double_div (JS.double_of_Z (Z.of_nat ((37 * k + 11) mod 100)))
                  (JS.double_of_Z 100).

Definition sesion_relojes (a : ClockAlgorithm) : list Evento :=
  [ EvNumNodos 3; EvAlgoritmo a; EvGenerarRelojes 1000000 azar_ejemplo; EvTic ].

Definition sesion_berkeley : list Evento :=
  sesion_relojes berkeley ++ [ EvSincronizar azar_medio ].

Definition sesion_reproduccion : list Evento :=
  repeat EvPaso 7 ++ [ EvTic ] ++ repeat EvTemporizador 7.

End ClockSync.

(** * Properties *)

(** ** General list facts used below *)

Section ListFacts.

Context {A : Type}.

Lemma fold_left_max_ge (xs : list Z) (x : Z) :
  x <= fold_left Z.max xs x /\ Forall (fun y => y <= fold_left Z.max xs x) xs.
Proof.
  revert x; induction xs as [|y r IH]; intros x; simpl.
  - split; [lia | constructor].
  - destruct (IH (Z.max x y)) as [H1 H2]. split; [lia|].
    constructor; [lia | exact H2].
Qed.

Lemma fold_left_max_in (xs : list Z) (x : Z) :
  fold_left Z.max xs x = x \/ In (fold_left Z.max xs x) xs.
Proof.
  revert x; induction xs as [|y r IH]; intros x; simpl; [now left|].
  destruct (IH (Z.max x y)) as [H|H].
  - rewrite H. destruct (Z.max_spec x y) as [[_ E]|[_ E]]; rewrite E; auto.
  - auto.
Qed.

Lemma findIndex_Some (p : A -> bool) (xs : list A) (i : nat) :
  JS.findIndex p xs = Some i ->
  (i < List.length xs)%nat /\
  exists x, nth_error xs i = Some x /\ p x = true.
Proof.
  revert i; induction xs as [|x r IH]; intros i; simpl; [discriminate|].
  destruct (p x) eqn:E.
  - intros [= <-]. split; [lia|]. exists x; auto.
  - destruct (JS.findIndex p r) as [j|]; simpl; [|discriminate].
    intros [= <-]. destruct (IH j eq_refl) as [Hl Hx].
    split; [lia | exact Hx].
Qed.

Lemma find_findIndex (p : A -> bool) (xs : list A) (x : A) :
  find p xs = Some x ->
  exists i, JS.findIndex p xs = Some i /\ nth_error xs i = Some x.
Proof.
  induction xs as [|y r IH]; simpl; [discriminate|].
  destruct (p y).
  - intros [= <-]. exists O; auto.
  - intros H. destruct (IH H) as [i [Hi Hn]]. exists (S i).
    rewrite Hi; auto.
Qed.

End ListFacts.

Module ElectionSpec.
Import Election.

(** ** Bully *)

Lemma find_iniciador_vivo nodos iniciadorId :
  iniciador_vivo nodos iniciadorId ->
  exists iniciador,
    find (fun n => id n =? iniciadorId) (vivos nodos) = Some iniciador /\
    In iniciador (vivos nodos) /\ id iniciador = iniciadorId.
Proof.
  intros [n [Hin [Hf Hid]]].
  destruct (find (fun n => id n =? iniciadorId) (vivos nodos)) as [x|] eqn:E.
  - exists x. apply find_some in E as [H1 H2]. repeat split; auto.
    now apply Z.eqb_eq.
  - exfalso. assert (Hv : In n (vivos nodos)).
    { unfold vivos. apply filter_In. split; auto. now rewrite Hf. }
    pose proof (find_none _ _ E n Hv) as Hn. simpl in Hn.
    apply Z.eqb_neq in Hn. contradiction.
Qed.

Lemma id_nuevoLider (vs : list NodoSim) (x : NodoSim) :
  id (fold_left (fun max n => if id n >? id max then n else max) vs x)
  = fold_left Z.max (map id vs) (id x).
Proof.
  revert x; induction vs as [|v r IH]; intros x; simpl; [reflexivity|].
  rewrite IH. f_equal.
  destruct (id v >? id x) eqn:E.
  - apply Z.gtb_lt in E. lia.
  - rewrite Z.gtb_ltb in E. apply Z.ltb_ge in E. lia.
Qed.

Lemma ultimo_leaderId_app acciones a :
  ultimo_leaderId (acciones ++ [a]) = leaderId a.
Proof. unfold ultimo_leaderId. now rewrite rev_app_distr. Qed.

Lemma bully_lider_general nodos iniciadorId :
  iniciador_vivo nodos iniciadorId ->
  exists m,
    ultimo_leaderId (simularBully nodos iniciadorId) = Some (Some m) /\
    es_maximo m (map id (vivos nodos)).
Proof.
  intros H. destruct (find_iniciador_vivo _ _ H) as [ini [Hfind [Hin Hid]]].
  unfold simularBully. rewrite Hfind.
  destruct (filter (fun n => id n >? id ini) (vivos nodos)) as [|s sup] eqn:Esup.
  - exists (id ini). simpl List.length. simpl Nat.eqb. cbv iota.
    rewrite ultimo_leaderId_app. simpl. split; [reflexivity|].
    split; [now apply in_map|].
    apply Forall_forall. intros x Hx. apply in_map_iff in Hx as [y [<- Hy]].
    destruct (id y >? id ini) eqn:E.
    + assert (In y (filter (fun n => id n >? id ini) (vivos nodos)))
        by (apply filter_In; auto).
      rewrite Esup in *. contradiction.
    + rewrite Z.gtb_ltb in E. apply Z.ltb_ge in E. exact E.
  - remember (s :: sup) as sups. 
    replace (List.length sups =? 0)%nat with false
      by (subst sups; reflexivity).
    rewrite app_assoc, ultimo_leaderId_app. simpl leaderId.
    eexists. split; [reflexivity|].
    rewrite id_nuevoLider.
    destruct (fold_left_max_ge (map id (vivos nodos)) (id ini)) as [Hge Hall].
    split; [|exact Hall].
    destruct (fold_left_max_in (map id (vivos nodos)) (id ini)) as [E|E].
    + rewrite E. now apply in_map.
    + exact E.
Qed.

(** C1. For every node list and every initiator that is alive, the last
    action of the Bully sequence sets [leaderId] to the greatest id among
    the alive nodes.  With the nodes 12, 55, 30, 81 and initiator 30 the
    sequence ends with [leaderId = 81]; once node 81 is failed, a new run
    ends with [leaderId = 55]. *)
Theorem bully_lider_es_maximo :
  (forall nodos iniciadorId,
      iniciador_vivo nodos iniciadorId ->
      exists m,
        ultimo_leaderId (simularBully nodos iniciadorId) = Some (Some m) /\
        es_maximo m (map id (vivos nodos))) /\
  ultimo_leaderId (simularBully nodos_escenario 30) = Some (Some 81) /\
  ultimo_leaderId (simularBully nodos_escenario_sin_81 30) = Some (Some 55).
Proof.
  split; [exact bully_lider_general|].
  split; reflexivity.
Qed.

Lemma bully_lider_es_maximo_witness :
  iniciador_vivo nodos_escenario 30 /\
  exists m,
    ultimo_leaderId (simularBully nodos_escenario 30) = Some (Some m) /\
    es_maximo m (map id (vivos nodos_escenario)).
Proof.
  assert (H : iniciador_vivo nodos_escenario 30).
  { exists (mkNodo 30 false false). simpl. intuition. }
  split; [exact H|].
  exact (proj1 bully_lider_es_maximo nodos_escenario 30 H).
Defined.

(** ** Ring *)

Lemma includes_In x ids : JS.includes x ids = true <-> In x ids.
Proof.
  unfold JS.includes. rewrite existsb_exists. split.
  - intros [y [Hy E]]. apply Z.eqb_eq in E. now subst.
  - intros H. exists x. split; [exact H | apply Z.eqb_refl].
Qed.

Lemma agrega_In x ids y : In y (agrega x ids) <-> In y ids \/ y = x.
Proof.
  unfold agrega. destruct (JS.includes x ids) eqn:E.
  - apply includes_In in E. split; [auto | intros [H | ->]; auto].
  - rewrite in_app_iff. simpl. intuition.
Qed.

(** The indices read by the two loops of the Ring compiler are inside the
    ring. *)
Lemma ring_indices_en_rango (n idx i : nat) :
  In i (seq 1 n) ->
  (i - 1 < n)%nat /\ (i mod n < n)%nat /\
  ((idx + i - 1) mod n < n)%nat /\ ((idx + i) mod n < n)%nat.
Proof.
  intros H. apply in_seq in H.
  repeat split; try apply Nat.mod_upper_bound; lia.
Qed.

Section Fase1.

Variables (iniciador : NodoSim) (anillo : list NodoSim).

Lemma fase1_acciones (indices : list nat) acciones ids :
  exists extra,
    fst (fold_left (ring_fase1_paso iniciador anillo) indices (acciones, ids))
    = acciones ++ extra /\
    List.length extra = List.length indices /\
    Forall (lleva_mensaje ring1) extra.
Proof.
  revert acciones ids; induction indices as [|i r IH]; intros acciones ids.
  - exists []. simpl. rewrite app_nil_r. auto.
  - cbn [fold_left]. unfold ring_fase1_paso at 2.
    match goal with
    | |- context [fold_left _ r (acciones ++ [?a], ?ids')] =>
        destruct (IH (acciones ++ [a]) ids') as [extra [E [L F]]];
        exists (a :: extra)
    end.
    rewrite E, <- app_assoc. simpl. repeat split; auto.
    constructor; [|exact F].
    split; [reflexivity|]. eexists; split; reflexivity.
Qed.

Lemma fase1_ids (indices : list nat) acciones ids :
  snd (fold_left (ring_fase1_paso iniciador anillo) indices (acciones, ids))
  = fold_left
      (fun ids i =>
         agrega (id (nth (i mod List.length anillo)%nat anillo iniciador)) ids)
      indices ids.
Proof.
  revert acciones ids; induction indices as [|i r IH]; intros acciones ids;
    [reflexivity|].
  cbn [fold_left]. unfold ring_fase1_paso at 2. now rewrite IH.
Qed.

Lemma fold_agrega_In (f : nat -> Z) (indices : list nat) ids y :
  In y (fold_left (fun ids i => agrega (f i) ids) indices ids) <->
  In y ids \/ exists i, In i indices /\ y = f i.
Proof.
  revert ids; induction indices as [|i r IH]; intros ids; simpl.
  - split; [auto | intros [H|[i [Hi _]]]; [exact H | destruct Hi]].
  - rewrite IH, agrega_In. split.
    + intros [[H | ->] | [j [Hj ->]]]; eauto.
    + intros [H | [j [[<- | Hj] ->]]]; eauto.
Qed.

Lemma fold_agrega_cabeza (f : nat -> Z) (indices : list nat) x ids :
  exists cola,
    fold_left (fun ids i => agrega (f i) ids) indices (x :: ids) = x :: cola.
Proof.
  revert ids; induction indices as [|i r IH]; intros ids; simpl.
  - now exists ids.
  - unfold agrega at 2. destruct (JS.includes (f i) (x :: ids)).
    + apply IH.
    + simpl. apply IH.
Qed.

Lemma vuelta_completa (y : Z) :
  (0 < List.length anillo)%nat ->
  (exists i, In i (seq 1 (List.length anillo)) /\
             y = id (nth (i mod List.length anillo)%nat anillo iniciador)) <->
  In y (map id anillo).
Proof.
  intros Hn. split.
  - intros [i [_ ->]]. apply in_map, nth_In.
    apply Nat.mod_upper_bound. lia.
  - intros H. apply in_map_iff in H as [v [<- Hv]].
    destruct (In_nth _ _ iniciador Hv) as [j [Hj E]].
    destruct j as [|j].
    + exists (List.length anillo). split.
      * apply in_seq. lia.
      * now rewrite Nat.Div0.mod_same, E.
    + exists (S j). split.
      * apply in_seq. lia.
      * now rewrite Nat.mod_small, E by lia.
Qed.

Lemma fase2_acciones (idLeader : Z) (idxLider : nat) (indices : list nat) acciones :
  exists extra,
    fold_left (ring_fase2_paso iniciador anillo idLeader idxLider) indices acciones
    = acciones ++ extra /\
    List.length extra = List.length indices /\
    Forall (lleva_mensaje ring2) extra.
Proof.
  revert acciones; induction indices as [|i r IH]; intros acciones.
  - exists []. simpl. rewrite app_nil_r. auto.
  - cbn [fold_left]. unfold ring_fase2_paso at 2.
    match goal with
    | |- context [fold_left _ r (acciones ++ [?a])] =>
        destruct (IH (acciones ++ [a])) as [extra [E [L F]]];
        exists (a :: extra)
    end.
    rewrite E, <- app_assoc. simpl. repeat split; auto.
    constructor; [|exact F].
    split; [reflexivity|]. eexists; split; reflexivity.
Qed.

End Fase1.

Lemma ring_anillo_In (vs : list NodoSim) (k : nat) (v : NodoSim) :
  In v (ring_anillo vs k) <-> In v vs.
Proof.
  unfold ring_anillo, JS.slice_from, JS.slice_to.
  rewrite in_app_iff. rewrite <- (firstn_skipn k vs) at 3.
  rewrite in_app_iff. tauto.
Qed.

Lemma ring_anillo_length (vs : list NodoSim) (k : nat) :
  List.length (ring_anillo vs k) = List.length vs.
Proof.
  unfold ring_anillo, JS.slice_from, JS.slice_to.
  rewrite length_app, Nat.add_comm, <- length_app, firstn_skipn. reflexivity.
Qed.

Lemma Math_max_es_maximo (x : Z) (cola : list Z) :
  es_maximo (JS.Math_max (x :: cola)) (x :: cola).
Proof.
  unfold es_maximo, JS.Math_max.
  destruct (fold_left_max_ge cola x) as [Hx Hall].
  split.
  - destruct (fold_left_max_in cola x) as [E|E]; [rewrite E; now left | now right].
  - constructor; assumption.
Qed.

(** The shape of a Ring sequence: the opening action, the collection
    messages, the action of the message's return, the opening of the
    announcement, the announcement messages and the closing action. *)
Lemma ring_estructura nodos iniciadorId :
  iniciador_vivo nodos iniciadorId ->
  exists inicio extra1 anuncio extra2 final,
    simularRingCompleto nodos iniciadorId
    = inicio :: extra1
        ++ ring_accion_regreso iniciadorId (ring_idsEnMensaje nodos iniciadorId)
        :: anuncio :: extra2 ++ [final] /\
    List.length extra1 = List.length (vivos nodos) /\
    Forall (lleva_mensaje ring1) extra1 /\
    List.length extra2 = List.length (vivos nodos) /\
    Forall (lleva_mensaje ring2) extra2 /\
    mensaje inicio = None /\ mensaje anuncio = None /\ mensaje final = None /\
    leaderId final
    = Some (Some (JS.Math_max (ring_idsEnMensaje nodos iniciadorId))).
Proof.
  intros H. destruct (find_iniciador_vivo _ _ H) as [ini [Hfind [Hin Hid]]].
  unfold simularRingCompleto, ring_idsEnMensaje. rewrite Hfind.
  destruct (vivos nodos) as [|v0 vs0] eqn:Ev; [destruct Hin|].
  rewrite <- Ev in *. replace (List.length (vivos nodos) =? 0)%nat with false
    by (rewrite Ev; reflexivity).
  set (idx := match JS.findIndex _ _ with Some i => i | None => O end).
  set (anillo := ring_anillo (vivos nodos) idx).
  set (inicio := mkAccion _ (Some [id ini]) None None).
  destruct (fase1_acciones ini anillo (seq 1 (List.length anillo))
              [inicio] [id ini]) as [extra1 [E1 [L1 F1]]].
  unfold ring_fase1 in *.
  destruct (fold_left (ring_fase1_paso ini anillo) _ ([inicio], [id ini]))
    as [acciones ids] eqn:Efold.
  simpl in E1. subst acciones. simpl snd.
  set (idLeader := JS.Math_max ids).
  set (nodoLider := match find _ anillo with Some n => n | None => ini end).
  set (idxLider := match JS.findIndex _ anillo with Some i => i | None => O end).
  set (anuncio := mkAccion _ (Some [id nodoLider]) None None).
  unfold ring_fase2.
  destruct (fase2_acciones ini anillo idLeader idxLider
              (seq 1 (List.length anillo))
              (((inicio :: extra1) ++ [ring_accion_regreso (id ini) ids])
                 ++ [anuncio])) as [extra2 [E2 [L2 F2]]].
  rewrite E2. rewrite length_seq in L1, L2.
  unfold anillo in L1, L2. rewrite ring_anillo_length in L1, L2.
  eexists inicio, extra1, anuncio, extra2, _.
  split.
  { rewrite Hid. simpl. rewrite <- !app_assoc. simpl. reflexivity. }
  repeat split; try assumption.
Qed.

Lemma ring_idsEnMensaje_spec nodos iniciadorId :
  iniciador_vivo nodos iniciadorId ->
  (forall x, In x (ring_idsEnMensaje nodos iniciadorId)
             <-> In x (map id (vivos nodos))) /\
  exists cola, ring_idsEnMensaje nodos iniciadorId = iniciadorId :: cola.
Proof.
  intros H. destruct (find_iniciador_vivo _ _ H) as [ini [Hfind [Hin Hid]]].
  unfold ring_idsEnMensaje, ring_fase1. rewrite Hfind, fase1_ids.
  set (idx := match JS.findIndex _ _ with Some i => i | None => O end).
  set (anillo := ring_anillo (vivos nodos) idx).
  assert (Hn : (0 < List.length anillo)%nat).
  { unfold anillo. rewrite ring_anillo_length.
    destruct (vivos nodos); [destruct Hin | simpl; lia]. }
  split.
  - intros x.
    rewrite (fold_agrega_In
               (fun i => id (nth (i mod List.length anillo)%nat anillo ini))).
    rewrite (vuelta_completa ini anillo x Hn).
    assert (Hset : In x (map id anillo) <-> In x (map id (vivos nodos))).
    { rewrite !in_map_iff. split; intros [v [E Hv]]; exists v; split; auto;
        now apply (ring_anillo_In (vivos nodos) idx). }
    rewrite Hset. simpl. split; [|auto].
    intros [[<- | []] | Hx]; [|exact Hx]. now apply in_map.
  - rewrite <- Hid.
    apply (fold_agrega_cabeza
             (fun i => id (nth (i mod List.length anillo)%nat anillo ini))).
Qed.

Lemma es_maximo_mismos_elementos (m : Z) (xs ys : list Z) :
  (forall x, In x xs <-> In x ys) -> es_maximo m xs -> es_maximo m ys.
Proof.
  intros Hs [Hm Hall]. split; [now apply Hs|].
  rewrite Forall_forall in *. intros x Hx. apply Hall. now apply Hs.
Qed.



(** ** Counting the messages of a Ring run *)

Lemma cuenta_mensajes_app k xs ys :
  cuenta_mensajes k (xs ++ ys)
  = (cuenta_mensajes k xs + cuenta_mensajes k ys)%nat.
Proof. unfold cuenta_mensajes. now rewrite filter_app, length_app. Qed.

Lemma cuenta_mensajes_cons k a xs :
  cuenta_mensajes k (a :: xs)
  = (cuenta_mensajes k [a] + cuenta_mensajes k xs)%nat.
Proof. apply (cuenta_mensajes_app k [a] xs). Qed.

Lemma cuenta_sin_mensaje k a : mensaje a = None -> cuenta_mensajes k [a] = O.
Proof. intros H. unfold cuenta_mensajes. simpl. now rewrite H. Qed.

Lemma cuenta_lleva k k' xs :
  Forall (lleva_mensaje k') xs ->
  cuenta_mensajes k xs = if MessageKind_eqb k' k then List.length xs else O.
Proof.
  induction 1 as [|a r [_ [m [Hm Hk]]] _ IH].
  - now destruct (MessageKind_eqb k' k).
  - rewrite cuenta_mensajes_cons, IH. unfold cuenta_mensajes. simpl.
    rewrite Hm, Hk. now destruct (MessageKind_eqb k' k).
Qed.

Lemma ring_cuenta_general nodos iniciadorId :
  iniciador_vivo nodos iniciadorId ->
  cuenta_mensajes ring1 (simularRingCompleto nodos iniciadorId)
  = List.length (vivos nodos) /\
  cuenta_mensajes ring2 (simularRingCompleto nodos iniciadorId)
  = List.length (vivos nodos).
Proof.
  intros H.
  destruct (ring_estructura _ _ H)
    as (inicio & extra1 & anuncio & extra2 & final
        & E & L1 & F1 & L2 & F2 & M1 & M2 & M3 & _).
  rewrite E.
  split;
    rewrite (cuenta_mensajes_cons _ inicio); rewrite ?cuenta_mensajes_app;
    rewrite (cuenta_mensajes_cons _ (ring_accion_regreso _ _)),
            (cuenta_mensajes_cons _ anuncio); rewrite ?cuenta_mensajes_app;
    rewrite (cuenta_lleva _ _ _ F1), (cuenta_lleva _ _ _ F2),
            !cuenta_sin_mensaje by (assumption || reflexivity);
    simpl; lia.
Qed.

Lemma ring_un_solo_nodo nodos x :
  vivos nodos = [x] ->
  map mensaje (simularRingCompleto nodos (id x))
  = [ None;
      Some (mkMensaje (id x) (id x) ring1 (Some [id x]));
      None;
      None;
      Some (mkMensaje (id x) (id x) ring2 None);
      None ].
Proof.
  intros H. unfold simularRingCompleto. rewrite H.
  cbn [List.length Nat.eqb find JS.findIndex].
  rewrite Z.eqb_refl.
  unfold ring_anillo, JS.slice_from, JS.slice_to, ring_fase1, ring_fase2.
  cbn [skipn firstn app List.length seq fold_left].
  unfold ring_fase1_paso.
  cbn [Nat.sub Nat.modulo Nat.divmod snd fst nth].
  unfold JS.includes. cbn [existsb]. rewrite Z.eqb_refl. cbn [orb].
  unfold JS.Math_max. cbn [fold_left find JS.findIndex].
  rewrite Z.eqb_refl.
  unfold ring_fase2_paso.
  cbn [Nat.add Nat.sub Nat.modulo Nat.divmod snd fst nth List.length app map mensaje].
  reflexivity.
Qed.

(** C9. In a Ring run with an alive initiator and [n] alive nodes, exactly
    [n] actions carry a collection message ([ring1]) and exactly [n] carry
    an announcement message ([ring2]); with a single alive node each phase
    is one message from that node to itself. *)
Theorem ring_n_mensajes_por_fase :
  (forall nodos iniciadorId,
      iniciador_vivo nodos iniciadorId ->
      cuenta_mensajes ring1 (simularRingCompleto nodos iniciadorId)
      = List.length (vivos nodos) /\
      cuenta_mensajes ring2 (simularRingCompleto nodos iniciadorId)
      = List.length (vivos nodos)) /\
  (forall nodos x,
      vivos nodos = [x] ->
      map mensaje (simularRingCompleto nodos (id x))
      = [ None;
          Some (mkMensaje (id x) (id x) ring1 (Some [id x]));
          None;
          None;
          Some (mkMensaje (id x) (id x) ring2 None);
          None ]).
Proof. split; [exact ring_cuenta_general | exact ring_un_solo_nodo]. Qed.

Lemma ring_n_mensajes_por_fase_witness :
  iniciador_vivo nodos_anillo_ejemplo 47 /\
  cuenta_mensajes ring1 (simularRingCompleto nodos_anillo_ejemplo 47) = 4%nat /\
  cuenta_mensajes ring2 (simularRingCompleto nodos_anillo_ejemplo 47) = 4%nat /\
  vivos [mkNodo 7 true false; mkNodo 42 false false] = [mkNodo 42 false false] /\
  map mensaje
    (simularRingCompleto [mkNodo 7 true false; mkNodo 42 false false] 42)
  = [ None; Some (mkMensaje 42 42 ring1 (Some [42])); None;
      None; Some (mkMensaje 42 42 ring2 None); None ].
Proof.
  assert (H : iniciador_vivo nodos_anillo_ejemplo 47).
  { exists (mkNodo 47 false false). simpl. intuition. }
  split; [exact H|].
  split; [exact (proj1 (proj1 ring_n_mensajes_por_fase _ _ H))|].
  split; [exact (proj2 (proj1 ring_n_mensajes_por_fase _ _ H))|].
  split; [reflexivity|].
  exact (proj2 ring_n_mensajes_por_fase
           [mkNodo 7 true false; mkNodo 42 false false]
           (mkNodo 42 false false) eq_refl).
Defined.

(** ** The playback controller of the election simulator *)

Lemma aplicar_conserva acc s :
  Estado.acciones (aplicar acc s) = Estado.acciones s /\
  Estado.memo_acciones (aplicar acc s) = Estado.memo_acciones s /\
  Estado.pasoIndex (aplicar acc s) = Estado.pasoIndex s /\
  Estado.isPlaying (aplicar acc s) = Estado.isPlaying s.
Proof.
  unfold aplicar.
  destruct (leaderId acc); destruct (highlightIds acc) as [[|h hs]|];
    repeat split; reflexivity.
Qed.

Lemma avanzarPaso_en_rango s acc :
  nth_error (Estado.memo_acciones s) (Estado.pasoIndex s) = Some acc ->
  avanzarPaso s = setPasoIndex (Estado.pasoIndex s + 1) (aplicar acc s).
Proof.
  intros H. unfold avanzarPaso. rewrite H.
  assert (Hlt : (Estado.pasoIndex s < List.length (Estado.memo_acciones s))%nat)
    by (apply nth_error_Some; congruence).
  destruct (Nat.leb_spec (List.length (Estado.memo_acciones s)) (Estado.pasoIndex s));
    [lia | reflexivity].
Qed.

Lemma avanzarPaso_al_final s :
  (List.length (Estado.memo_acciones s) <= Estado.pasoIndex s)%nat ->
  avanzarPaso s = setIsPlaying false s.
Proof.
  intros H. unfold avanzarPaso.
  destruct (Nat.leb_spec (List.length (Estado.memo_acciones s)) (Estado.pasoIndex s));
    [reflexivity | lia].
Qed.

(** Stepping [k] times from the cursor applies, in order and once each, the
    next [k] actions of the sequence the step function reads. *)
Lemma pasos_en_orden (k : nat) (s : Estado.t) :
  (Estado.pasoIndex s + k <= List.length (Estado.memo_acciones s))%nat ->
  let s' := Nat.iter k avanzarPaso s in
  s' = fold_left paso_con
         (firstn k (skipn (Estado.pasoIndex s) (Estado.memo_acciones s))) s /\
  Estado.pasoIndex s' = (Estado.pasoIndex s + k)%nat /\
  Estado.memo_acciones s' = Estado.memo_acciones s.
Proof.
  induction k as [|k IH]; intros Hk; cbv zeta in *; cbn [Nat.iter].
  - rewrite Nat.add_0_r. now split.
  - destruct IH as [IH1 [IH2 IH3]]; [lia|].
    set (sk := Nat.iter k avanzarPaso s) in *.
    destruct (nth_error (Estado.memo_acciones sk) (Estado.pasoIndex sk))
      as [acc|] eqn:E.
    2:{ apply nth_error_None in E. rewrite IH2, IH3 in E. lia. }
    rewrite !Nat.iter_succ. fold sk.
    rewrite (avanzarPaso_en_rango sk acc E).
    destruct (aplicar_conserva acc sk) as [_ [Hm [Hp _]]].
    split; [|split; [simpl; lia | simpl; rewrite Hm; exact IH3]].
    rewrite IH2, IH3 in E.
    assert (Hf : firstn (S k) (skipn (Estado.pasoIndex s) (Estado.memo_acciones s))
                 = firstn k (skipn (Estado.pasoIndex s) (Estado.memo_acciones s))
                     ++ [acc]).
    { remember (skipn (Estado.pasoIndex s) (Estado.memo_acciones s)) as l.
      assert (El : nth_error l k = Some acc).
      { subst l. rewrite nth_error_skipn. exact E. }
      clear -El. revert k El. induction l as [|x l IHl]; intros [|k] El;
        try discriminate; simpl in *.
      - now injection El as ->.
      - now rewrite (IHl k El). }
    rewrite Hf, fold_left_app. cbn [fold_left]. rewrite <- IH1. reflexivity.
Qed.

(** A pause followed by a play leaves the cursor, both sequences and the
    effects applied so far as they were. *)
Ltac campos :=
  cbn [Estado.acciones Estado.memo_acciones Estado.numNodos
       Estado.algoritmoActivo Estado.nodos Estado.leaderId
       Estado.recentLeaderId Estado.logs Estado.modoIniciador
       Estado.nodoIniciador Estado.pasoIndex Estado.isPlaying
       Estado.mensajeActual].

Lemma pausa_y_reanudacion s :
  Estado.acciones s <> [] ->
  manejar EvPlay (manejar EvPause s) = setIsPlaying true (render s).
Proof.
  destruct s as [nn al ns li rl lg mi ni ac pi ip ma me]. campos. intros H.
  assert (H0 : (List.length ac =? 0)%nat = false)
    by (destruct ac; [congruence | reflexivity]).
  unfold manejar, handlePause, handlePlay, render, setIsPlaying, setMemoAcciones.
  campos.
  destruct (List.length ac =? List.length me)%nat eqn:E;
    campos; rewrite ?H0; campos; rewrite ?E, ?Nat.eqb_refl; reflexivity.
Qed.

(** C5. The election simulator's step function is memoised on the length
    of the sequence alone.  In the session below a second sequence of the
    same length as the first is compiled; it ends with [leaderId = 55] and
    is stepped from cursor 0 to its end, yet the steps apply the actions of
    the first sequence: the leader shown is 81, a failed node, and the last
    trace line is the first sequence's. *)
Theorem pasos_con_secuencia_obsoleta :
  let s0 := ejecutar sesion_segunda_eleccion estado_lider_81 in
  let s := ejecutar sesion_cuatro_pasos s0 in
  Estado.acciones s = simularBully (Estado.nodos s0) 30 /\
  Estado.pasoIndex s0 = O /\
  Estado.pasoIndex s = List.length (Estado.acciones s) /\
  ultimo_leaderId (Estado.acciones s) = Some (Some 55) /\
  map leaderId (Estado.memo_acciones s)
  = [None; None; None; Some (Some 81)] /\
  Estado.leaderId s = Some 81 /\
  map (fun n => (id n, failed n)) (Estado.nodos s)
  = [(12, false); (55, false); (30, false); (81, true)] /\
  hd_error (rev (Estado.logs s))
  = Some "[t=16] El nodo con mayor ID activo es 81. Se convierte en el nuevo líder."%string.
Proof. vm_compute. repeat split; reflexivity. Qed.

(** ** What changes the leader *)

Lemma render_leaderId s : Estado.leaderId (render s) = Estado.leaderId s.
Proof. unfold render. now destruct (_ =? _)%nat. Qed.

Lemma render_pasoIndex s : Estado.pasoIndex (render s) = Estado.pasoIndex s.
Proof. unfold render. now destruct (_ =? _)%nat. Qed.

Lemma aplicar_leaderId acc s :
  Estado.leaderId (aplicar acc s)
  = match leaderId acc with
    | Some l => l
    | None => Estado.leaderId s
    end.
Proof.
  unfold aplicar.
  destruct (leaderId acc); destruct (highlightIds acc) as [[|h hs]|]; reflexivity.
Qed.

Lemma avanzarPaso_lider s :
  Estado.leaderId (avanzarPaso s) = Estado.leaderId s \/
  exists acc,
    nth_error (Estado.memo_acciones s) (Estado.pasoIndex s) = Some acc /\
    leaderId acc = Some (Estado.leaderId (avanzarPaso s)) /\
    Estado.pasoIndex (avanzarPaso s) = S (Estado.pasoIndex s).
Proof.
  destruct (nth_error (Estado.memo_acciones s) (Estado.pasoIndex s))
    as [acc|] eqn:E.
  - rewrite (avanzarPaso_en_rango s acc E).
    destruct (aplicar_conserva acc s) as [_ [_ [Hp _]]].
    destruct (leaderId acc) as [l|] eqn:El.
    + right. exists acc. split; [reflexivity|]. split.
      * cbn. rewrite aplicar_leaderId, El. reflexivity.
      * cbn. lia.
    + left. cbn. now rewrite aplicar_leaderId, El.
  - left. apply nth_error_None in E. now rewrite avanzarPaso_al_final.
Qed.

Lemma toggleFallarNodo_lider i s :
  Estado.leaderId (toggleFallarNodo i s) = Estado.leaderId s \/
  (Estado.leaderId s = Some i /\
   (forall n, find (fun n => id n =? i) (Estado.nodos s) = Some n ->
              failed n = false) /\
   Estado.leaderId (toggleFallarNodo i s) = None).
Proof.
  unfold toggleFallarNodo.
  destruct (Estado.leaderId s) as [l|] eqn:El; [|left; cbn; now rewrite El].
  destruct (l =? i) eqn:E; [|left; cbn; now rewrite El].
  apply Z.eqb_eq in E. subst l.
  destruct (find (fun n => id n =? i) (Estado.nodos s)) as [n|] eqn:Ef.
  - destruct (failed n) eqn:Hf; cbn.
    + left. now rewrite El.
    + right. repeat split. intros n' [= <-]. exact Hf.
  - cbn. right. repeat split. intros n' [=].
Qed.

Lemma lider_cambia_solo_por (e : Evento) (s : Estado.t) :
  Estado.leaderId (manejar e s) = Estado.leaderId s \/
  (exists i,
      e = EvClicNodo i /\ Estado.modoIniciador s = false /\
      Estado.leaderId s = Some i /\
      (forall n, find (fun n => id n =? i) (Estado.nodos s) = Some n ->
                 failed n = false) /\
      Estado.leaderId (manejar e s) = None) \/
  (reemplaza_nodos e /\ Estado.leaderId (manejar e s) = None) \/
  (es_paso e /\
   exists acc,
     nth_error (Estado.memo_acciones s) (Estado.pasoIndex s) = Some acc /\
     leaderId acc = Some (Estado.leaderId (manejar e s)) /\
     Estado.pasoIndex (manejar e s) = S (Estado.pasoIndex s)).
Proof.
  unfold manejar. rewrite render_leaderId, render_pasoIndex.
  destruct e as [n|a|ids| |i| | | | | | | | ].
  - left. now destruct ((0 <=? n) && (n <=? 99)).
  - now left.
  - unfold handleGenerarNodos.
    destruct ((Estado.numNodos s <? 3) || (Estado.numNodos s >? 15));
      [now left|].
    right. right. left. split; [left; now exists ids | reflexivity].
  - now left.
  - destruct (Estado.modoIniciador s) eqn:Em.
    + left. unfold seleccionarIniciador. rewrite Em. cbn [negb].
      destruct (find _ _) as [nodo|]; [destruct (failed nodo)|]; reflexivity.
    + destruct (toggleFallarNodo_lider i s) as [H|[H1 [H2 H3]]]; [now left|].
      right. left. exists i. repeat split; assumption.
  - left. unfold handleIniciarEleccion.
    destruct (Estado.nodoIniciador s) as [ni|]; [|reflexivity].
    destruct (ni =? 0); [reflexivity|].
    destruct (List.length (Estado.nodos s) =? 0)%nat; reflexivity.
  - right. right. left. split; [now right | reflexivity].
  - left. unfold handlePlay. now destruct (_ =? _)%nat.
  - now left.
  - unfold handlePaso. destruct (_ =? _)%nat; [now left|].
    destruct (avanzarPaso_lider s) as [H|H]; [now left|].
    right. right. right. split; [now left | exact H].
  - now left.
  - unfold temporizador. destruct (_ && _); [|now left].
    destruct (avanzarPaso_lider s) as [H|H]; [now left|].
    right. right. right. split; [now right | exact H].
  - now left.
Qed.

(** With no compiled sequence, Play and Paso of the election simulator
    only add one line to the trace. *)
Lemma play_y_paso_sin_secuencia_eleccion s :
  Estado.acciones s = [] ->
  handlePlay s = pushLog "Primero genera una elección con 'Iniciar elección'." s /\
  handlePaso s = pushLog "Primero genera una elección con 'Iniciar elección'." s.
Proof. intros H. unfold handlePlay, handlePaso. now rewrite H. Qed.

Lemma no_vivo_find nodos iniciadorId :
  ~ iniciador_vivo nodos iniciadorId ->
  find (fun n => id n =? iniciadorId) (vivos nodos) = None.
Proof.
  intros H. destruct (find _ _) as [x|] eqn:E; [|reflexivity].
  exfalso. apply H. apply find_some in E as [Hin Hid].
  apply filter_In in Hin as [Hin Hf]. exists x. repeat split; auto.
  - now destruct (failed x).
  - now apply Z.eqb_eq.
Qed.

End ElectionSpec.

(** ** Objects keyed by node id *)

Module RegistroSpec.

Lemma get_set_eq k v r : Registro.get k (Registro.set k v r) = Some v.
Proof.
  induction r as [|[k' v'] r IH]; simpl.
  - now rewrite Z.eqb_refl.
  - destruct (k <? k') eqn:E1; simpl.
    + now rewrite Z.eqb_refl.
    + destruct (k =? k') eqn:E2; simpl.
      * now rewrite Z.eqb_refl.
      * now rewrite E2.
Qed.

Lemma get_set_neq k k' v r :
  k <> k' -> Registro.get k' (Registro.set k v r) = Registro.get k' r.
Proof.
  intros Hne. induction r as [|[k0 v0] r IH]; simpl.
  - destruct (k' =? k) eqn:E; [apply Z.eqb_eq in E; congruence | reflexivity].
  - destruct (k <? k0) eqn:E1; simpl.
    + destruct (k' =? k) eqn:E; [apply Z.eqb_eq in E; congruence | reflexivity].
    + destruct (k =? k0) eqn:E2; simpl.
      * apply Z.eqb_eq in E2. subst k0.
        destruct (k' =? k) eqn:E; [apply Z.eqb_eq in E; congruence | reflexivity].
      * destruct (k' =? k0); [reflexivity | exact IH].
Qed.

Lemma fold_left_add_inicio (xs : list Z) (a : Z) :
  fold_left Z.add xs a = a + fold_left Z.add xs 0.
Proof.
  revert a; induction xs as [|x r IH]; intros a; simpl; [lia|].
  rewrite (IH (a + x)), (IH x). lia.
Qed.

Lemma set_nueva_clave k v r :
  Registro.get k r = None ->
  fold_left Z.add (Registro.values (Registro.set k v r)) 0
  = fold_left Z.add (Registro.values r) 0 + v /\
  List.length (Registro.set k v r) = S (List.length r).
Proof.
  unfold Registro.values.
  induction r as [|[k' v'] r IH]; simpl; intros H; [split; [lia | reflexivity]|].
  destruct (k =? k') eqn:E2; [discriminate|].
  destruct (k <? k') eqn:E1; simpl.
  - split; [|reflexivity].
    rewrite (fold_left_add_inicio _ (v + v')), (fold_left_add_inicio _ v'). lia.
  - destruct (IH H) as [IH1 IH2]. split; [|now rewrite IH2].
    rewrite (fold_left_add_inicio _ v'), IH1, (fold_left_add_inicio _ v'). lia.
Qed.

(** Filling an object from a list of items with distinct, new keys. *)
Section Llenar.

Context {A : Type}.
Variables (clave valor : A -> Z).

Lemma llenar_otras_claves (xs : list A) (r : Registro.t) (k : Z) :
  ~ In k (map clave xs) -> Registro.get k (Registro.llenar clave valor xs r) = Registro.get k r.
Proof.
  revert r; induction xs as [|x xs IH]; intros r Hk; [reflexivity|].
  simpl in *. unfold Registro.llenar in *. simpl. rewrite IH by tauto.
  apply get_set_neq. intros E. apply Hk. now left.
Qed.

Lemma llenar_claves_nuevas (xs : list A) (r : Registro.t) :
  NoDup (map clave xs) ->
  (forall x, In x xs -> Registro.get (clave x) r = None) ->
  fold_left Z.add (Registro.values (Registro.llenar clave valor xs r)) 0
  = fold_left Z.add (Registro.values r) 0 + fold_left Z.add (map valor xs) 0 /\
  List.length (Registro.llenar clave valor xs r) = (List.length r + List.length xs)%nat /\
  (forall x, In x xs -> Registro.get (clave x) (Registro.llenar clave valor xs r) = Some (valor x)).
Proof.
  revert r; induction xs as [|x xs IH]; intros r Hnd Hnew.
  - simpl. split; [|split]; [lia | lia | intros x []].
  - simpl in Hnd. apply NoDup_cons_iff in Hnd as [Hx Hnd].
    assert (Hget : Registro.get (clave x) r = None) by (apply Hnew; now left).
    destruct (set_nueva_clave (clave x) (valor x) r Hget) as [Hs Hl].
    destruct (IH (Registro.set (clave x) (valor x) r) Hnd) as [IH1 [IH2 IH3]].
    { intros y Hy. rewrite get_set_neq.
      - apply Hnew. now right.
      - intros E. apply Hx. rewrite E. now apply in_map. }
    unfold Registro.llenar in *. cbn [fold_left map].
    rewrite IH1, IH2, Hs, Hl. cbn [List.length].
    rewrite (fold_left_add_inicio (map valor xs) (0 + valor x)).
    repeat split; try lia.
    intros y [<- | Hy]; [|now apply IH3].
    fold (Registro.llenar clave valor xs (Registro.set (clave x) (valor x) r)).
    rewrite llenar_otras_claves by exact Hx. apply get_set_eq.
Qed.

End Llenar.

End RegistroSpec.

Module ClockSyncSpec.
Import ClockSync.

(** Turns a statement on rationals built from integers into one on [Z]. *)
Ltac q_a_z :=
  unfold Qeq, Qle, Qlt, Qminus, Qplus, Qopp, Qdiv, Qmult, Qinv, inject_Z;
  cbn [Qnum Qden Pos.mul]; rewrite ?Pos2Z.inj_mul; try lia.

(** ** Rounding *)

Lemma Math_round_mitad (a b : Z) :
  JS.Math_round (inject_Z a - inject_Z b / 2)%Q = (2 * a - b + 1) / 2.
Proof.
  unfold JS.Math_round.
  assert (E : (inject_Z a - inject_Z b / 2 + (1 # 2) == (2 * a - b + 1) # 2)%Q)
    by q_a_z.
  rewrite (Qfloor_comp _ _ E). reflexivity.
Qed.

Lemma Math_round_cociente (s : Z) (p : positive) :
  JS.Math_round (inject_Z s / inject_Z (Zpos p))%Q
  = (2 * s + Zpos p) / (2 * Zpos p).
Proof.
  unfold JS.Math_round.
  assert (E : (inject_Z s / inject_Z (Zpos p) + (1 # 2)
               == (2 * s + Zpos p) # (2 * p))%Q) by q_a_z.
  rewrite (Qfloor_comp _ _ E). reflexivity.
Qed.

(** ** Cristian *)

Section Cristian.

Variable toLocaleTimeString : Z -> string.
Variable azar : nat -> JS.double.
Variables latenciaMax baseReal : Z.

Lemma cristian_theta_entero (dIda dVuelta T0 : Z) :
  cristian_theta baseReal dIda dVuelta T0
  = baseReal - T0 + (dIda - dVuelta + 1) / 2.
Proof.
  unfold cristian_theta. cbv zeta.
  assert (E : (inject_Z (baseReal + dIda)
               - (inject_Z T0 + inject_Z (dIda + dVuelta) / 2)
               == inject_Z (baseReal + dIda - T0)
                  - inject_Z (dIda + dVuelta) / 2)%Q) by q_a_z.
  unfold JS.Math_round.
  assert (E' : (inject_Z (baseReal + dIda)
                - (inject_Z T0 + inject_Z (dIda + dVuelta) / 2) + (1 # 2)
                == inject_Z (baseReal + dIda - T0)
                   - inject_Z (dIda + dVuelta) / 2 + (1 # 2))%Q)
    by (rewrite E; reflexivity).
  rewrite (Qfloor_comp _ _ E').
  fold (JS.Math_round
          (inject_Z (baseReal + dIda - T0) - inject_Z (dIda + dVuelta) / 2)%Q).
  rewrite Math_round_mitad.
  replace (2 * (baseReal + dIda - T0) - (dIda + dVuelta) + 1)
    with ((dIda - dVuelta + 1) + (baseReal - T0) * 2) by lia.
  rewrite Z.div_add by lia. lia.
Qed.

Lemma cristian_bucle_ajuste (vs : list ClockNode) :
  forall (k j : nat) (nodo : ClockNode),
    nth_error vs k = Some nodo ->
    nth_error (cristian_bucle toLocaleTimeString azar latenciaMax baseReal j vs)
              (3 * k + 2)
    = nth_error
        (cristian_nodo toLocaleTimeString azar latenciaMax baseReal
                       (j + 2 * k) nodo) 2.
Proof.
  induction vs as [|v r IH]; intros k j nodo H.
  - destruct k; discriminate.
  - destruct k as [|k].
    + injection H as ->. rewrite Nat.mul_0_r, Nat.add_0_r. reflexivity.
    + simpl in H. cbn [cristian_bucle].
      rewrite nth_error_app2 by (simpl; lia).
      replace (3 * S k + 2 - List.length
                 (cristian_nodo toLocaleTimeString azar latenciaMax baseReal j v))%nat
        with (3 * k + 2)%nat by (simpl; lia).
      rewrite (IH k (S (S j)) nodo H). f_equal. f_equal. lia.
Qed.

End Cristian.

(** C3. In a Cristian run, let [d1] and [d2] be the outbound and inbound
    delays sampled for the [k]-th alive node and [trueTime] the reference
    node's [horaLocal - offsetInicial], the reference node being the first
    alive node.  The node's adjustment action (the third of its three
    actions) records under the node's id the offset
    [round(trueTime + d1 - (clientSendTime + (d1 + d2) / 2))], where
    [clientSendTime = horaLocal + offsetActual], and the round-trip time
    [d1 + d2].  The offset is the integer
    [trueTime - clientSendTime + floor((d1 - d2 + 1) / 2)]. *)
Theorem cristian_offset_exacto
  (toLocaleTimeString : Z -> string) (azar : nat -> JS.double)
  (nodos : list ClockNode) (latenciaMax : Z)
  (k : nat) (nodo referencia : ClockNode) (d1 d2 : Z) :
  nth_error (vivos nodos) O = Some referencia ->
  nth_error (vivos nodos) k = Some nodo ->
  latencia (azar (2 * k)%nat) latenciaMax = d1 ->
  latencia (azar (2 * k + 1)%nat) latenciaMax = d2 ->
  let trueTime := horaLocal referencia - offsetInicial referencia in
  let clientSendTime := horaLocal nodo + offsetActual nodo in
  let theta :=
    JS.Math_round
      (inject_Z (trueTime + d1)
       - (inject_Z clientSendTime + inject_Z (d1 + d2) / 2))%Q in
  (exists texto,
      nth_error (simularCristian toLocaleTimeString azar nodos latenciaMax)
                (3 * k + 3)
      = Some (mkAccion texto (Some [id nodo]) None
                       (Some [(id nodo, theta)])
                       (Some [(id nodo, d1 + d2)]))) /\
  theta = trueTime - clientSendTime + (d1 - d2 + 1) / 2.
Proof.
  intros Href Hk Hd1 Hd2 trueTime clientSendTime theta.
  assert (Etheta : theta = cristian_theta trueTime d1 d2 clientSendTime)
    by reflexivity.
  split; [|rewrite Etheta; apply cristian_theta_entero].
  unfold simularCristian.
  destruct (vivos nodos) as [|servidor resto] eqn:Ev; [discriminate|].
  injection Href as ->.
  replace (3 * k + 3)%nat with (S (3 * k + 2)) by lia.
  cbn [app nth_error].
  rewrite nth_error_app1.
  2:{ apply nth_error_Some.
      rewrite (cristian_bucle_ajuste _ _ _ _ _ k O nodo Hk). discriminate. }
  rewrite (cristian_bucle_ajuste _ _ _ _ _ k O nodo Hk).
  cbn [Nat.add]. unfold cristian_nodo. cbn [nth_error].
  replace (S (2 * k)) with (2 * k + 1)%nat by lia.
  rewrite Hd1, Hd2. fold trueTime clientSendTime.
  eexists. reflexivity.
Qed.

Lemma cristian_offset_exacto_witness :
  latencia (azar_medio 4%nat) 200 = 100 /\
  latencia (azar_medio 5%nat) 200 = 100 /\
  exists texto,
    nth_error (simularCristian hora_decimal azar_medio relojes_ejemplo 200) 9
    = Some (mkAccion texto (Some [2]) None
                     (Some [(2, 1159)]) (Some [(2, 200)])).
Proof.
  split; [reflexivity|]. split; [reflexivity|].
  exact (proj1
           (cristian_offset_exacto hora_decimal azar_medio relojes_ejemplo 200
              2 (mkNodo 2 998801 (-1199) 40 false false (Some client) None)
              (mkNodo 0 1000000 0 0 false false (Some server) None)
              100 100 eq_refl eq_refl eq_refl eq_refl)).
Defined.

(** ** Berkeley *)

Section Berkeley.

Variable toLocaleTimeString : Z -> string.
Variable azar : nat -> JS.double.
Variable latenciaMax : Z.
Variable coord : ClockNode.

Let poll_paso := berkeley_poll_paso toLocaleTimeString azar latenciaMax coord.

Lemma poll_horas (vs : list ClockNode) acciones h k :
  snd (fst (fold_left poll_paso vs (acciones, h, k)))
  = fold_left
      (fun h n => if id n =? id coord then h
                  else Registro.set (id n) (hora n) h) vs h.
Proof.
  revert acciones h k; induction vs as [|v r IH]; intros acciones h k;
    [reflexivity|].
  cbn [fold_left]. unfold poll_paso at 2, berkeley_poll_paso.
  destruct (id v =? id coord); [apply IH|]. fold poll_paso. now rewrite IH.
Qed.

Lemma poll_horas_sin_coord (vs : list ClockNode) h :
  (forall n, In n vs -> id n <> id coord) ->
  fold_left
    (fun h n => if id n =? id coord then h
                else Registro.set (id n) (hora n) h) vs h
  = Registro.llenar id hora vs h.
Proof.
  revert h; induction vs as [|v r IH]; intros h Hne; [reflexivity|].
  unfold Registro.llenar in *. cbn [fold_left].
  destruct (id v =? id coord) eqn:E.
  - apply Z.eqb_eq in E. exfalso. apply (Hne v); [now left | exact E].
  - apply IH. intros n Hn. apply Hne. now right.
Qed.

Lemma poll_acciones (vs : list ClockNode) acciones h k :
  exists extra, fst (fst (fold_left poll_paso vs (acciones, h, k)))
                = acciones ++ extra.
Proof.
  revert acciones h k; induction vs as [|v r IH]; intros acciones h k.
  - exists []. simpl. now rewrite app_nil_r.
  - cbn [fold_left]. unfold poll_paso at 2, berkeley_poll_paso.
    destruct (id v =? id coord); [apply IH|]. fold poll_paso.
    match goal with
    | |- context [fold_left _ r (acciones ++ ?l, ?h', ?k')] =>
        destruct (IH (acciones ++ l) h' k') as [extra E]; exists (l ++ extra)
    end.
    now rewrite E, <- app_assoc.
Qed.

Lemma offset_bucle (promedio : Z) (vs : list ClockNode) acciones offsets :
  exists extra,
    fold_left (berkeley_offset_paso coord promedio) vs (acciones, offsets)
    = (acciones ++ extra,
       Registro.llenar id (fun n => promedio - hora n) vs offsets).
Proof.
  revert acciones offsets; induction vs as [|v r IH]; intros acciones offsets.
  - exists []. simpl. now rewrite app_nil_r.
  - cbn [fold_left]. unfold berkeley_offset_paso at 2.
    match goal with
    | |- context [fold_left _ r (acciones ++ ?l, ?o')] =>
        destruct (IH (acciones ++ l) o') as [extra E]; exists (l ++ extra)
    end.
    rewrite E, <- app_assoc. reflexivity.
Qed.

End Berkeley.

Lemma berkeley_estructura toLocaleTimeString azar nodos latenciaMax coord resto :
  vivos nodos = coord :: resto ->
  let h := berkeley_horasReportadas toLocaleTimeString azar nodos latenciaMax in
  let p := berkeley_promedio h in
  exists previas extra,
    simularBerkeley toLocaleTimeString azar nodos latenciaMax
    = previas ++ [berkeley_accion_promedio toLocaleTimeString coord p h]
        ++ extra
        ++ [berkeley_accion_final (vivos nodos)
              (Registro.llenar id (fun n => p - hora n) (vivos nodos)
                                   Registro.vacio)].
Proof.
  intros Hv h p. unfold simularBerkeley. subst p h.
  unfold berkeley_horasReportadas. rewrite Hv. rewrite <- Hv.
  set (inicio := mkAccion _ (Some [id coord]) None None None).
  destruct (fold_left (berkeley_poll_paso toLocaleTimeString azar latenciaMax coord)
              (vivos nodos) ([inicio], Registro.vacio, O))
    as [[acciones h0] k0] eqn:E.
  cbn [fst snd].
  set (h := Registro.set (id coord) (horaLocal coord + offsetActual coord) h0).
  set (p := berkeley_promedio h).
  match goal with
  | |- context [fold_left _ _ (?a, Registro.vacio)] =>
      destruct (offset_bucle coord p (vivos nodos) a Registro.vacio)
        as [extra Eo]; rewrite Eo
  end.
  exists (acciones ++ [mkAccion
            ("📊 Coordinador " ++ JS.str (id coord) ++ " recopila "
               ++ JS.str (Z.of_nat (List.length (Registro.keys h)))
               ++ " horas de los nodos")
            (Some [id coord]) None None None]), extra.
  rewrite <- !app_assoc. reflexivity.
Qed.

Lemma suma_ajustes (p : Z) (vs : list ClockNode) :
  suma (map (fun n => p - hora n) vs)
  = Z.of_nat (List.length vs) * p - suma (map hora vs).
Proof.
  unfold suma. induction vs as [|v r IH]; [reflexivity|].
  cbn [map fold_left List.length].
  rewrite (RegistroSpec.fold_left_add_inicio _ (0 + (p - hora v))),
          (RegistroSpec.fold_left_add_inicio _ (0 + hora v)), IH. lia.
Qed.

Lemma berkeley_horas_todas toLocaleTimeString azar nodos latenciaMax :
  NoDup (map id (vivos nodos)) ->
  let h := berkeley_horasReportadas toLocaleTimeString azar nodos latenciaMax in
  suma (Registro.values h) = suma (map hora (vivos nodos)) /\
  List.length (Registro.keys h) = List.length (vivos nodos).
Proof.
  intros Hnd h. subst h. unfold berkeley_horasReportadas.
  destruct (vivos nodos) as [|coord resto] eqn:Hv; [split; reflexivity|].
  rewrite poll_horas. cbn [fold_left]. rewrite Z.eqb_refl.
  cbn [map] in Hnd. apply NoDup_cons_iff in Hnd as [Hc Hnd].
  rewrite poll_horas_sin_coord.
  2:{ intros n Hn E. apply Hc. rewrite <- E. now apply in_map. }
  destruct (RegistroSpec.llenar_claves_nuevas id hora resto Registro.vacio Hnd)
    as [Hs [Hl _]]; [reflexivity|].
  destruct (RegistroSpec.set_nueva_clave (id coord) (hora coord)
              (Registro.llenar id hora resto Registro.vacio)) as [Hs' Hl'].
  { now rewrite RegistroSpec.llenar_otras_claves. }
  unfold suma, Registro.keys. rewrite length_map.
  fold (hora coord). rewrite Hs', Hl', Hs, Hl. cbn [map fold_left List.length].
  split; [|reflexivity].
  rewrite (RegistroSpec.fold_left_add_inicio _ (0 + hora coord)).
  unfold Registro.values, Registro.vacio. simpl. lia.
Qed.

Lemma redondeo_acotado (s : Z) (p : positive) :
  let m := JS.Math_round (inject_Z s / inject_Z (Zpos p))%Q in
  2 * Z.abs (Zpos p * m - s) <= Zpos p.
Proof.
  intros m. subst m. rewrite Math_round_cociente.
  pose proof (Z.mul_div_le (2 * s + Zpos p) (2 * Zpos p) ltac:(lia)) as H1.
  pose proof (Z.mul_succ_div_gt (2 * s + Zpos p) (2 * Zpos p) ltac:(lia)) as H2.
  set (q := (2 * s + Zpos p) / (2 * Zpos p)) in *. nia.
Qed.

(** C4. In a Berkeley run over alive nodes with pairwise distinct ids (the
    invariant of a generated node set), the average is
    [round(sum of the current times of all alive nodes / their number)],
    the coordinator's time included, and the action reporting it, whose
    text gives the average and the number of alive nodes, is emitted; the
    closing action, the last of the run, highlights the alive nodes and
    carries as [ajustes] the object that holds, for each alive node, the
    adjustment [average - current time of the node]; the adjustments add up
    to at most half a unit per node in absolute value, hence to at most one
    unit per node. *)
Theorem berkeley_promedio_y_ajustes
  (toLocaleTimeString : Z -> string) (azar : nat -> JS.double)
  (nodos : list ClockNode) (latenciaMax : Z) (coord : ClockNode) :
  hd_error (vivos nodos) = Some coord ->
  NoDup (map id (vivos nodos)) ->
  let n := Z.of_nat (List.length (vivos nodos)) in
  let h := berkeley_horasReportadas toLocaleTimeString azar nodos latenciaMax in
  let promedio :=
    JS.Math_round (inject_Z (suma (map hora (vivos nodos))) / inject_Z n)%Q in
  let offsets :=
    Registro.llenar id (fun nodo => promedio - hora nodo) (vivos nodos)
                    Registro.vacio in
  berkeley_promedio h = promedio /\
  In (mkAccion
        ("🧮 Promedio calculado: " ++ toLocaleTimeString promedio ++ " | "
           ++ JS.str n ++ " nodos")
        (Some [id coord]) None None None)
     (simularBerkeley toLocaleTimeString azar nodos latenciaMax) /\
  (exists previas,
      simularBerkeley toLocaleTimeString azar nodos latenciaMax
      = previas
          ++ [ mkAccion "✅ Nodos aplican ajustes según Berkeley"
                 (Some (map id (vivos nodos))) None (Some offsets) None ]) /\
  (forall nodo, In nodo (vivos nodos) ->
                Registro.get (id nodo) offsets = Some (promedio - hora nodo)) /\
  List.length (Registro.keys offsets) = List.length (vivos nodos) /\
  2 * Z.abs (suma (Registro.values offsets)) <= n /\
  Z.abs (suma (Registro.values offsets)) <= n.
Proof.
  intros Hhd Hnd n h promedio offsets.
  assert (Hv : exists resto, vivos nodos = coord :: resto).
  { destruct (vivos nodos) as [|c resto]; [discriminate|].
    injection Hhd as ->. now exists resto. }
  destruct Hv as [resto Hv].
  destruct (berkeley_horas_todas toLocaleTimeString azar nodos latenciaMax Hnd)
    as [Hs Hl]. fold h in Hs, Hl.
  assert (Hp : berkeley_promedio h = promedio).
  { unfold berkeley_promedio, berkeley_suma, promedio, n.
    fold (suma (Registro.values h)). now rewrite Hs, Hl. }
  destruct (berkeley_estructura toLocaleTimeString azar nodos latenciaMax
              coord resto Hv) as [previas [extra E]].
  fold h in E. rewrite Hp in E. fold offsets in E.
  assert (Hacc : berkeley_accion_promedio toLocaleTimeString coord promedio h
                 = mkAccion
                     ("🧮 Promedio calculado: " ++ toLocaleTimeString promedio
                        ++ " | " ++ JS.str n ++ " nodos")
                     (Some [id coord]) None None None).
  { unfold berkeley_accion_promedio, n. now rewrite Hl. }
  rewrite Hacc in E.
  split; [exact Hp|]. split.
  { rewrite E. apply in_or_app. right. now left. }
  destruct (RegistroSpec.llenar_claves_nuevas id (fun n => promedio - hora n)
              (vivos nodos) Registro.vacio Hnd) as [Os [Ol Og]]; [reflexivity|].
  fold offsets in Os, Ol, Og.
  split.
  { eexists. rewrite E, !app_assoc. reflexivity. }
  split; [exact Og|].
  split; [unfold Registro.keys; rewrite length_map; exact Ol|].
  assert (Hsum : suma (Registro.values offsets)
                 = n * promedio - suma (map hora (vivos nodos))).
  { unfold suma at 1. rewrite Os. fold (suma (map (fun n => promedio - hora n)
                                                 (vivos nodos))).
    rewrite suma_ajustes. unfold Registro.values, Registro.vacio. simpl. lia. }
  assert (Hn : exists p, n = Zpos p).
  { unfold n. rewrite Hv. cbn [List.length]. rewrite Nat2Z.inj_succ.
    destruct (Z.succ (Z.of_nat (List.length resto))) eqn:En; try lia.
    now eexists. }
  destruct Hn as [p Hn].
  assert (Hb : 2 * Z.abs (suma (Registro.values offsets)) <= n).
  { rewrite Hsum. unfold promedio. rewrite Hn. apply redondeo_acotado. }
  split; [exact Hb | lia].
Qed.

Lemma berkeley_promedio_y_ajustes_witness :
  NoDup (map id (vivos relojes_ejemplo)) /\
  berkeley_promedio
    (berkeley_horasReportadas hora_decimal azar_medio relojes_ejemplo 200)
  = 1000447 /\
  In (mkAccion "🧮 Promedio calculado: 1000447 | 3 nodos"
               (Some [0]) None None None)
     (simularBerkeley hora_decimal azar_medio relojes_ejemplo 200) /\
  exists previas,
    simularBerkeley hora_decimal azar_medio relojes_ejemplo 200
    = previas
        ++ [ mkAccion "✅ Nodos aplican ajustes según Berkeley"
               (Some [0; 1; 2]) None
               (Some [(0, 447); (1, -2053); (2, 1606)]) None ].
Proof.
  assert (Hnd : NoDup (map id (vivos relojes_ejemplo))).
  { simpl. repeat (constructor; [simpl; lia|]). constructor. }
  split; [exact Hnd|].
  pose proof (berkeley_promedio_y_ajustes hora_decimal azar_medio
                relojes_ejemplo 200
                (mkNodo 0 1000000 0 0 false false (Some server) None)
                eq_refl Hnd) as [H1 [H2 [H3 _]]].
  split; [exact H1|]. split; [exact H2 | exact H3].
Defined.

(** ** The sampled delays do not reach the numeric results *)

Section DosFuentes.

Variable toLocaleTimeString : Z -> string.
Variables azar1 azar2 : nat -> JS.double.
Variable latenciaMax : Z.
Variable coord : ClockNode.

Lemma poll_dos_fuentes (vs : list ClockNode) acciones1 acciones2 h k1 k2 :
  map sin_texto_poll acciones1 = map sin_texto_poll acciones2 ->
  map sin_texto_poll
    (fst (fst (fold_left
                 (berkeley_poll_paso toLocaleTimeString azar1 latenciaMax coord)
                 vs (acciones1, h, k1))))
  = map sin_texto_poll
      (fst (fst (fold_left
                   (berkeley_poll_paso toLocaleTimeString azar2 latenciaMax coord)
                   vs (acciones2, h, k2)))) /\
  snd (fst (fold_left
              (berkeley_poll_paso toLocaleTimeString azar1 latenciaMax coord)
              vs (acciones1, h, k1)))
  = snd (fst (fold_left
                (berkeley_poll_paso toLocaleTimeString azar2 latenciaMax coord)
                vs (acciones2, h, k2))).
Proof.
  revert acciones1 acciones2 h k1 k2.
  induction vs as [|v r IH]; intros acciones1 acciones2 h k1 k2 Hacc;
    [now split|].
  cbn [fold_left berkeley_poll_paso].
  destruct (id v =? id coord); [now apply IH|].
  apply IH. rewrite !map_app, Hacc. reflexivity.
Qed.

Lemma offset_mismos_textos (promedio : Z) (vs : list ClockNode)
  acciones1 acciones2 offsets :
  map sin_texto_poll acciones1 = map sin_texto_poll acciones2 ->
  map sin_texto_poll
    (fst (fold_left (berkeley_offset_paso coord promedio) vs (acciones1, offsets)))
  = map sin_texto_poll
      (fst (fold_left (berkeley_offset_paso coord promedio) vs (acciones2, offsets))) /\
  snd (fold_left (berkeley_offset_paso coord promedio) vs (acciones1, offsets))
  = snd (fold_left (berkeley_offset_paso coord promedio) vs (acciones2, offsets)).
Proof.
  revert acciones1 acciones2 offsets.
  induction vs as [|v r IH]; intros acciones1 acciones2 offsets Hacc;
    [now split|].
  cbn [fold_left berkeley_offset_paso].
  apply IH. rewrite !map_app, Hacc. reflexivity.
Qed.

End DosFuentes.

(** C10. Two Berkeley runs on the same nodes and the same latency bound
    that differ only in the values drawn from the random source gather the
    same reported times, compute the same average, and emit the same
    actions up to the text of the POLL actions (where the delays are
    printed): all highlights, messages and adjustment maps coincide, the
    closing action's adjustments in particular. *)
Theorem berkeley_latencias_solo_en_texto
  (toLocaleTimeString : Z -> string) (azar1 azar2 : nat -> JS.double)
  (nodos : list ClockNode) (latenciaMax : Z) :
  let run1 := simularBerkeley toLocaleTimeString azar1 nodos latenciaMax in
  let run2 := simularBerkeley toLocaleTimeString azar2 nodos latenciaMax in
  let h1 := berkeley_horasReportadas toLocaleTimeString azar1 nodos latenciaMax in
  let h2 := berkeley_horasReportadas toLocaleTimeString azar2 nodos latenciaMax in
  h1 = h2 /\
  berkeley_promedio h1 = berkeley_promedio h2 /\
  map sin_texto_poll run1 = map sin_texto_poll run2 /\
  map ajustes run1 = map ajustes run2 /\
  option_map ajustes (hd_error (rev run1)) = option_map ajustes (hd_error (rev run2)).
Proof.
  intros run1 run2 h1 h2.
  assert (Hh : h1 = h2).
  { unfold h1, h2, berkeley_horasReportadas.
    destruct (vivos nodos) as [|coord resto]; [reflexivity|].
    f_equal. now rewrite !poll_horas. }
  assert (Hrun : map sin_texto_poll run1 = map sin_texto_poll run2).
  { unfold run1, run2, simularBerkeley.
    destruct (vivos nodos) as [|coord resto] eqn:Hv; [reflexivity|].
    rewrite <- Hv.
    set (inicio := mkAccion _ (Some [id coord]) None None None).
    destruct (poll_dos_fuentes toLocaleTimeString azar1 azar2 latenciaMax coord
                (vivos nodos) [inicio] [inicio] Registro.vacio O O eq_refl)
      as [Ha Hh0].
    destruct (fold_left (berkeley_poll_paso toLocaleTimeString azar1 latenciaMax coord)
                (vivos nodos) ([inicio], Registro.vacio, O))
      as [[acciones1 h01] k01].
    destruct (fold_left (berkeley_poll_paso toLocaleTimeString azar2 latenciaMax coord)
                (vivos nodos) ([inicio], Registro.vacio, O))
      as [[acciones2 h02] k02].
    cbn [fst snd] in Ha, Hh0. subst h02.
    set (h := Registro.set (id coord) (horaLocal coord + offsetActual coord) h01).
    set (p := berkeley_promedio h).
    match goal with
    | |- context [fold_left _ _ ((acciones1 ++ ?a) ++ ?b, Registro.vacio)] =>
        destruct (offset_mismos_textos coord p (vivos nodos)
                    ((acciones1 ++ a) ++ b) ((acciones2 ++ a) ++ b)
                    Registro.vacio) as [Hb Ho];
          [rewrite !map_app, Ha; reflexivity|];
        destruct (fold_left (berkeley_offset_paso coord p) (vivos nodos)
                    ((acciones1 ++ a) ++ b, Registro.vacio)) as [accs1 o1];
        destruct (fold_left (berkeley_offset_paso coord p) (vivos nodos)
                    ((acciones2 ++ a) ++ b, Registro.vacio)) as [accs2 o2]
    end.
    cbn [fst snd] in Hb, Ho. subst o2.
    rewrite !map_app, Hb. reflexivity. }
  assert (Haj : map ajustes run1 = map ajustes run2).
  { assert (E : forall l, map ajustes l = map ajustes (map sin_texto_poll l)).
    { intros l. rewrite map_map. apply map_ext. intros a.
      unfold sin_texto_poll. destruct (mensaje a) as [m|]; [|reflexivity].
      now destruct (tipo m). }
    now rewrite (E run1), (E run2), Hrun. }
  split; [exact Hh|]. split; [now rewrite Hh|]. split; [exact Hrun|].
  split; [exact Haj|].
  assert (E : forall l, option_map ajustes (hd_error (rev l))
                        = hd_error (rev (map ajustes l))).
  { intros l. rewrite <- map_rev. now destruct (rev l). }
  now rewrite !E, Haj.
Qed.

(** ** The playback controller of the clock simulator *)

Ltac campos :=
  cbn [Estado.acciones Estado.numNodos Estado.algoritmoActivo
       Estado.latenciaMax Estado.nodos Estado.logs Estado.pasoIndex
       Estado.isPlaying Estado.mensajeActual].

Lemma log_ajustes_conserva texto ns aj s :
  Estado.acciones (log_ajustes texto ns aj s) = Estado.acciones s /\
  Estado.pasoIndex (log_ajustes texto ns aj s) = Estado.pasoIndex s /\
  Estado.isPlaying (log_ajustes texto ns aj s) = Estado.isPlaying s /\
  Estado.nodos (log_ajustes texto ns aj s) = Estado.nodos s.
Proof.
  unfold log_ajustes, Registro.entries.
  revert s; induction aj as [|[k v] aj IH]; intros s; [now repeat split|].
  cbn [fold_left]. destruct (find (fun n => id n =? k) ns).
  - destruct (IH (pushLog
                    (texto ++ " | Nodo " ++ JS.str k ++ ": offset "
                       ++ JS.str (offsetActual c) ++ "ms → " ++ JS.str v
                       ++ "ms ("
                       ++ (if v - offsetActual c >? 0
                           then "+" ++ JS.str (v - offsetActual c)
                           else JS.str (v - offsetActual c)) ++ "ms)") s))
      as (H1 & H2 & H3 & H4).
    rewrite H1, H2, H3, H4. now repeat split.
  - apply IH.
Qed.

Lemma aplicar_conserva_reloj acc s :
  Estado.acciones (aplicar acc s) = Estado.acciones s /\
  Estado.pasoIndex (aplicar acc s) = Estado.pasoIndex s /\
  Estado.isPlaying (aplicar acc s) = Estado.isPlaying s.
Proof.
  unfold aplicar.
  destruct (ajustes acc) as [aj|].
  - destruct (log_ajustes_conserva (descripcion acc) (Estado.nodos s) aj s)
      as (H1 & H2 & H3 & _).
    destruct (highlightIds acc), (rttValues acc); campos; unfold setNodos;
      campos; now rewrite H1, H2, H3.
  - destruct (highlightIds acc), (rttValues acc); now repeat split.
Qed.

Lemma avanzarPaso_en_rango_reloj s acc :
  nth_error (Estado.acciones s) (Estado.pasoIndex s) = Some acc ->
  avanzarPaso s = setPasoIndex (Estado.pasoIndex s + 1) (aplicar acc s).
Proof.
  intros H. unfold avanzarPaso. rewrite H.
  assert (Hlt : (Estado.pasoIndex s < List.length (Estado.acciones s))%nat)
    by (apply nth_error_Some; congruence).
  destruct (Nat.leb_spec (List.length (Estado.acciones s)) (Estado.pasoIndex s));
    [lia | reflexivity].
Qed.

Lemma avanzarPaso_al_final_reloj s :
  (List.length (Estado.acciones s) <= Estado.pasoIndex s)%nat ->
  avanzarPaso s = setIsPlaying false s.
Proof.
  intros H. unfold avanzarPaso.
  destruct (Nat.leb_spec (List.length (Estado.acciones s)) (Estado.pasoIndex s));
    [reflexivity | lia].
Qed.

(** In the clock simulator, stepping [k] times from the cursor applies, in
    order and once each, the next [k] actions of the compiled sequence. *)
Lemma pasos_en_orden_reloj (k : nat) (s : Estado.t) :
  (Estado.pasoIndex s + k <= List.length (Estado.acciones s))%nat ->
  Nat.iter k avanzarPaso s
  = fold_left paso_con
      (firstn k (skipn (Estado.pasoIndex s) (Estado.acciones s))) s /\
  Estado.pasoIndex (Nat.iter k avanzarPaso s) = (Estado.pasoIndex s + k)%nat /\
  Estado.acciones (Nat.iter k avanzarPaso s) = Estado.acciones s.
Proof.
  induction k as [|k IH]; intros Hk.
  - cbn [Nat.iter nat_rect]. rewrite Nat.add_0_r. now split.
  - destruct IH as [IH1 [IH2 IH3]]; [lia|].
    rewrite !Nat.iter_succ.
    set (sk := Nat.iter k avanzarPaso s) in *.
    destruct (nth_error (Estado.acciones sk) (Estado.pasoIndex sk))
      as [acc|] eqn:E.
    2:{ apply nth_error_None in E. rewrite IH2, IH3 in E. lia. }
    rewrite (avanzarPaso_en_rango_reloj sk acc E).
    destruct (aplicar_conserva_reloj acc sk) as [Hm [Hp _]].
    split; [|split; [simpl; lia | simpl; rewrite Hm; exact IH3]].
    rewrite IH2, IH3 in E.
    assert (Hf : firstn (S k) (skipn (Estado.pasoIndex s) (Estado.acciones s))
                 = firstn k (skipn (Estado.pasoIndex s) (Estado.acciones s))
                     ++ [acc]).
    { remember (skipn (Estado.pasoIndex s) (Estado.acciones s)) as l.
      assert (El : nth_error l k = Some acc).
      { subst l. rewrite nth_error_skipn. exact E. }
      clear -El. revert k El. induction l as [|x l IHl]; intros [|k] El;
        try discriminate; simpl in *.
      - now injection El as ->.
      - now rewrite (IHl k El). }
    rewrite Hf, fold_left_app. cbn [fold_left]. rewrite <- IH1. reflexivity.
Qed.

(** ** What changes an offset *)

Lemma offsets_solo_cambian_por toLocaleTimeString (e : Evento) (s : Estado.t) :
  map offsetActual (Estado.nodos (manejar toLocaleTimeString e s))
  = map offsetActual (Estado.nodos s) \/
  (exists now azar, e = EvGenerarRelojes now azar) \/
  (es_paso e /\
   exists acc,
     nth_error (Estado.acciones s) (Estado.pasoIndex s) = Some acc /\
     manejar toLocaleTimeString e s
     = setPasoIndex (Estado.pasoIndex s + 1) (aplicar acc s)).
Proof.
  assert (Hpaso : map offsetActual (Estado.nodos (avanzarPaso s))
                  = map offsetActual (Estado.nodos s) \/
                  exists acc,
                    nth_error (Estado.acciones s) (Estado.pasoIndex s) = Some acc /\
                    avanzarPaso s
                    = setPasoIndex (Estado.pasoIndex s + 1) (aplicar acc s)).
  { destruct (nth_error (Estado.acciones s) (Estado.pasoIndex s)) as [acc|] eqn:E.
    - right. exists acc. split; [reflexivity | now apply avanzarPaso_en_rango_reloj].
    - left. apply nth_error_None in E. now rewrite avanzarPaso_al_final_reloj. }
  destruct e as [n|n|a|now azar|azar| | | | | | ]; cbn [manejar].
  - left. now destruct ((0 <=? n) && (n <=? 99)).
  - left. now destruct ((0 <=? n) && (n <=? 9999)).
  - now left.
  - right. left. now exists now, azar.
  - left. unfold handleSincronizar.
    destruct (List.length (Estado.nodos s) =? 0)%nat; [reflexivity|].
    destruct (Estado.algoritmoActivo s); cbn; rewrite map_map; reflexivity.
  - now left.
  - now left.
  - destruct Hpaso as [H|H]; [now left|].
    right. right. split; [now left | exact H].
  - now left.
  - unfold temporizador. destruct (_ && _); [|now left].
    destruct Hpaso as [H|H]; [now left|].
    right. right. split; [now right | exact H].
  - left. cbn. rewrite map_map. reflexivity.
Qed.

End ClockSyncSpec.

(** * Properties of both simulators *)

(** C7. When a compiler's precondition fails the sequence is one action
    made of a text only: Bully and Ring when the initiator is not an alive
    node, Ring, Cristian and Berkeley when no node is alive.  The action
    has no message, no leader and no highlights (election), no message and
    no adjustments or round-trip times (clocks). *)
Theorem precondicion_fallida_una_accion :
  (forall nodos iniciadorId,
      ~ Election.iniciador_vivo nodos iniciadorId ->
      Election.simularBully nodos iniciadorId
      = [ Election.mkAccion
            ("El nodo iniciador " ++ JS.str iniciadorId
               ++ " está caído. No puede iniciar.")
            None None None ]) /\
  (forall nodos iniciadorId,
      Election.vivos nodos = [] ->
      Election.simularRingCompleto nodos iniciadorId
      = [ Election.mkAccion "No hay nodos activos en el anillo."
            None None None ]) /\
  (forall nodos iniciadorId,
      Election.vivos nodos <> [] ->
      ~ Election.iniciador_vivo nodos iniciadorId ->
      Election.simularRingCompleto nodos iniciadorId
      = [ Election.mkAccion
            ("El nodo iniciador " ++ JS.str iniciadorId
               ++ " está caído. No puede iniciar.")
            None None None ]) /\
  (forall toLocaleTimeString azar nodos latenciaMax,
      ClockSync.vivos nodos = [] ->
      ClockSync.simularCristian toLocaleTimeString azar nodos latenciaMax
      = [ ClockSync.mkAccion
            "No hay nodos activos para sincronizar con Cristian."
            None None None None ]) /\
  (forall toLocaleTimeString azar nodos latenciaMax,
      ClockSync.vivos nodos = [] ->
      ClockSync.simularBerkeley toLocaleTimeString azar nodos latenciaMax
      = [ ClockSync.mkAccion "No hay nodos activos para ejecutar Berkeley."
            None None None None ]).
Proof.
  repeat split.
  - intros nodos ini H. unfold Election.simularBully.
    now rewrite (ElectionSpec.no_vivo_find _ _ H).
  - intros nodos ini H. unfold Election.simularRingCompleto. now rewrite H.
  - intros nodos ini Hne H. unfold Election.simularRingCompleto.
    rewrite (ElectionSpec.no_vivo_find _ _ H).
    destruct (Election.vivos nodos); [congruence | reflexivity].
  - intros tl azar nodos lat H. unfold ClockSync.simularCristian. now rewrite H.
  - intros tl azar nodos lat H. unfold ClockSync.simularBerkeley. now rewrite H.
Qed.

Lemma precondicion_fallida_una_accion_witness :
  (~ Election.iniciador_vivo Election.nodos_escenario_sin_81 81) /\
  Election.simularBully Election.nodos_escenario_sin_81 81
  = [ Election.mkAccion "El nodo iniciador 81 está caído. No puede iniciar."
        None None None ] /\
  Election.simularRingCompleto [Election.mkNodo 12 true false] 12
  = [ Election.mkAccion "No hay nodos activos en el anillo." None None None ] /\
  Election.simularRingCompleto Election.nodos_escenario_sin_81 81
  = [ Election.mkAccion "El nodo iniciador 81 está caído. No puede iniciar."
        None None None ] /\
  ClockSync.simularCristian ClockSync.hora_decimal ClockSync.azar_medio
    [ClockSync.mkNodo 0 1000 0 0 true false None None] 200
  = [ ClockSync.mkAccion "No hay nodos activos para sincronizar con Cristian."
        None None None None ] /\
  ClockSync.simularBerkeley ClockSync.hora_decimal ClockSync.azar_medio
    [ClockSync.mkNodo 0 1000 0 0 true false None None] 200
  = [ ClockSync.mkAccion "No hay nodos activos para ejecutar Berkeley."
        None None None None ].
Proof.
  assert (H : ~ Election.iniciador_vivo Election.nodos_escenario_sin_81 81).
  { intros [n [Hin [Hf Hid]]]. simpl in Hin.
    destruct Hin as [<-|[<-|[<-|[<-|[]]]]]; simpl in *; discriminate. }
  destruct precondicion_fallida_una_accion as (B & R0 & R1 & C & K).
  split; [exact H|].
  split; [exact (B _ _ H)|].
  split; [exact (R0 [Election.mkNodo 12 true false] 12 eq_refl)|].
  split; [exact (R1 Election.nodos_escenario_sin_81 81 ltac:(discriminate) H)|].
  split; [exact (C _ _ [ClockSync.mkNodo 0 1000 0 0 true false None None] 200 eq_refl)|].
  exact (K _ _ [ClockSync.mkNodo 0 1000 0 0 true false None None] 200 eq_refl).
Defined.

(** C8. With no compiled sequence, the clock simulator's Play button sets
    [isPlaying] and its Paso button clears it; neither writes a trace line.
    (The election simulator's handlers write one line and change nothing
    else: [ElectionSpec.play_y_paso_sin_secuencia_eleccion].) *)
Theorem play_y_paso_sin_secuencia_reloj
  (toLocaleTimeString : Z -> string) (s : ClockSync.Estado.t) :
  ClockSync.Estado.acciones s = [] ->
  ClockSync.manejar toLocaleTimeString ClockSync.EvPlay s
  = ClockSync.setIsPlaying true s /\
  ClockSync.manejar toLocaleTimeString ClockSync.EvPaso s
  = ClockSync.setIsPlaying false s /\
  ClockSync.Estado.logs (ClockSync.manejar toLocaleTimeString ClockSync.EvPlay s)
  = ClockSync.Estado.logs s /\
  ClockSync.Estado.logs (ClockSync.manejar toLocaleTimeString ClockSync.EvPaso s)
  = ClockSync.Estado.logs s.
Proof.
  intros H. cbn [ClockSync.manejar].
  rewrite ClockSyncSpec.avanzarPaso_al_final_reloj by (rewrite H; simpl; lia).
  repeat split.
Qed.

Lemma play_y_paso_sin_secuencia_reloj_witness :
  ClockSync.Estado.acciones ClockSync.estado_inicial = [] /\
  ClockSync.Estado.isPlaying
    (ClockSync.manejar ClockSync.hora_decimal ClockSync.EvPlay
                       ClockSync.estado_inicial) = true /\
  ClockSync.Estado.logs
    (ClockSync.manejar ClockSync.hora_decimal ClockSync.EvPlay
                       ClockSync.estado_inicial) = [].
Proof.
  destruct (play_y_paso_sin_secuencia_reloj ClockSync.hora_decimal
              ClockSync.estado_inicial eq_refl) as (E1 & _ & E3 & _).
  split; [reflexivity|]. split; [rewrite E1; reflexivity | exact E3].
Defined.

(** C6, as stated, fails: failing the node that is the current leader
    clears the leader, and no action is applied (the cursor stays). *)
Lemma lider_borrado_al_fallar_nodo :
  Election.Estado.leaderId Election.estado_lider_81 = Some 81 /\
  Election.Estado.leaderId
    (Election.manejar (Election.EvClicNodo 81) Election.estado_lider_81) = None /\
  Election.Estado.leaderId
    (Election.manejar (Election.EvClicNodo 81) Election.estado_lider_81)
  <> Election.Estado.leaderId Election.estado_lider_81 /\
  Election.Estado.pasoIndex
    (Election.manejar (Election.EvClicNodo 81) Election.estado_lider_81)
  = Election.Estado.pasoIndex Election.estado_lider_81.
Proof. vm_compute. repeat split; congruence. Qed.

(** C6, amended.  An event of the election simulator leaves the leader as
    it was, unless it fails the node that is the current leader (the
    leader becomes [null]), or replaces the node set (generation, restart:
    the leader becomes [null]), or is a step that applies the one action
    under the cursor and that action sets a leader.  An event of the clock
    simulator leaves every node's [offsetActual] as it was, unless it
    generates new clocks or is a step that applies the one action under
    the cursor. *)
Theorem lider_y_offsets_cambian_solo_por :
  (forall (e : Election.Evento) (s : Election.Estado.t),
      Election.Estado.leaderId (Election.manejar e s) = Election.Estado.leaderId s \/
      (exists i,
          e = Election.EvClicNodo i /\
          Election.Estado.modoIniciador s = false /\
          Election.Estado.leaderId s = Some i /\
          (forall n,
              find (fun n => Election.id n =? i) (Election.Estado.nodos s) = Some n ->
              Election.failed n = false) /\
          Election.Estado.leaderId (Election.manejar e s) = None) \/
      (Election.reemplaza_nodos e /\
       Election.Estado.leaderId (Election.manejar e s) = None) \/
      (Election.es_paso e /\
       exists acc,
         nth_error (Election.Estado.memo_acciones s) (Election.Estado.pasoIndex s)
         = Some acc /\
         Election.leaderId acc = Some (Election.Estado.leaderId (Election.manejar e s)) /\
         Election.Estado.pasoIndex (Election.manejar e s)
         = S (Election.Estado.pasoIndex s))) /\
  (forall (toLocaleTimeString : Z -> string)
          (e : ClockSync.Evento) (s : ClockSync.Estado.t),
      map ClockSync.offsetActual
          (ClockSync.Estado.nodos (ClockSync.manejar toLocaleTimeString e s))
      = map ClockSync.offsetActual (ClockSync.Estado.nodos s) \/
      (exists now azar, e = ClockSync.EvGenerarRelojes now azar) \/
      (ClockSync.es_paso e /\
       exists acc,
         nth_error (ClockSync.Estado.acciones s) (ClockSync.Estado.pasoIndex s)
         = Some acc /\
         ClockSync.manejar toLocaleTimeString e s
         = ClockSync.setPasoIndex (ClockSync.Estado.pasoIndex s + 1)
                                  (ClockSync.aplicar acc s))).
Proof.
  split.
  - exact ElectionSpec.lider_cambia_solo_por.
  - exact ClockSyncSpec.offsets_solo_cambian_por.
Qed.

(** * Further properties of the election compilers *)

Module ElectionExtra.
Import Election.

(** ** Bully *)

Lemma bully_forma nodos iniciadorId :
  iniciador_vivo nodos iniciadorId ->
  exists inicio final,
    simularBully nodos iniciadorId
    = inicio
        :: flat_map (bully_mensajes (mkNodo iniciadorId false false))
                    (superiores_de nodos iniciadorId)
        ++ [final] /\
    mensaje inicio = None /\ leaderId inicio = None /\ mensaje final = None.
Proof.
  intros H.
  destruct (ElectionSpec.find_iniciador_vivo _ _ H) as [ini [Hfind [Hin Hid]]].
  unfold simularBully, superiores_de. rewrite Hfind, Hid.
  assert (Hm : forall l, flat_map (bully_mensajes ini) l
                         = flat_map (bully_mensajes (mkNodo iniciadorId false false)) l).
  { intros l. apply flat_map_ext. intros s. unfold bully_mensajes.
    now rewrite Hid. }
  destruct (filter (fun n => id n >? iniciadorId) (vivos nodos)) as [|s sup].
  - cbn [List.length Nat.eqb flat_map app]. eexists _, _.
    split; [reflexivity|]. now repeat split.
  - replace (List.length (s :: sup) =? 0)%nat with false by reflexivity.
    rewrite Hm. eexists _, _. split; [reflexivity|]. now repeat split.
Qed.

Lemma cuenta_bully_mensajes (ini : NodoSim) (sup : list NodoSim) :
  List.length (flat_map (bully_mensajes ini) sup) = (2 * List.length sup)%nat /\
  cuenta_mensajes election (flat_map (bully_mensajes ini) sup) = List.length sup /\
  cuenta_mensajes ok (flat_map (bully_mensajes ini) sup) = List.length sup.
Proof.
  induction sup as [|s r [IH1 [IH2 IH3]]]; [now repeat split|].
  cbn [flat_map]. rewrite length_app, !ElectionSpec.cuenta_mensajes_app.
  rewrite IH1, IH2, IH3. cbn. repeat split; lia.
Qed.

(** X1. A Bully sequence compiled for an alive initiator has two actions
    plus two for each alive node of greater id: one ELECTION message and
    one OK message per such node.  When no alive node has a greater id
    than the initiator, its two actions carry no message. *)
Theorem bully_longitud_y_mensajes nodos iniciadorId :
  iniciador_vivo nodos iniciadorId ->
  let sup := superiores_de nodos iniciadorId in
  let acciones := simularBully nodos iniciadorId in
  List.length acciones = (2 + 2 * List.length sup)%nat /\
  cuenta_mensajes election acciones = List.length sup /\
  cuenta_mensajes ok acciones = List.length sup /\
  ((forall n, In n (vivos nodos) -> id n <= iniciadorId) ->
   map mensaje acciones = [None; None]).
Proof.
  intros H sup acciones.
  destruct (bully_forma _ _ H) as (inicio & final & E & M1 & _ & M2).
  destruct (cuenta_bully_mensajes (mkNodo iniciadorId false false) sup)
    as (L & C1 & C2).
  unfold acciones. rewrite E. fold sup.
  assert (Hc : forall k,
             cuenta_mensajes k
               (inicio :: flat_map (bully_mensajes (mkNodo iniciadorId false false)) sup
                  ++ [final])
             = cuenta_mensajes k
                 (flat_map (bully_mensajes (mkNodo iniciadorId false false)) sup)).
  { intros k.
    rewrite (ElectionSpec.cuenta_mensajes_cons k inicio),
            ElectionSpec.cuenta_mensajes_app,
            (ElectionSpec.cuenta_sin_mensaje k _ M1),
            (ElectionSpec.cuenta_sin_mensaje k _ M2). lia. }
  rewrite !Hc, C1, C2.
  cbn [List.length]. rewrite length_app, L. cbn [List.length].
  repeat split; try lia.
  intros Hmax.
  assert (Hs : sup = []).
  { unfold sup, superiores_de.
    destruct (filter _ _) as [|x r] eqn:Ef; [reflexivity|].
    assert (Hx : In x (x :: r)) by now left.
    rewrite <- Ef in Hx. apply filter_In in Hx as [Hx Hgt].
    apply Z.gtb_lt in Hgt. specialize (Hmax x Hx). lia. }
  rewrite Hs. cbn. now rewrite M1, M2.
Qed.

Lemma bully_longitud_y_mensajes_witness :
  iniciador_vivo nodos_escenario 30 /\
  List.length (simularBully nodos_escenario 30) = 6%nat /\
  cuenta_mensajes election (simularBully nodos_escenario 30) = 2%nat.
Proof.
  assert (H : iniciador_vivo nodos_escenario 30).
  { exists (mkNodo 30 false false). simpl. intuition. }
  destruct (bully_longitud_y_mensajes nodos_escenario 30 H) as (L & C & _).
  split; [exact H|]. split; [exact L | exact C].
Defined.

(** X2. Every message of a Bully sequence runs between two alive nodes: it
    is either an ELECTION message from the initiator to a node of greater
    id, or an OK message from a node of greater id to the initiator. *)
Theorem bully_mensajes_entre_vivos nodos iniciadorId a m :
  In a (simularBully nodos iniciadorId) ->
  mensaje a = Some m ->
  In (fromId m) (map id (vivos nodos)) /\
  In (toId m) (map id (vivos nodos)) /\
  ((tipo m = election /\ fromId m = iniciadorId /\ iniciadorId < toId m) \/
   (tipo m = ok /\ toId m = iniciadorId /\ iniciadorId < fromId m)).
Proof.
  intros Ha Hm. unfold simularBully in Ha.
  destruct (find (fun n => id n =? iniciadorId) (vivos nodos)) as [ini|] eqn:Hfind.
  2:{ destruct Ha as [<-|[]]. discriminate. }
  apply find_some in Hfind as [Hin Hid]. apply Z.eqb_eq in Hid.
  subst iniciadorId.
  assert (Hini : In (id ini) (map id (vivos nodos))) by now apply in_map.
  assert (Hsup : forall l x,
             In x (flat_map (bully_mensajes ini)
                     (filter (fun n => id n >? id ini) l)) ->
             mensaje x = Some m ->
             (forall s, In s l -> In (id s) (map id (vivos nodos))) ->
             In (fromId m) (map id (vivos nodos)) /\
             In (toId m) (map id (vivos nodos)) /\
             ((tipo m = election /\ fromId m = id ini /\ id ini < toId m) \/
              (tipo m = ok /\ toId m = id ini /\ id ini < fromId m))).
  { intros l x Hx Hmx Hl. apply in_flat_map in Hx as [s [Hs Hx]].
    apply filter_In in Hs as [Hs Hgt]. apply Z.gtb_lt in Hgt.
    specialize (Hl s Hs).
    destruct Hx as [<-|[<-|[]]]; cbn in Hmx; injection Hmx as <-; cbn.
    - split; [exact Hini|]. split; [exact Hl|]. left. now repeat split.
    - split; [exact Hl|]. split; [exact Hini|]. right. now repeat split. }
  destruct (List.length (filter (fun n => id n >? id ini) (vivos nodos)) =? 0)%nat.
  - destruct Ha as [<-|[<-|[]]]; discriminate.
  - destruct Ha as [<-|Ha]; [discriminate|].
    change ([] ++ ?x) with x in Ha.
    rewrite in_app_iff in Ha. destruct Ha as [Ha|Ha].
    + apply (Hsup (vivos nodos) a Ha Hm). intros s Hs. now apply in_map.
    + simpl in Ha. destruct Ha as [<-|[]]. discriminate.
Qed.

Lemma bully_mensajes_entre_vivos_witness :
  In 81 (map id (vivos nodos_escenario)) /\ 30 < 81.
Proof.
  destruct (bully_mensajes_entre_vivos nodos_escenario 30
              (mkAccion "Nodo 30 envía mensaje de ELECCIÓN al nodo 81."
                 (Some [30; 81]) None (Some (mkMensaje 30 81 election None)))
              (mkMensaje 30 81 election None))
    as (_ & Hto & Hk).
  - vm_compute. right. right. right. left. reflexivity.
  - reflexivity.
  - split; [exact Hto|]. destruct Hk as [(_ & _ & H)|(H & _ & _)];
      [exact H | discriminate].
Defined.

(** ** Ring *)

Section Bucles.

Variables (iniciador : NodoSim) (anillo : list NodoSim).

Lemma fase1_exacta (indices : list nat) acciones ids :
  exists extra,
    fst (fold_left (ring_fase1_paso iniciador anillo) indices (acciones, ids))
    = acciones ++ extra /\
    map mensaje extra = map Some (ring_mensajes1 iniciador anillo indices ids) /\
    Forall (fun a => leaderId a = None) extra.
Proof.
  revert acciones ids; induction indices as [|i r IH]; intros acciones ids.
  - exists []. cbn. rewrite app_nil_r. auto.
  - cbn [fold_left]. unfold ring_fase1_paso at 2.
    match goal with
    | |- context [fold_left _ r (acciones ++ [?a], ?ids')] =>
        destruct (IH (acciones ++ [a]) ids') as [extra [E [M F]]];
        exists (a :: extra)
    end.
    rewrite E, <- app_assoc. split; [reflexivity|]. split.
    + cbn [map ring_mensajes1 mensaje]. f_equal. exact M.
    + constructor; [reflexivity | exact F].
Qed.

Lemma fase2_exacta (idLeader : Z) (idxLider : nat) (indices : list nat) acciones :
  exists extra,
    fold_left (ring_fase2_paso iniciador anillo idLeader idxLider) indices acciones
    = acciones ++ extra /\
    map mensaje extra = map Some (ring_mensajes2 iniciador anillo idxLider indices) /\
    Forall (fun a => leaderId a = None) extra.
Proof.
  revert acciones; induction indices as [|i r IH]; intros acciones.
  - exists []. cbn. rewrite app_nil_r. auto.
  - cbn [fold_left]. unfold ring_fase2_paso at 2.
    match goal with
    | |- context [fold_left _ r (acciones ++ [?a])] =>
        destruct (IH (acciones ++ [a])) as [extra [E [M F]]];
        exists (a :: extra)
    end.
    rewrite E, <- app_assoc. split; [reflexivity|]. split.
    + unfold ring_mensajes2 in *. cbn [map mensaje]. f_equal. exact M.
    + constructor; [reflexivity | exact F].
Qed.

End Bucles.

(** The sequence of a Ring run with its messages made explicit. *)
Lemma ring_estructura_exacta nodos iniciadorId :
  iniciador_vivo nodos iniciadorId ->
  exists ini inicio extra1 anuncio extra2 final,
    find (fun n => id n =? iniciadorId) (vivos nodos) = Some ini /\
    simularRingCompleto nodos iniciadorId
    = inicio :: extra1
        ++ ring_accion_regreso iniciadorId (ring_idsEnMensaje nodos iniciadorId)
        :: anuncio :: extra2 ++ [final] /\
    map mensaje extra1
    = map Some (ring_mensajes1 ini (ring_anillo_de nodos iniciadorId)
                  (seq 1 (List.length (vivos nodos))) [iniciadorId]) /\
    map mensaje extra2
    = map Some (ring_mensajes2 ini (ring_anillo_de nodos iniciadorId)
                  (ring_idxLider nodos iniciadorId)
                  (seq 1 (List.length (vivos nodos)))) /\
    Forall (fun a => leaderId a = None) extra1 /\
    Forall (fun a => leaderId a = None) extra2 /\
    mensaje inicio = None /\ leaderId inicio = None /\
    mensaje anuncio = None /\ leaderId anuncio = None /\
    final
    = mkAccion
        ("Todos los nodos actualizan al líder "
           ++ JS.str (JS.Math_max (ring_idsEnMensaje nodos iniciadorId)) ++ ".")
        (Some (map id (ring_anillo_de nodos iniciadorId)))
        (Some (Some (JS.Math_max (ring_idsEnMensaje nodos iniciadorId)))) None.
Proof.
  intros H.
  destruct (ElectionSpec.find_iniciador_vivo _ _ H) as [ini [Hfind [Hin Hid]]].
  exists ini.
  unfold simularRingCompleto, ring_idxLider, ring_idsEnMensaje, ring_anillo_de,
    ring_idxInicio.
  rewrite Hfind.
  destruct (vivos nodos) as [|v0 vs0] eqn:Ev; [destruct Hin|].
  rewrite <- Ev in *. replace (List.length (vivos nodos) =? 0)%nat with false
    by (rewrite Ev; reflexivity).
  set (idx := match JS.findIndex _ _ with Some i => i | None => O end).
  set (anillo := ring_anillo (vivos nodos) idx).
  set (inicio := mkAccion _ (Some [id ini]) None None).
  assert (Hn : List.length anillo = List.length (vivos nodos))
    by apply ElectionSpec.ring_anillo_length.
  destruct (fase1_exacta ini anillo (seq 1 (List.length anillo))
              [inicio] [id ini]) as [extra1 [E1 [M1 F1]]].
  unfold ring_fase1 in *.
  destruct (fold_left (ring_fase1_paso ini anillo) _ ([inicio], [id ini]))
    as [acciones ids] eqn:Efold.
  cbn [fst] in E1. subst acciones. cbn [snd].
  set (idLeader := JS.Math_max ids).
  set (nodoLider := match find _ anillo with Some n => n | None => ini end).
  set (idxLider := match JS.findIndex _ anillo with Some i => i | None => O end).
  set (anuncio := mkAccion _ (Some [id nodoLider]) None None).
  unfold ring_fase2.
  destruct (fase2_exacta ini anillo idLeader idxLider
              (seq 1 (List.length anillo))
              ((([inicio] ++ extra1) ++ [ring_accion_regreso (id ini) ids])
                 ++ [anuncio])) as [extra2 [E2 [M2 F2]]].
  rewrite E2. rewrite Hn in M1, M2. rewrite Hid in *.
  exists inicio, extra1, anuncio, extra2.
  eexists. split; [reflexivity|]. split.
  { cbn [app]. rewrite <- !app_assoc. cbn [app]. reflexivity. }
  repeat split; assumption.
Qed.

Lemma mensajes_de_app k xs ys :
  mensajes_de k (xs ++ ys) = mensajes_de k xs ++ mensajes_de k ys.
Proof. apply flat_map_app. Qed.

Lemma mensajes_de_mismos k k' (ms : list SimMensaje) (xs : list SimAction) :
  map mensaje xs = map Some ms ->
  Forall (fun m => tipo m = k') ms ->
  mensajes_de k xs = if MessageKind_eqb k' k then ms else [].
Proof.
  revert ms; induction xs as [|x r IH]; intros [|m ms] E F; try discriminate.
  - now destruct (MessageKind_eqb k' k).
  - cbn in E. injection E as Hm E. inversion F as [|? ? Hk F']; subst.
    cbn [mensajes_de flat_map]. fold (mensajes_de k r).
    rewrite Hm, (IH ms E F'). now destruct (MessageKind_eqb (tipo m) k).
Qed.

Lemma ring_mensajes1_tipo ini anillo indices ids :
  Forall (fun m => tipo m = ring1) (ring_mensajes1 ini anillo indices ids).
Proof.
  revert ids; induction indices as [|i r IH]; intros ids; cbn; constructor;
    [reflexivity | apply IH].
Qed.

Lemma ring_mensajes2_tipo ini anillo idx indices :
  Forall (fun m => tipo m = ring2) (ring_mensajes2 ini anillo idx indices).
Proof.
  unfold ring_mensajes2. apply Forall_forall. intros m Hm.
  apply in_map_iff in Hm as [i [<- _]]. reflexivity.
Qed.

(** The messages of each kind of a Ring run. *)
Lemma ring_mensajes_de nodos iniciadorId :
  iniciador_vivo nodos iniciadorId ->
  exists ini,
    find (fun n => id n =? iniciadorId) (vivos nodos) = Some ini /\
    mensajes_de ring1 (simularRingCompleto nodos iniciadorId)
    = ring_mensajes1 ini (ring_anillo_de nodos iniciadorId)
        (seq 1 (List.length (vivos nodos))) [iniciadorId] /\
    mensajes_de ring2 (simularRingCompleto nodos iniciadorId)
    = ring_mensajes2 ini (ring_anillo_de nodos iniciadorId)
        (ring_idxLider nodos iniciadorId) (seq 1 (List.length (vivos nodos))).
Proof.
  intros H.
  destruct (ring_estructura_exacta _ _ H)
    as (ini & inicio & extra1 & anuncio & extra2 & final
        & Hf & E & M1 & M2 & _ & _ & Hi & _ & Ha & _ & Efin).
  exists ini. split; [exact Hf|]. rewrite E.
  assert (Hs : forall k a, mensaje a = None -> mensajes_de k [a] = []).
  { intros k a Hm. cbn. now rewrite Hm. }
  change (inicio :: extra1 ++ ring_accion_regreso iniciadorId
            (ring_idsEnMensaje nodos iniciadorId) :: anuncio :: extra2 ++ [final])
    with ([inicio] ++ extra1 ++ [ring_accion_regreso iniciadorId
            (ring_idsEnMensaje nodos iniciadorId)] ++ [anuncio] ++ extra2 ++ [final]).
  assert (Hfin : mensaje final = None) by (rewrite Efin; reflexivity).
  assert (Hr : forall k,
             mensajes_de k [ring_accion_regreso iniciadorId
                              (ring_idsEnMensaje nodos iniciadorId)] = [])
    by reflexivity.
  split; rewrite !mensajes_de_app;
    rewrite (Hs _ inicio Hi), (Hs _ anuncio Ha), Hr, (Hs _ final Hfin);
    rewrite (mensajes_de_mismos _ _ _ _ M1 (ring_mensajes1_tipo _ _ _ _)),
            (mensajes_de_mismos _ _ _ _ M2 (ring_mensajes2_tipo _ _ _ _));
    cbn; rewrite ?app_nil_r; reflexivity.
Qed.

(** *** Rotations *)

Lemma rotacion_nth {A : Type} (l : list A) (d : A) (k : nat) :
  (k <= List.length l)%nat ->
  map (fun j => nth ((k + j) mod List.length l)%nat l d) (seq 0 (List.length l))
  = skipn k l ++ firstn k l.
Proof.
  intros Hk. set (n := List.length l).
  apply (nth_ext _ _ (nth ((k + 0) mod n)%nat l d) d).
  - rewrite length_map, length_seq, length_app, length_skipn, length_firstn.
    fold n. lia.
  - intros j Hj. rewrite length_map, length_seq in Hj.
    rewrite (map_nth (fun j => nth ((k + j) mod n)%nat l d)), seq_nth by exact Hj.
    cbn [Nat.add].
    destruct (Nat.lt_ge_cases j (n - k)) as [Hlt|Hge].
    + rewrite app_nth1 by (rewrite length_skipn; fold n; lia).
      rewrite nth_skipn, Nat.mod_small by lia. reflexivity.
    + rewrite app_nth2 by (rewrite length_skipn; fold n; lia).
      rewrite length_skipn. fold n. rewrite nth_firstn.
      replace (j - (n - k) <? k)%nat with true
        by (symmetry; apply Nat.ltb_lt; lia).
      replace (k + j)%nat with ((j - (n - k)) + 1 * n)%nat by lia.
      rewrite Nat.Div0.mod_add, Nat.mod_small by lia. reflexivity.
Qed.

Lemma rotacion_ids (anillo : list NodoSim) (d : NodoSim) (k : nat) :
  (k <= List.length anillo)%nat ->
  map (fun j => id (nth ((k + j) mod List.length anillo)%nat anillo d))
      (seq 0 (List.length anillo))
  = skipn k (map id anillo) ++ firstn k (map id anillo).
Proof.
  intros Hk. rewrite skipn_map, firstn_map, <- map_app.
  rewrite <- (rotacion_nth anillo d k Hk), map_map. reflexivity.
Qed.

Lemma seq_desde_uno {B : Type} (f : nat -> B) (n : nat) :
  map f (seq 1 n) = map (fun j => f (S j)) (seq 0 n).
Proof. now rewrite <- seq_shift, map_map. Qed.

Lemma ring_mensajes1_extremos ini anillo indices ids :
  map fromId (ring_mensajes1 ini anillo indices ids)
  = map (fun i => id (nth (i - 1) anillo ini)) indices /\
  map toId (ring_mensajes1 ini anillo indices ids)
  = map (fun i => id (nth (i mod List.length anillo)%nat anillo ini)) indices.
Proof.
  revert ids; induction indices as [|i r IH]; intros ids; [now split|].
  destruct (IH (agrega (id (nth (i mod List.length anillo)%nat anillo ini)) ids))
    as [IH1 IH2].
  cbn [ring_mensajes1 map fromId toId]. now rewrite IH1, IH2.
Qed.

Lemma findIndex_existe {A : Type} (p : A -> bool) (l : list A) (x : A) :
  In x l -> p x = true -> exists k, JS.findIndex p l = Some k.
Proof.
  induction l as [|y r IH]; intros Hin Hp; [destruct Hin|].
  cbn. destruct (p y) eqn:E; [now exists O|].
  destruct Hin as [->|Hin]; [congruence|].
  destruct (IH Hin Hp) as [k Hk]. rewrite Hk. now exists (S k).
Qed.

Lemma ring_anillo_cabeza nodos iniciadorId :
  iniciador_vivo nodos iniciadorId ->
  hd_error (map id (ring_anillo_de nodos iniciadorId)) = Some iniciadorId /\
  List.length (ring_anillo_de nodos iniciadorId) = List.length (vivos nodos) /\
  (0 < List.length (vivos nodos))%nat.
Proof.
  intros H.
  destruct (ElectionSpec.find_iniciador_vivo _ _ H) as [ini [Hfind [Hin Hid]]].
  destruct (find_findIndex _ _ _ Hfind) as [k [Hk Hn]].
  unfold ring_anillo_de, ring_idxInicio. rewrite Hk.
  split; [|split].
  - unfold ring_anillo, JS.slice_from, JS.slice_to.
    assert (E : exists r, skipn k (vivos nodos) = ini :: r).
    { clear -Hn. revert k Hn. induction (vivos nodos) as [|v r IH]; intros [|k] Hn;
        try discriminate; cbn in *.
      - injection Hn as ->. now exists r.
      - now apply IH. }
    destruct E as [r ->]. cbn. now rewrite Hid.
  - apply ElectionSpec.ring_anillo_length.
  - destruct (vivos nodos); [destruct Hin | cbn; lia].
Qed.

Lemma ring_lider_en_anillo nodos iniciadorId :
  iniciador_vivo nodos iniciadorId ->
  (ring_idxLider nodos iniciadorId < List.length (vivos nodos))%nat /\
  nth_error (map id (ring_anillo_de nodos iniciadorId))
            (ring_idxLider nodos iniciadorId)
  = Some (JS.Math_max (ring_idsEnMensaje nodos iniciadorId)).
Proof.
  intros H.
  destruct (ElectionSpec.ring_idsEnMensaje_spec _ _ H) as [Hset [cola Hcola]].
  destruct (ring_anillo_cabeza _ _ H) as (_ & Hlen & _).
  set (idLeader := JS.Math_max (ring_idsEnMensaje nodos iniciadorId)).
  assert (Hin : In idLeader (map id (vivos nodos))).
  { apply Hset. unfold idLeader. rewrite Hcola.
    apply (ElectionSpec.Math_max_es_maximo iniciadorId cola). }
  apply in_map_iff in Hin as [x [Hx Hin]].
  assert (Hin' : In x (ring_anillo_de nodos iniciadorId))
    by now apply ElectionSpec.ring_anillo_In.
  destruct (findIndex_existe (fun n => id n =? idLeader) _ x Hin')
    as [k Hk]; [now apply Z.eqb_eq|].
  unfold ring_idxLider. fold idLeader. rewrite Hk.
  destruct (findIndex_Some _ _ _ Hk) as [Hlt [y [Hy Hp]]].
  apply Z.eqb_eq in Hp. rewrite <- Hlen. split; [exact Hlt|].
  rewrite nth_error_map, Hy. cbn. now rewrite Hp.
Qed.

(** X3. In a Ring sequence compiled for an alive initiator the ring starts
    at the initiator.  The collection messages leave the ring's nodes in
    ring order, each going to the next node of the ring, the last one
    back to the initiator.  The announcement messages do the same
    starting from the leader, which sits at [idxLider] in the ring. *)
Theorem ring_mensajes_en_ciclo nodos iniciadorId :
  iniciador_vivo nodos iniciadorId ->
  let anillo := map id (ring_anillo_de nodos iniciadorId) in
  let idx := ring_idxLider nodos iniciadorId in
  let acciones := simularRingCompleto nodos iniciadorId in
  hd_error anillo = Some iniciadorId /\
  map fromId (mensajes_de ring1 acciones) = anillo /\
  map toId (mensajes_de ring1 acciones) = skipn 1 anillo ++ firstn 1 anillo /\
  nth_error anillo idx = Some (JS.Math_max (ring_idsEnMensaje nodos iniciadorId)) /\
  map fromId (mensajes_de ring2 acciones) = skipn idx anillo ++ firstn idx anillo /\
  map toId (mensajes_de ring2 acciones)
  = skipn (S idx) anillo ++ firstn (S idx) anillo.
Proof.
  intros H anillo idx acciones.
  destruct (ring_mensajes_de _ _ H) as (ini & _ & E1 & E2).
  destruct (ring_anillo_cabeza _ _ H) as (Hhd & Hlen & Hpos).
  destruct (ring_lider_en_anillo _ _ H) as (Hidx & Hlider).
  fold idx in Hidx, Hlider. fold anillo in Hhd, Hlider.
  set (an := ring_anillo_de nodos iniciadorId) in *.
  unfold acciones. rewrite E1, E2. fold an idx. rewrite <- Hlen in *.
  destruct (ring_mensajes1_extremos ini an (seq 1 (List.length an)) [iniciadorId])
    as [F1 T1].
  split; [exact Hhd|]. split; [|split; [|split; [exact Hlider|split]]].
  - rewrite F1, seq_desde_uno.
    pose proof (rotacion_ids an ini 0 ltac:(lia)) as R.
    cbn [skipn firstn] in R. rewrite app_nil_r in R.
    unfold anillo. rewrite <- R.
    apply map_ext_in. intros j Hj. apply in_seq in Hj.
    cbn [Nat.sub Nat.add]. rewrite Nat.sub_0_r, Nat.mod_small by lia. reflexivity.
  - rewrite T1, seq_desde_uno. unfold anillo.
    rewrite <- (rotacion_ids an ini 1) by lia. reflexivity.
  - unfold ring_mensajes2. rewrite map_map. cbn [fromId].
    rewrite seq_desde_uno. unfold anillo.
    rewrite <- (rotacion_ids an ini idx) by lia.
    apply map_ext. intros j. do 3 f_equal. lia.
  - unfold ring_mensajes2. rewrite map_map. cbn [toId].
    rewrite seq_desde_uno. unfold anillo.
    rewrite <- (rotacion_ids an ini (S idx)) by lia.
    apply map_ext. intros j. do 3 f_equal. lia.
Qed.

Lemma ring_mensajes_en_ciclo_witness :
  iniciador_vivo nodos_anillo_ejemplo 47 /\
  map fromId (mensajes_de ring1 (simularRingCompleto nodos_anillo_ejemplo 47))
  = [47; 22; 99; 13] /\
  map toId (mensajes_de ring1 (simularRingCompleto nodos_anillo_ejemplo 47))
  = [22; 99; 13; 47] /\
  map fromId (mensajes_de ring2 (simularRingCompleto nodos_anillo_ejemplo 47))
  = [99; 13; 47; 22].
Proof.
  assert (H : iniciador_vivo nodos_anillo_ejemplo 47).
  { exists (mkNodo 47 false false). simpl. intuition. }
  destruct (ring_mensajes_en_ciclo nodos_anillo_ejemplo 47 H)
    as (_ & F1 & T1 & _ & F2 & _).
  split; [exact H|]. split; [exact F1|]. split; [exact T1 | exact F2].
Defined.

(** *** The accumulator *)

Lemma agrega_NoDup x ids : NoDup ids -> NoDup (agrega x ids).
Proof.
  intros H. unfold agrega. destruct (JS.includes x ids) eqn:E; [exact H|].
  apply NoDup_app; [exact H | repeat constructor; intros [] |].
  intros a Ha [<-|[]].
  apply ElectionSpec.includes_In in Ha. congruence.
Qed.

(** X4. The id list accumulated by the collection phase of a Ring run has
    no repeated id, whatever the nodes and the initiator. *)
Theorem ring_acumulador_sin_repetidos nodos iniciadorId :
  NoDup (ring_idsEnMensaje nodos iniciadorId).
Proof.
  unfold ring_idsEnMensaje.
  destruct (find _ _) as [ini|]; [|constructor].
  unfold ring_fase1. rewrite ElectionSpec.fase1_ids.
  generalize (seq 1 (List.length
                       (ring_anillo (vivos nodos)
                          match JS.findIndex (fun n => id n =? iniciadorId)
                                  (vivos nodos) with
                          | Some i => i
                          | None => O
                          end))).
  assert (H0 : NoDup [id ini]) by (repeat constructor; intros []).
  revert H0. generalize [id ini].
  intros ids H0 indices. revert ids H0.
  induction indices as [|i r IH]; intros ids H0; [exact H0|].
  cbn [fold_left]. apply IH. now apply agrega_NoDup.
Qed.

Lemma firstn_siguiente {A : Type} (l : list A) (d : A) (j : nat) :
  (j < List.length l)%nat -> firstn (S j) l = firstn j l ++ [nth j l d].
Proof.
  revert j; induction l as [|x r IH]; intros j Hj; [cbn in Hj; lia|].
  destruct j as [|j]; [reflexivity|].
  cbn in Hj. cbn [firstn nth app]. f_equal. apply IH. lia.
Qed.

Lemma NoDup_nth_fuera (l : list Z) (d : Z) (j : nat) :
  NoDup l -> (j < List.length l)%nat -> ~ In (nth j l d) (firstn j l).
Proof.
  intros Hnd. revert j; induction Hnd as [|x r Hx Hnd IH]; intros j Hj;
    [cbn in Hj; lia|].
  destruct j as [|j]; [intros []|].
  cbn in Hj. cbn [firstn nth]. intros [E|Hin].
  - apply Hx. rewrite E. apply nth_In. lia.
  - apply (IH j); [lia | exact Hin].
Qed.

Section Prefijos.

Variables (ini : NodoSim) (anillo : list NodoSim).
Hypothesis Hnd : NoDup (map id anillo).

Let n := List.length anillo.
Let L := map id anillo.

Lemma agrega_prefijo (j : nat) :
  (1 <= j <= n)%nat ->
  agrega (id (nth (j mod n)%nat anillo ini)) (firstn j L)
  = firstn (Nat.min (S j) n) L.
Proof.
  intros Hj. unfold agrega.
  assert (HL : List.length L = n) by apply length_map.
  destruct (Nat.eq_dec j n) as [->|Hne].
  - rewrite Nat.Div0.mod_same, Nat.min_r by lia.
    replace (JS.includes (id (nth 0 anillo ini)) (firstn n L)) with true;
      [reflexivity|].
    symmetry. apply ElectionSpec.includes_In.
    rewrite <- HL, firstn_all. apply in_map, nth_In. fold n. lia.
  - rewrite Nat.mod_small, Nat.min_l by lia.
    assert (E : id (nth j anillo ini) = nth j L (id ini)) by (symmetry; apply map_nth).
    rewrite E.
    replace (JS.includes (nth j L (id ini)) (firstn j L)) with false.
    + symmetry. apply firstn_siguiente. lia.
    + symmetry. destruct (JS.includes _ _) eqn:Ei; [|reflexivity].
      apply ElectionSpec.includes_In in Ei.
      exfalso. apply (NoDup_nth_fuera L (id ini) j Hnd); [lia | exact Ei].
Qed.

Lemma ring_cargas_prefijos (m j : nat) :
  (1 <= j)%nat -> (j + m = S n)%nat ->
  map payload (ring_mensajes1 ini anillo (seq j m) (firstn j L))
  = map (fun k => Some (firstn k L)) (seq j m) /\
  fold_left
    (fun ids i => agrega (id (nth (i mod n)%nat anillo ini)) ids)
    (seq j m) (firstn j L)
  = L.
Proof.
  revert j; induction m as [|m IH]; intros j Hj Hm.
  - cbn. split; [reflexivity|]. replace j with (S n) by lia.
    apply firstn_all2. unfold L. rewrite length_map. fold n. lia.
  - cbn [seq ring_mensajes1 map payload fold_left]. fold n.
    rewrite agrega_prefijo by lia.
    destruct m as [|m].
    + cbn [seq ring_mensajes1 map payload fold_left]. split; [reflexivity|].
      apply firstn_all2. unfold L. rewrite length_map. fold n. lia.
    + rewrite Nat.min_l by lia.
      destruct (IH (S j)) as [IH1 IH2]; [lia | lia|].
      rewrite IH1, IH2. now split.
Qed.

End Prefijos.

(** X5. When the alive ids are pairwise distinct, the id list accumulated
    by a Ring run is the ring itself, in ring order, and the [k]-th
    collection message carries the first [k] ids of the ring. *)
Theorem ring_cargas_en_orden nodos iniciadorId :
  iniciador_vivo nodos iniciadorId ->
  NoDup (map id (vivos nodos)) ->
  let anillo := map id (ring_anillo_de nodos iniciadorId) in
  ring_idsEnMensaje nodos iniciadorId = anillo /\
  map payload (mensajes_de ring1 (simularRingCompleto nodos iniciadorId))
  = map (fun k => Some (firstn k anillo)) (seq 1 (List.length (vivos nodos))).
Proof.
  intros H Hnd anillo.
  destruct (ring_mensajes_de _ _ H) as (ini & Hfind & E1 & _).
  destruct (ring_anillo_cabeza _ _ H) as (Hhd & Hlen & Hpos).
  set (an := ring_anillo_de nodos iniciadorId) in *.
  assert (Hnd' : NoDup (map id an)).
  { unfold an, ring_anillo_de, ring_anillo, JS.slice_from, JS.slice_to.
    rewrite map_app. apply (Permutation_NoDup (l := map id (vivos nodos))); [|exact Hnd].
    rewrite <- (firstn_skipn (ring_idxInicio nodos iniciadorId) (vivos nodos)) at 1.
    rewrite map_app. apply Permutation_app_comm. }
  assert (H1 : firstn 1 (map id an) = [iniciadorId]).
  { fold anillo in Hhd |- *. destruct anillo; [discriminate|].
    cbn in Hhd. injection Hhd as ->. reflexivity. }
  destruct (ring_cargas_prefijos ini an Hnd' (List.length an) 1)
    as [P1 P2]; [lia | lia|].
  rewrite H1 in P1, P2. rewrite Hlen in P1.
  split.
  - unfold ring_idsEnMensaje. rewrite Hfind. unfold ring_fase1.
    rewrite ElectionSpec.fase1_ids.
    destruct (ElectionSpec.find_iniciador_vivo _ _ H) as [ini' [Hfind' [_ Hid]]].
    rewrite Hfind in Hfind'. injection Hfind' as <-. rewrite Hid.
    exact P2.
  - rewrite E1. exact P1.
Qed.

Lemma ring_cargas_en_orden_witness :
  iniciador_vivo nodos_anillo_ejemplo 47 /\
  map payload (mensajes_de ring1 (simularRingCompleto nodos_anillo_ejemplo 47))
  = [Some [47]; Some [47; 22]; Some [47; 22; 99]; Some [47; 22; 99; 13]].
Proof.
  assert (H : iniciador_vivo nodos_anillo_ejemplo 47).
  { exists (mkNodo 47 false false). simpl. intuition. }
  assert (Hnd : NoDup (map id (vivos nodos_anillo_ejemplo))).
  { simpl. repeat (constructor; [simpl; lia|]). constructor. }
  split; [exact H|].
  exact (proj2 (ring_cargas_en_orden nodos_anillo_ejemplo 47 H Hnd)).
Defined.

(** *** Length, closing action, and where the leader is set *)

Lemma ring_mensajes1_length ini anillo indices ids :
  List.length (ring_mensajes1 ini anillo indices ids) = List.length indices.
Proof.
  revert ids; induction indices as [|i r IH]; intros ids; [reflexivity|].
  cbn. now rewrite IH.
Qed.

Lemma ring_anillo_permutacion nodos iniciadorId :
  Permutation (map id (ring_anillo_de nodos iniciadorId)) (map id (vivos nodos)).
Proof.
  unfold ring_anillo_de, ring_anillo, JS.slice_from, JS.slice_to.
  rewrite <- (firstn_skipn (ring_idxInicio nodos iniciadorId) (vivos nodos)) at 3.
  rewrite !map_app. apply Permutation_app_comm.
Qed.

Lemma ring_ultima_accion nodos iniciadorId :
  iniciador_vivo nodos iniciadorId ->
  exists previas,
    simularRingCompleto nodos iniciadorId
    = previas ++
      [ mkAccion
          ("Todos los nodos actualizan al líder "
             ++ JS.str (JS.Math_max (ring_idsEnMensaje nodos iniciadorId)) ++ ".")
          (Some (map id (ring_anillo_de nodos iniciadorId)))
          (Some (Some (JS.Math_max (ring_idsEnMensaje nodos iniciadorId)))) None ].
Proof.
  intros H.
  destruct (ring_estructura_exacta _ _ H)
    as (ini & inicio & extra1 & anuncio & extra2 & final
        & _ & E & _ & _ & _ & _ & _ & _ & _ & _ & Efin).
  exists ((inicio :: extra1) ++ ring_accion_regreso iniciadorId
            (ring_idsEnMensaje nodos iniciadorId) :: anuncio :: extra2).
  rewrite E, Efin, <- app_assoc. reflexivity.
Qed.

(** X6. A Ring sequence compiled for an alive initiator has [2n + 4]
    actions, [n] being the number of alive nodes.  Its last action carries
    no message and highlights exactly the alive nodes. *)
Theorem ring_longitud_y_cierre nodos iniciadorId :
  iniciador_vivo nodos iniciadorId ->
  List.length (simularRingCompleto nodos iniciadorId)
  = (2 * List.length (vivos nodos) + 4)%nat /\
  exists final hs,
    hd_error (rev (simularRingCompleto nodos iniciadorId)) = Some final /\
    mensaje final = None /\
    highlightIds final = Some hs /\
    Permutation hs (map id (vivos nodos)).
Proof.
  intros H.
  destruct (ring_estructura_exacta _ _ H)
    as (ini & inicio & extra1 & anuncio & extra2 & final
        & _ & E & M1 & M2 & _ & _ & _ & _ & _ & _ & Efin).
  assert (L1 : List.length extra1 = List.length (vivos nodos)).
  { rewrite <- (length_map mensaje), M1, length_map, ring_mensajes1_length.
    apply length_seq. }
  assert (L2 : List.length extra2 = List.length (vivos nodos)).
  { rewrite <- (length_map mensaje), M2. unfold ring_mensajes2.
    rewrite !length_map. apply length_seq. }
  rewrite E. split.
  - cbn [List.length]. rewrite length_app. cbn [List.length].
    rewrite length_app. cbn [List.length]. lia.
  - exists final, (map id (ring_anillo_de nodos iniciadorId)).
    split; [|rewrite Efin; repeat split; apply ring_anillo_permutacion].
    change (inicio :: extra1 ++ ring_accion_regreso iniciadorId
              (ring_idsEnMensaje nodos iniciadorId) :: anuncio :: extra2 ++ [final])
      with ((inicio :: extra1) ++ (ring_accion_regreso iniciadorId
              (ring_idsEnMensaje nodos iniciadorId) :: anuncio :: extra2) ++ [final]).
    rewrite app_assoc, rev_app_distr. reflexivity.
Qed.

Lemma ring_longitud_y_cierre_witness :
  iniciador_vivo nodos_anillo_ejemplo 47 /\
  List.length (simularRingCompleto nodos_anillo_ejemplo 47) = 12%nat.
Proof.
  assert (H : iniciador_vivo nodos_anillo_ejemplo 47).
  { exists (mkNodo 47 false false). simpl. intuition. }
  split; [exact H|].
  exact (proj1 (ring_longitud_y_cierre nodos_anillo_ejemplo 47 H)).
Defined.

Lemma find_iniciador nodos iniciadorId ini :
  find (fun n => id n =? iniciadorId) (vivos nodos) = Some ini ->
  iniciador_vivo nodos iniciadorId.
Proof.
  intros Hf. apply find_some in Hf as [Hin Hid].
  apply filter_In in Hin as [Hin Hal]. exists ini. repeat split; auto.
  - now destruct (failed ini).
  - now apply Z.eqb_eq.
Qed.

Lemma bully_mensajes_sin_lider ini sup :
  Forall (fun a => leaderId a = None) (flat_map (bully_mensajes ini) sup).
Proof.
  apply Forall_forall. intros a Ha. apply in_flat_map in Ha as [s [_ Ha]].
  destruct Ha as [<-|[<-|[]]]; reflexivity.
Qed.

Lemma bully_sin_lider_antes nodos iniciadorId :
  Forall (fun a => leaderId a = None) (removelast (simularBully nodos iniciadorId)).
Proof.
  destruct (find (fun n => id n =? iniciadorId) (vivos nodos)) as [ini|] eqn:Hf.
  - destruct (bully_forma _ _ (find_iniciador _ _ _ Hf))
      as (inicio & final & E & _ & Hi & _).
    rewrite E.
    change (inicio :: ?x ++ [final]) with ((inicio :: x) ++ [final]).
    rewrite removelast_last. constructor; [exact Hi|].
    apply bully_mensajes_sin_lider.
  - unfold simularBully. rewrite Hf. constructor.
Qed.

Lemma ring_sin_lider_antes nodos iniciadorId :
  Forall (fun a => leaderId a = None)
         (removelast (simularRingCompleto nodos iniciadorId)).
Proof.
  destruct (find (fun n => id n =? iniciadorId) (vivos nodos)) as [ini|] eqn:Hf.
  - destruct (ring_estructura_exacta _ _ (find_iniciador _ _ _ Hf))
      as (ini' & inicio & extra1 & anuncio & extra2 & final
          & _ & E & _ & _ & F1 & F2 & _ & Hi & _ & Ha & _).
    rewrite E.
    change (inicio :: extra1 ++ ring_accion_regreso iniciadorId
              (ring_idsEnMensaje nodos iniciadorId) :: anuncio :: extra2 ++ [final])
      with ((inicio :: extra1) ++ (ring_accion_regreso iniciadorId
              (ring_idsEnMensaje nodos iniciadorId) :: anuncio :: extra2) ++ [final]).
    rewrite app_assoc, removelast_last.
    apply Forall_app. split; [constructor; [exact Hi | exact F1]|].
    constructor; [reflexivity|]. constructor; [exact Ha | exact F2].
  - unfold simularRingCompleto. rewrite Hf.
    destruct (List.length (vivos nodos) =? 0)%nat; constructor.
Qed.

(** X7. In a Bully sequence and in a Ring sequence no action before the
    last one sets a leader. *)
Theorem lider_solo_en_la_ultima_accion nodos iniciadorId :
  Forall (fun a => leaderId a = None) (removelast (simularBully nodos iniciadorId)) /\
  Forall (fun a => leaderId a = None)
         (removelast (simularRingCompleto nodos iniciadorId)).
Proof. split; [apply bully_sin_lider_antes | apply ring_sin_lider_antes]. Qed.

End ElectionExtra.

(** * Further properties of the election simulator *)

Module ElectionControl.
Import Election.

Ltac campos :=
  cbn [Estado.acciones Estado.memo_acciones Estado.numNodos
       Estado.algoritmoActivo Estado.nodos Estado.leaderId
       Estado.recentLeaderId Estado.logs Estado.modoIniciador
       Estado.nodoIniciador Estado.pasoIndex Estado.isPlaying
       Estado.mensajeActual].

(** Case analysis on every test of the goal. *)
Ltac rompe :=
  repeat match goal with
         | |- context [if ?c then _ else _] => destruct c
         | |- context [match ?x with _ => _ end] => destruct x
         end.

(** ** The cursor stays inside the sequence *)

Lemma render_campos s :
  List.length (Estado.memo_acciones (render s))
  = List.length (Estado.acciones (render s)) /\
  Estado.acciones (render s) = Estado.acciones s /\
  Estado.pasoIndex (render s) = Estado.pasoIndex s /\
  Estado.nodos (render s) = Estado.nodos s /\
  Estado.logs (render s) = Estado.logs s /\
  Estado.nodoIniciador (render s) = Estado.nodoIniciador s /\
  Estado.modoIniciador (render s) = Estado.modoIniciador s.
Proof.
  unfold render.
  destruct (List.length (Estado.acciones s)
            =? List.length (Estado.memo_acciones s))%nat eqn:E.
  - apply Nat.eqb_eq in E. now repeat split.
  - now repeat split.
Qed.

Lemma avanzarPaso_cursor s :
  cursor_en_rango s ->
  Estado.acciones (avanzarPaso s) = Estado.acciones s /\
  Estado.memo_acciones (avanzarPaso s) = Estado.memo_acciones s /\
  (Estado.pasoIndex (avanzarPaso s) <= List.length (Estado.acciones s))%nat.
Proof.
  intros [Hm Hp].
  destruct (nth_error (Estado.memo_acciones s) (Estado.pasoIndex s))
    as [acc|] eqn:E.
  - rewrite (ElectionSpec.avanzarPaso_en_rango s acc E).
    destruct (ElectionSpec.aplicar_conserva acc s) as (Ha & Hme & Hpi & _).
    assert (Estado.pasoIndex s < List.length (Estado.memo_acciones s))%nat
      by (apply nth_error_Some; congruence).
    campos. cbn. rewrite Ha, Hme. repeat split; lia.
  - apply nth_error_None in E. rewrite ElectionSpec.avanzarPaso_al_final by exact E.
    now repeat split.
Qed.

Lemma manejar_cursor e s : cursor_en_rango s -> cursor_en_rango (manejar e s).
Proof.
  intros Hc. pose proof Hc as [Hm Hp]. unfold cursor_en_rango, manejar.
  destruct (avanzarPaso_cursor s Hc) as (Aa & Am & Ap).
  match goal with
  | |- context [render ?t] =>
      destruct (render_campos t) as (R1 & R2 & R3 & _); rewrite R1, R2, R3
  end.
  split; [reflexivity|].
  destruct e as [n|a|ids| |i| | | | | | | | ].
  - now destruct ((0 <=? n) && (n <=? 99)).
  - exact Hp.
  - unfold handleGenerarNodos. destruct (_ || _); [exact Hp | cbn; lia].
  - exact Hp.
  - match goal with
    | |- (Estado.pasoIndex ?x <= _)%nat =>
        assert (E : Estado.acciones x = Estado.acciones s /\
                    Estado.pasoIndex x = Estado.pasoIndex s)
          by (unfold seleccionarIniciador, toggleFallarNodo; rompe; now split);
        destruct E as [E1 E2]; rewrite E1, E2; exact Hp
    end.
  - unfold handleIniciarEleccion.
    destruct (Estado.nodoIniciador s) as [ni|]; [|exact Hp].
    destruct (ni =? 0); [exact Hp|].
    destruct (List.length (Estado.nodos s) =? 0)%nat; [exact Hp | cbn; lia].
  - cbn. lia.
  - unfold handlePlay. rompe; exact Hp.
  - exact Hp.
  - unfold handlePaso. destruct (_ =? _)%nat; [exact Hp|]. now rewrite Aa.
  - exact Hp.
  - unfold temporizador. destruct (_ && _); [|exact Hp]. now rewrite Aa.
  - exact Hp.
Qed.

Lemma ejecutar_cursor es s : cursor_en_rango s -> cursor_en_rango (ejecutar es s).
Proof.
  revert s; induction es as [|e es IH]; intros s Hc; [exact Hc|].
  cbn. apply IH. now apply manejar_cursor.
Qed.

(** X8. In every state the election component can reach, the cursor is at
    most the length of the compiled sequence, and the sequence read by
    the memoised step function is as long as the compiled one. *)
Theorem cursor_siempre_en_rango s :
  alcanzable s ->
  (Estado.pasoIndex s <= List.length (Estado.acciones s))%nat /\
  List.length (Estado.memo_acciones s) = List.length (Estado.acciones s).
Proof.
  intros [es ->].
  destruct (ejecutar_cursor es estado_inicial) as [Hm Hp];
    [split; cbn; lia | now split].
Qed.

Lemma cursor_siempre_en_rango_witness :
  alcanzable estado_lider_81 /\
  (Estado.pasoIndex estado_lider_81
   <= List.length (Estado.acciones estado_lider_81))%nat.
Proof.
  assert (H : alcanzable estado_lider_81)
    by (exists sesion_primera_eleccion; reflexivity).
  split; [exact H|]. exact (proj1 (cursor_siempre_en_rango _ H)).
Defined.

(** ** Nodes: ids, failures, initiator *)

Lemma aplicar_nodos acc s :
  map id (Estado.nodos (aplicar acc s)) = map id (Estado.nodos s) /\
  map failed (Estado.nodos (aplicar acc s)) = map failed (Estado.nodos s).
Proof.
  unfold aplicar.
  destruct (leaderId acc); destruct (highlightIds acc) as [[|h hs]|];
    campos; cbn [setNodos Estado.nodos]; campos;
    rewrite !map_map; split; reflexivity.
Qed.

Lemma avanzarPaso_nodos s :
  map id (Estado.nodos (avanzarPaso s)) = map id (Estado.nodos s) /\
  map failed (Estado.nodos (avanzarPaso s)) = map failed (Estado.nodos s).
Proof.
  destruct (nth_error (Estado.memo_acciones s) (Estado.pasoIndex s))
    as [acc|] eqn:E.
  - rewrite (ElectionSpec.avanzarPaso_en_rango s acc E). apply aplicar_nodos.
  - apply nth_error_None in E. rewrite ElectionSpec.avanzarPaso_al_final by exact E.
    now split.
Qed.

Lemma toggleFallarNodo_nodos i s :
  Estado.nodos (toggleFallarNodo i s)
  = map (fun n => if id n =? i then mkNodo (id n) (negb (failed n)) false else n)
        (Estado.nodos s) /\
  Estado.modoIniciador (toggleFallarNodo i s) = Estado.modoIniciador s /\
  Estado.nodoIniciador (toggleFallarNodo i s) = Estado.nodoIniciador s.
Proof. unfold toggleFallarNodo. rompe; now repeat split. Qed.

Lemma seleccionarIniciador_nodos i s :
  map id (Estado.nodos (seleccionarIniciador i s)) = map id (Estado.nodos s) /\
  map failed (Estado.nodos (seleccionarIniciador i s))
  = map failed (Estado.nodos s).
Proof.
  unfold seleccionarIniciador.
  destruct (negb (Estado.modoIniciador s)); [now split|].
  destruct (find _ _) as [nodo|]; [destruct (failed nodo)|]; campos;
    try (now split).
  cbn. rewrite !map_map. now split.
Qed.

(** X9. An event that neither generates nodes nor restarts the simulator
    keeps the ids of the nodes, in order.  If it is not a click on a node
    either, it keeps their failed flags too. *)
Theorem nodos_conservados (e : Evento) (s : Estado.t) :
  ~ reemplaza_nodos e ->
  map id (Estado.nodos (manejar e s)) = map id (Estado.nodos s) /\
  ((forall i, e <> EvClicNodo i) ->
   map failed (Estado.nodos (manejar e s)) = map failed (Estado.nodos s)).
Proof.
  intros Hr. unfold manejar.
  match goal with
  | |- context [render ?t] =>
      destruct (render_campos t) as (_ & _ & _ & R & _); rewrite R
  end.
  destruct (avanzarPaso_nodos s) as [Ai Af].
  destruct e as [n|a|ids| |i| | | | | | | | ].
  - now destruct ((0 <=? n) && (n <=? 99)).
  - now split.
  - exfalso. apply Hr. left. now exists ids.
  - now split.
  - split; [|intros Hi; now destruct (Hi i)].
    destruct (Estado.modoIniciador s).
    + apply seleccionarIniciador_nodos.
    + destruct (toggleFallarNodo_nodos i s) as [-> _].
      rewrite map_map. apply map_ext. intros n. now destruct (id n =? i).
  - unfold handleIniciarEleccion.
    destruct (Estado.nodoIniciador s) as [ni|]; [|now split].
    destruct (ni =? 0); [now split|].
    destruct (List.length (Estado.nodos s) =? 0)%nat; [now split|].
    cbn. rewrite !map_map. now split.
  - exfalso. apply Hr. now right.
  - unfold handlePlay. now destruct (_ =? _)%nat.
  - now split.
  - unfold handlePaso. destruct (_ =? _)%nat; now split.
  - now split.
  - unfold temporizador. destruct (_ && _); now split.
  - now split.
Qed.

Lemma nodos_conservados_witness :
  map id (Estado.nodos (manejar EvPaso estado_lider_81)) = [12; 55; 30; 81].
Proof.
  assert (H : ~ reemplaza_nodos EvPaso).
  { intros [[ids Hi]|Hi]; discriminate. }
  exact (proj1 (nodos_conservados EvPaso estado_lider_81 H)).
Defined.

(** X10. Outside the initiator selection mode, clicking the same node twice
    gives back every node's id and failed flag. *)
Theorem fallar_y_revivir (i : Z) (s : Estado.t) :
  Estado.modoIniciador s = false ->
  map (fun n => (id n, failed n))
      (Estado.nodos (manejar (EvClicNodo i) (manejar (EvClicNodo i) s)))
  = map (fun n => (id n, failed n)) (Estado.nodos s).
Proof.
  intros Hm.
  assert (Hs : forall t, Estado.modoIniciador t = false ->
             Estado.nodos (manejar (EvClicNodo i) t)
             = map (fun n => if id n =? i
                             then mkNodo (id n) (negb (failed n)) false else n)
                   (Estado.nodos t) /\
             Estado.modoIniciador (manejar (EvClicNodo i) t) = false).
  { intros t Ht. unfold manejar. rewrite Ht.
    destruct (render_campos (toggleFallarNodo i t))
      as (_ & _ & _ & R & _ & _ & Rm).
    destruct (toggleFallarNodo_nodos i t) as (T & Tm & _).
    rewrite R, Rm, T, Tm. now split. }
  destruct (Hs s Hm) as [E1 Hm1].
  destruct (Hs _ Hm1) as [E2 _].
  rewrite E2, E1, !map_map. apply map_ext. intros n.
  destruct (id n =? i) eqn:E; cbn [id]; rewrite E; cbn;
    [now rewrite negb_involutive | reflexivity].
Qed.

Lemma fallar_y_revivir_witness :
  map (fun n => (id n, failed n))
      (Estado.nodos (manejar (EvClicNodo 12) (manejar (EvClicNodo 12) estado_lider_81)))
  = [(12, false); (55, true); (30, false); (81, false)].
Proof.
  exact (fallar_y_revivir 12 estado_lider_81 eq_refl).
Defined.

(** X11. An event leaves the chosen initiator as it was, or clears it while
    replacing the node set, or is a click in selection mode on an alive
    node, which becomes the initiator and ends the selection mode. *)
Theorem iniciador_solo_vivo (e : Evento) (s : Estado.t) :
  Estado.nodoIniciador (manejar e s) = Estado.nodoIniciador s \/
  (reemplaza_nodos e /\ Estado.nodoIniciador (manejar e s) = None) \/
  (exists i,
      e = EvClicNodo i /\ Estado.modoIniciador s = true /\
      iniciador_vivo (Estado.nodos s) i /\
      Estado.nodoIniciador (manejar e s) = Some i /\
      Estado.modoIniciador (manejar e s) = false).
Proof.
  unfold manejar.
  match goal with
  | |- context [render ?t] =>
      destruct (render_campos t) as (_ & _ & _ & _ & _ & R & Rm); rewrite R, Rm
  end.
  destruct e as [n|a|ids| |i| | | | | | | | ].
  - left. now destruct ((0 <=? n) && (n <=? 99)).
  - now left.
  - unfold handleGenerarNodos. destruct (_ || _); [now left|].
    right. left. split; [left; now exists ids | reflexivity].
  - now left.
  - destruct (Estado.modoIniciador s) eqn:Em.
    + unfold seleccionarIniciador. rewrite Em. cbn [negb].
      destruct (find (fun n => id n =? i) (Estado.nodos s)) as [nodo|] eqn:Ef;
        [|now left].
      destruct (failed nodo) eqn:Hf; [now left|].
      right. right. exists i. apply find_some in Ef as [Hin Hid].
      apply Z.eqb_eq in Hid. repeat split; try reflexivity.
      now exists nodo.
    + left. now destruct (toggleFallarNodo_nodos i s) as (_ & _ & ->).
  - left. unfold handleIniciarEleccion.
    destruct (Estado.nodoIniciador s) as [ni|] eqn:En; [|cbn; now rewrite En].
    destruct (ni =? 0); [cbn; now rewrite En|].
    destruct (List.length (Estado.nodos s) =? 0)%nat; cbn; now rewrite En.
  - right. left. split; [now right | reflexivity].
  - left. unfold handlePlay. now destruct (_ =? _)%nat.
  - now left.
  - left. unfold handlePaso. destruct (_ =? _)%nat; [reflexivity|].
    unfold avanzarPaso. destruct (_ <=? _)%nat; [reflexivity|].
    destruct (nth_error _ _) as [acc|]; [|reflexivity].
    unfold aplicar. rompe; reflexivity.
  - now left.
  - left. unfold temporizador. destruct (_ && _); [|reflexivity].
    unfold avanzarPaso. destruct (_ <=? _)%nat; [reflexivity|].
    destruct (nth_error _ _) as [acc|]; [|reflexivity].
    unfold aplicar. rompe; reflexivity.
  - now left.
Qed.

(** ** Playing a freshly compiled election to its end *)

Lemma lider_fold (accs : list SimAction) (t : Estado.t) :
  Estado.leaderId (fold_left paso_con accs t)
  = lider_final accs (Estado.leaderId t).
Proof.
  revert t; induction accs as [|a r IH]; intros t; [reflexivity|].
  cbn [fold_left]. rewrite IH. unfold lider_final. cbn [fold_left].
  f_equal. unfold paso_con. cbn.
  apply ElectionSpec.aplicar_leaderId.
Qed.

Lemma lider_final_ultimo (accs : list SimAction) (l x : option Z) :
  ultimo_leaderId accs = Some x -> lider_final accs l = x.
Proof.
  unfold ultimo_leaderId. destruct (rev accs) as [|a r] eqn:E; [discriminate|].
  intros Ha. assert (E' : accs = rev r ++ [a]).
  { rewrite <- (rev_involutive accs), E. reflexivity. }
  rewrite E'. unfold lider_final. rewrite fold_left_app. cbn. now rewrite Ha.
Qed.

Lemma avanzarPaso_secuencias t :
  Estado.acciones (avanzarPaso t) = Estado.acciones t /\
  Estado.memo_acciones (avanzarPaso t) = Estado.memo_acciones t.
Proof.
  destruct (nth_error (Estado.memo_acciones t) (Estado.pasoIndex t))
    as [acc|] eqn:E.
  - rewrite (ElectionSpec.avanzarPaso_en_rango t acc E).
    destruct (ElectionSpec.aplicar_conserva acc t) as (Ha & Hm & _).
    cbn. now split.
  - apply nth_error_None in E. rewrite ElectionSpec.avanzarPaso_al_final by exact E.
    now split.
Qed.

Lemma pasos_manuales (k : nat) (t : Estado.t) :
  Estado.memo_acciones t = Estado.acciones t ->
  Estado.acciones t <> [] ->
  Nat.iter k (manejar EvPaso) t = Nat.iter k avanzarPaso t /\
  Estado.memo_acciones (Nat.iter k avanzarPaso t) = Estado.memo_acciones t /\
  Estado.acciones (Nat.iter k avanzarPaso t) = Estado.acciones t.
Proof.
  intros Hm Hne. induction k as [|k (IH1 & IH2 & IH3)]; [now repeat split|].
  rewrite !Nat.iter_succ, IH1.
  set (tk := Nat.iter k avanzarPaso t) in *.
  destruct (avanzarPaso_secuencias tk) as [Ea Em].
  split; [|split; congruence].
  unfold manejar, handlePaso.
  replace (List.length (Estado.acciones tk) =? 0)%nat with false
    by (rewrite IH3; destruct (Estado.acciones t); [congruence | reflexivity]).
  unfold render. rewrite Ea, Em, IH2, IH3, Hm, Nat.eqb_refl. reflexivity.
Qed.

Lemma ring_lider_general nodos iniciadorId :
  iniciador_vivo nodos iniciadorId ->
  exists m,
    ultimo_leaderId (simularRingCompleto nodos iniciadorId) = Some (Some m) /\
    es_maximo m (map id (vivos nodos)).
Proof.
  intros H.
  destruct (ElectionSpec.ring_idsEnMensaje_spec _ _ H) as [Hset [cola Hcola]].
  destruct (ElectionExtra.ring_ultima_accion nodos iniciadorId H) as [previas E].
  exists (JS.Math_max (ring_idsEnMensaje nodos iniciadorId)). split.
  - rewrite E. apply ElectionSpec.ultimo_leaderId_app.
  - apply (ElectionSpec.es_maximo_mismos_elementos _ _ _ Hset).
    rewrite Hcola. apply ElectionSpec.Math_max_es_maximo.
Qed.

(** X12. From a state whose step function has never seen a sequence, with
    an alive initiator of id other than 0 chosen: starting the election
    and then pressing Step once per compiled action brings the cursor to
    the end of the sequence and leaves as leader the greatest alive id. *)
Theorem eleccion_reproducida (s : Estado.t) (i : Z) :
  Estado.memo_acciones s = [] ->
  Estado.nodoIniciador s = Some i ->
  i <> 0 ->
  iniciador_vivo (Estado.nodos s) i ->
  let s1 := manejar EvIniciarEleccion s in
  let s2 := Nat.iter (List.length (Estado.acciones s1)) (manejar EvPaso) s1 in
  Estado.pasoIndex s2 = List.length (Estado.acciones s1) /\
  exists m,
    Estado.leaderId s2 = Some m /\
    es_maximo m (map id (vivos (Estado.nodos s))).
Proof.
  intros Hmemo Hini Hi0 Hvivo s1 s2.
  set (sim := match Estado.algoritmoActivo s with
              | bully => simularBully (Estado.nodos s) i
              | ring => simularRingCompleto (Estado.nodos s) i
              end).
  assert (Hsim : exists m, ultimo_leaderId sim = Some (Some m) /\
                           es_maximo m (map id (vivos (Estado.nodos s)))).
  { unfold sim. destruct (Estado.algoritmoActivo s).
    - now apply ElectionSpec.bully_lider_general.
    - now apply ring_lider_general. }
  destruct Hsim as (m & Hult & Hmax).
  assert (Hne : sim <> []).
  { intros E. rewrite E in Hult. discriminate. }
  assert (Hnodos : (List.length (Estado.nodos s) =? 0)%nat = false).
  { destruct Hvivo as [n [Hn _]]. destruct (Estado.nodos s); [destruct Hn | reflexivity]. }
  assert (Hs1 : Estado.acciones s1 = sim /\ Estado.memo_acciones s1 = sim /\
                Estado.pasoIndex s1 = O).
  { unfold s1, manejar, handleIniciarEleccion. rewrite Hini.
    apply Z.eqb_neq in Hi0. rewrite Hi0, Hnodos. fold sim.
    match goal with
    | |- context [render ?t] =>
        assert (Ta : Estado.acciones t = sim) by reflexivity;
        assert (Tm : Estado.memo_acciones t = Estado.memo_acciones s) by reflexivity;
        assert (Tp : Estado.pasoIndex t = O) by reflexivity;
        generalize dependent t
    end.
    intros t Ta Tm Tp.
    unfold render. rewrite Ta, Tm, Hmemo.
    replace (List.length sim =? List.length (@nil SimAction))%nat with false
      by (destruct sim; [congruence | reflexivity]).
    cbn. now rewrite Ta, Tp. }
  destruct Hs1 as (Ha & Hm & Hp).
  destruct (pasos_manuales (List.length (Estado.acciones s1)) s1)
    as (Eiter & _ & _); [congruence | congruence|].
  unfold s2. rewrite Eiter.
  destruct (ElectionSpec.pasos_en_orden (List.length (Estado.acciones s1)) s1)
    as (Efold & Ecur & _); [rewrite Hp, Hm, Ha; cbn; lia|].
  rewrite Ecur, Hp. split; [reflexivity|].
  exists m. split; [|exact Hmax].
  rewrite Efold, lider_fold, Hp, Hm, Ha. cbn [skipn]. rewrite firstn_all.
  now apply lider_final_ultimo.
Qed.

Lemma eleccion_reproducida_witness :
  exists m,
    Estado.leaderId
      (Nat.iter 12 (manejar EvPaso) (manejar EvIniciarEleccion estado_anillo_listo))
    = Some m /\
    es_maximo m [13; 47; 22; 99].
Proof.
  assert (Hv : iniciador_vivo (Estado.nodos estado_anillo_listo) 47).
  { exists (mkNodo 47 false true). cbn. intuition. }
  exact (proj2 (eleccion_reproducida estado_anillo_listo 47 eq_refl eq_refl
                  ltac:(discriminate) Hv)).
Defined.

(** ** The trace is stamped by position *)

Lemma prefix_app (a b : string) : String.prefix a (a ++ b) = true.
Proof.
  induction a as [|c a IH]; [now destruct b|].
  cbn. destruct (ascii_dec c c); [exact IH | congruence].
Qed.

Lemma prefix_comun (a b c : string) :
  String.prefix (a ++ b) (a ++ c) = String.prefix b c.
Proof.
  induction a as [|x a IH]; [reflexivity|].
  cbn. destruct (ascii_dec x x); [exact IH | congruence].
Qed.

Lemma sellado_nueva_linea (logs : list string) (msg : string) :
  sellado logs ->
  sellado (logs ++ [ ("[t=" ++ JS.str (Z.of_nat (List.length logs)) ++ "] " ++ msg)%string ]).
Proof.
  intros H k l Hk.
  destruct (Nat.lt_ge_cases k (List.length logs)) as [Hlt|Hge].
  - rewrite nth_error_app1 in Hk by exact Hlt. now apply H.
  - rewrite nth_error_app2 in Hk by exact Hge.
    destruct (k - List.length logs)%nat as [|d] eqn:Ed.
    + cbn [nth_error] in Hk. injection Hk as <-.
      replace k with (List.length logs) by lia.
      change (String.prefix
                ("[t=" ++ (JS.str (Z.of_nat (List.length logs)) ++ "] "))
                ("[t=" ++ (JS.str (Z.of_nat (List.length logs)) ++ ("] " ++ msg)))
              = true).
      rewrite !prefix_comun. apply prefix_app.
    + cbn [nth_error] in Hk. destruct d; discriminate.
Qed.

Lemma sellado_vacio : sellado [].
Proof. intros [|k] l H; discriminate. Qed.

Lemma sellado_dos (a b : string) :
  String.prefix "[t=0] " a = true ->
  String.prefix "[t=1] " b = true ->
  sellado [a; b].
Proof.
  intros Ha Hb [|[|[|k]]] l H; cbn in H; try discriminate;
    injection H as <-; assumption.
Qed.

Ltac sin_setters :=
  cbn [Estado.logs setNumNodos setAlgoritmoActivo setNodos setLeaderId
       setRecentLeaderId setLogs setModoIniciador setNodoIniciador
       setAcciones setPasoIndex setIsPlaying setMensajeActual].

Lemma pushLog_sellado msg s :
  sellado (Estado.logs s) -> sellado (Estado.logs (pushLog msg s)).
Proof. intros H. unfold pushLog. sin_setters. now apply sellado_nueva_linea. Qed.

Lemma aplicar_sellado acc s :
  sellado (Estado.logs s) -> sellado (Estado.logs (aplicar acc s)).
Proof.
  intros H. unfold aplicar.
  destruct (highlightIds acc) as [[|h hs]|], (leaderId acc); sin_setters;
    now apply pushLog_sellado.
Qed.

Lemma avanzarPaso_sellado s :
  sellado (Estado.logs s) -> sellado (Estado.logs (avanzarPaso s)).
Proof.
  intros H. unfold avanzarPaso.
  destruct (_ <=? _)%nat; [exact H|].
  destruct (nth_error _ _); [|exact H].
  sin_setters. now apply aplicar_sellado.
Qed.

Lemma toggleFallarNodo_sellado i s :
  sellado (Estado.logs s) -> sellado (Estado.logs (toggleFallarNodo i s)).
Proof.
  intros H. unfold toggleFallarNodo.
  destruct (Estado.leaderId s); [destruct (_ && _)|];
    repeat (apply pushLog_sellado; sin_setters); exact H.
Qed.

Lemma seleccionarIniciador_sellado i s :
  sellado (Estado.logs s) -> sellado (Estado.logs (seleccionarIniciador i s)).
Proof.
  intros H. unfold seleccionarIniciador.
  destruct (negb _); [exact H|].
  destruct (find _ _) as [nodo|]; [destruct (failed nodo)|];
    apply pushLog_sellado; sin_setters; exact H.
Qed.

Lemma handleIniciarEleccion_sellado s :
  sellado (Estado.logs s) -> sellado (Estado.logs (handleIniciarEleccion s)).
Proof.
  intros H. unfold handleIniciarEleccion.
  destruct (Estado.nodoIniciador s) as [i|]; [|now apply pushLog_sellado].
  destruct (i =? 0); [now apply pushLog_sellado|].
  destruct (_ =? _)%nat; [now apply pushLog_sellado|].
  sin_setters. apply pushLog_sellado. sin_setters. exact H.
Qed.

Lemma manejar_sellado e s :
  sellado (Estado.logs s) -> sellado (Estado.logs (manejar e s)).
Proof.
  intros H. unfold manejar.
  match goal with
  | |- context [render ?t] =>
      destruct (render_campos t) as (_ & _ & _ & _ & R & _); rewrite R
  end.
  destruct e.
  - destruct (_ && _); [sin_setters|]; exact H.
  - exact H.
  - unfold handleGenerarNodos. destruct (_ || _); sin_setters; [exact H|].
    apply sellado_dos; reflexivity.
  - exact H.
  - destruct (Estado.modoIniciador s);
      [now apply seleccionarIniciador_sellado | now apply toggleFallarNodo_sellado].
  - now apply handleIniciarEleccion_sellado.
  - unfold reiniciar. sin_setters. apply sellado_dos; reflexivity.
  - unfold handlePlay. destruct (_ =? _)%nat; [now apply pushLog_sellado | exact H].
  - exact H.
  - unfold handlePaso. destruct (_ =? _)%nat;
      [now apply pushLog_sellado | now apply avanzarPaso_sellado].
  - apply sellado_vacio.
  - unfold temporizador. destruct (_ && _); [now apply avanzarPaso_sellado | exact H].
  - exact H.
Qed.

(** X13. In every state the election component can reach, the [k]-th line
    of the trace starts with the stamp of [k]. *)
Theorem traza_sellada s :
  alcanzable s -> sellado (Estado.logs s).
Proof.
  intros [es ->]. unfold ejecutar.
  assert (H0 : sellado (Estado.logs estado_inicial)) by apply sellado_vacio.
  revert H0. generalize estado_inicial.
  induction es as [|e es IH]; intros t Ht; [exact Ht|].
  cbn [fold_left]. apply IH. now apply manejar_sellado.
Qed.

Lemma traza_sellada_witness :
  alcanzable estado_lider_81 /\
  nth_error (Estado.logs estado_lider_81) 8
  = Some "[t=8] El nodo con mayor ID activo es 81. Se convierte en el nuevo líder."%string /\
  String.prefix "[t=8] "
    "[t=8] El nodo con mayor ID activo es 81. Se convierte en el nuevo líder."
  = true.
Proof.
  assert (H : alcanzable estado_lider_81)
    by (exists sesion_primera_eleccion; reflexivity).
  assert (E : nth_error (Estado.logs estado_lider_81) 8
              = Some "[t=8] El nodo con mayor ID activo es 81. Se convierte en el nuevo líder."%string)
    by reflexivity.
  split; [exact H|]. split; [exact E|].
  exact (traza_sellada estado_lider_81 H 8%nat _ E).
Defined.

End ElectionControl.

(** * Binary64 arithmetic of the sampled values

    What the rounding of [Math.random() * n] and of
    [Math.random() * 6000 - 3000] to the nearest binary64 value leaves of
    the bounds the exact product and difference have. *)

Module DoubleSpec.

(** ** Digits *)

Lemma digitos_cotas (p : positive) :
  2 ^ (Zpos (digits2_pos p) - 1) <= Zpos p < 2 ^ Zpos (digits2_pos p).
Proof.
  induction p as [p IH|p IH|]; cbn [digits2_pos].
  - rewrite Pos2Z.inj_succ, (Pos2Z.inj_xI p).
    replace (Z.succ (Zpos (digits2_pos p)) - 1) with (Z.succ (Zpos (digits2_pos p) - 1))
      by lia.
    rewrite !Z.pow_succ_r by lia.
    generalize dependent (2 ^ (Zpos (digits2_pos p) - 1)).
    generalize (2 ^ Zpos (digits2_pos p)). intros; lia.
  - rewrite Pos2Z.inj_succ, (Pos2Z.inj_xO p).
    replace (Z.succ (Zpos (digits2_pos p)) - 1) with (Z.succ (Zpos (digits2_pos p) - 1))
      by lia.
    rewrite !Z.pow_succ_r by lia.
    generalize dependent (2 ^ (Zpos (digits2_pos p) - 1)).
    generalize (2 ^ Zpos (digits2_pos p)). intros; lia.
  - cbn. lia.
Qed.

Lemma iter_xO (p q : positive) :
  Zpos (Pos.iter xO p q) = Zpos p * 2 ^ Zpos q /\
  digits2_pos (Pos.iter xO p q) = (digits2_pos p + q)%positive.
Proof.
  induction q as [|q IH] using Pos.peano_ind.
  - cbn [Pos.iter]. split; [rewrite (Pos2Z.inj_xO p); change (2 ^ 1) with 2; lia|].
    cbn [digits2_pos]. lia.
  - rewrite Pos.iter_succ. destruct IH as [IH1 IH2]. split.
    + rewrite (Pos2Z.inj_xO (Pos.iter xO p q)), IH1, Pos2Z.inj_succ, Z.pow_succ_r by lia. lia.
    + cbn [digits2_pos]. rewrite IH2. lia.
Qed.

(** ** Shifting right *)

Lemma iter_pos_inv {A : Type} (f : A -> A) (I : Z -> A -> Prop) :
  (forall k x, 0 <= k -> I k x -> I (k + 1) (f x)) ->
  forall p k x, 0 <= k -> I k x -> I (k + Zpos p) (iter_pos f p x).
Proof.
  intros Hf. induction p as [p IH|p IH|]; intros k x Hk Hx; cbn [iter_pos].
  - replace (k + Zpos p~1) with (k + 1 + Zpos p + Zpos p) by lia.
    apply IH; [lia|]. apply IH; [lia|]. now apply Hf.
  - replace (k + Zpos p~0) with (k + Zpos p + Zpos p) by lia.
    apply IH; [lia|]. now apply IH.
  - now apply Hf.
Qed.

Lemma shr_1_cortado (P k : Z) (r : shr_record) :
  0 <= k -> JS.cortado P k r -> JS.cortado P (k + 1) (shr_1 r).
Proof.
  intros Hk (Hm & Hle & _). destruct r as [m r s]. cbn [shr_m shr_r] in *.
  assert (H2 : 0 < 2 ^ k) by (apply Z.pow_pos_nonneg; lia).
  assert (Hp : 2 ^ (k + 1) = 2 * 2 ^ k)
    by (rewrite Z.pow_add_r by lia; change (2 ^ 1) with 2; lia).
  unfold JS.cortado, shr_1.
  destruct m as [|[p|p|]|p]; cbn [shr_m shr_r]; rewrite Hp;
    try rewrite (Pos2Z.inj_xI p) in Hle; try rewrite (Pos2Z.inj_xO p) in Hle;
    repeat split; intros; try discriminate; try lia; nia.
Qed.

Lemma shr_cortado (P : Z) (r : shr_record) (e n : Z) :
  JS.cortado P 0 r ->
  exists k, 0 <= k /\ k = Z.max 0 n /\
            snd (shr r e n) = e + k /\ JS.cortado P k (fst (shr r e n)).
Proof.
  intros H. unfold shr. destruct n as [|p|p]; cbn [fst snd].
  - exists 0. split; [lia|]. split; [lia|]. split; [lia | exact H].
  - exists (Zpos p). split; [lia|]. split; [lia|]. split; [reflexivity|].
    apply (iter_pos_inv shr_1 (JS.cortado P) (shr_1_cortado P) p 0 r);
      [lia | exact H].
  - exists 0. split; [lia|]. split; [lia|]. split; [lia | exact H].
Qed.

Lemma redondeo_cortado (P k : Z) (r : shr_record) :
  0 <= k -> JS.cortado P k r ->
  0 <= round_nearest_even (shr_m r) (loc_of_shr_record r) /\
  2 * round_nearest_even (shr_m r) (loc_of_shr_record r) * 2 ^ k <= 2 * P + 2 ^ k.
Proof.
  intros Hk (Hm & Hle & Hr).
  assert (H2 : 0 < 2 ^ k) by (apply Z.pow_pos_nonneg; lia).
  destruct r as [m [|] [|]]; cbn [shr_m shr_r loc_of_shr_record round_nearest_even] in *;
    try specialize (Hr eq_refl); try destruct (Z.even m); split; try lia; nia.
Qed.

Lemma cortado_inicio (m : Z) :
  0 <= m -> JS.cortado m 0 (shr_record_of_loc m loc_Exact).
Proof.
  intros H. unfold JS.cortado. cbn [shr_record_of_loc shr_m shr_r].
  split; [exact H|]. split; [lia | discriminate].
Qed.

(** ** Rounding *)

(** The result of rounding [P * 2^E], [P] positive: with [k] the number of
    digits first cut, a mantissa [m3] below 2^53 and an exponent [e3] at
    least [E + k] such that [m3 * 2^e3] exceeds [P * 2^E] by at most half
    a unit of the exponent [E + k]. *)
Lemma redondeo_forma (sx : bool) (P : positive) (E : Z) :
  let k := Z.max 0 (fexp 53 1024 (Zpos (digits2_pos P) + E) - E) in
  exists m3 e3,
    0 <= m3 < 2 ^ 53 /\
    E + k <= e3 /\
    2 * m3 * 2 ^ (e3 - E) <= 2 * Zpos P + 2 ^ k /\
    binary_round_aux 53 1024 sx (Zpos P) E loc_Exact
    = match m3 with
      | Z0 => S754_zero sx
      | Zpos m => if e3 <=? 971 then S754_finite sx m e3 else S754_infinity sx
      | Zneg _ => S754_nan
      end.
Proof.
  intros k. unfold binary_round_aux, shr_fexp.
  cbn [Zdigits2].
  destruct (shr_cortado (Zpos P) (shr_record_of_loc (Zpos P) loc_Exact) E
              (fexp 53 1024 (Zpos (digits2_pos P) + E) - E)
              (cortado_inicio (Zpos P) (Pos2Z.is_nonneg P)))
    as (k1 & Hk1 & Ek1 & He1 & Hc1).
  fold k in Ek1. subst k1.
  destruct (shr (shr_record_of_loc (Zpos P) loc_Exact) E
                (fexp 53 1024 (Zpos (digits2_pos P) + E) - E)) as [mrs1 e1].
  cbn [fst snd] in He1, Hc1. subst e1.
  destruct (redondeo_cortado _ _ _ Hk1 Hc1) as [Hm2 Hb2].
  set (m2 := round_nearest_even (shr_m mrs1) (loc_of_shr_record mrs1)) in *.
  destruct (shr_cortado m2 (shr_record_of_loc m2 loc_Exact) (E + k)
              (fexp 53 1024 (Zdigits2 m2 + (E + k)) - (E + k))
              (cortado_inicio _ Hm2))
    as (k2 & Hk2 & Ek2 & He2 & Hc2).
  destruct (shr (shr_record_of_loc m2 loc_Exact) (E + k)
                (fexp 53 1024 (Zdigits2 m2 + (E + k)) - (E + k))) as [mrs2 e2].
  cbn [fst snd] in He2, Hc2. subst e2.
  destruct Hc2 as (Hm3 & Hle3 & _).
  exists (shr_m mrs2), (E + k + k2).
  assert (H2k : 0 < 2 ^ k) by (apply Z.pow_pos_nonneg; lia).
  assert (H2k2 : 0 < 2 ^ k2) by (apply Z.pow_pos_nonneg; lia).
  split; [split; [exact Hm3|]|split; [lia|split]].
  - (* at most 53 digits *)
    destruct m2 as [|p2|p2]; [lia| |lia].
    cbn [Zdigits2] in Ek2.
    pose proof (digitos_cotas p2) as [_ Hd2].
    unfold fexp, emin in Ek2.
    destruct (Z_le_gt_dec (Zpos (digits2_pos p2)) 53) as [Hd|Hd].
    + assert (Zpos p2 < 2 ^ 53).
      { eapply Z.lt_le_trans; [exact Hd2|]. apply Z.pow_le_mono_r; lia. }
      nia.
    + assert (Hk2' : Zpos (digits2_pos p2) - 53 <= k2) by lia.
      assert (2 ^ Zpos (digits2_pos p2) <= 2 ^ 53 * 2 ^ k2).
      { rewrite <- Z.pow_add_r by lia. apply Z.pow_le_mono_r; lia. }
      nia.
  - replace (E + k + k2 - E) with (k2 + k) by lia.
    rewrite Z.pow_add_r by lia. nia.
  - change (1024 - 53) with 971. destruct (shr_m mrs2); reflexivity.
Qed.

(** The sign and the form of the result. *)
Lemma redondeo_cota (sx : bool) (P : positive) (E : Z) :
  let k := Z.max 0 (fexp 53 1024 (Zpos (digits2_pos P) + E) - E) in
  match binary_round_aux 53 1024 sx (Zpos P) E loc_Exact with
  | S754_zero s => s = sx
  | S754_infinity s => s = sx
  | S754_nan => False
  | S754_finite s m3 e3 =>
      s = sx /\ E + k <= e3 /\
      2 * Zpos m3 * 2 ^ (e3 - E) <= 2 * Zpos P + 2 ^ k /\
      Zpos m3 < 2 ^ 53
  end.
Proof.
  intros k. destruct (redondeo_forma sx P E) as (m3 & e3 & Hm & He & Hc & ->).
  fold k in He, Hc.
  destruct m3 as [|m|m]; [reflexivity | | lia].
  destruct (e3 <=? 971); [|reflexivity]. repeat split; try lia.
Qed.

(** A mantissa already cut to its exponent is kept as it is. *)
Lemma redondeo_exacto (sx : bool) (P : positive) (E : Z) :
  fexp 53 1024 (Zpos (digits2_pos P) + E) <= E ->
  E <= 971 ->
  binary_round_aux 53 1024 sx (Zpos P) E loc_Exact = S754_finite sx P E.
Proof.
  intros Hf HE. unfold binary_round_aux, shr_fexp. cbn [Zdigits2].
  assert (Hs : forall r, shr r E (fexp 53 1024 (Zpos (digits2_pos P) + E) - E) = (r, E)).
  { intros r. unfold shr.
    destruct (fexp 53 1024 (Zpos (digits2_pos P) + E) - E) eqn:En; try reflexivity. lia. }
  rewrite Hs. cbn [shr_record_of_loc shr_m loc_of_shr_record round_nearest_even Zdigits2].
  rewrite Hs. cbn [shr_m].
  destruct (Z.leb_spec E (1024 - 53)); [reflexivity | lia].
Qed.

(** The binary64 value of a positive integer below 2^53: the integer
    itself, on 53 digits. *)
Lemma double_of_Z_positivo (n : Z) :
  1 <= n < 2 ^ 53 ->
  exists my ey,
    JS.double_of_Z n = S754_finite false my ey /\
    -52 <= ey <= 0 /\
    Zpos my = n * 2 ^ (- ey) /\
    2 ^ 52 <= Zpos my < 2 ^ 53.
Proof.
  intros [H1 H53]. destruct n as [|p|p]; try lia.
  unfold JS.double_of_Z, binary_normalize, binary_round, shl_align.
  pose proof (digitos_cotas p) as [Hd1 Hd2].
  set (d := Zpos (digits2_pos p)) in *.
  assert (Hd : 1 <= d <= 53).
  { split; [unfold d; lia|].
    destruct (Z_le_gt_dec d 53) as [H|H]; [exact H | exfalso].
    assert (2 ^ 53 <= 2 ^ (d - 1)) by (apply Z.pow_le_mono_r; lia). lia. }
  assert (Hf : fexp 53 1024 (d + 0) = d - 53) by (unfold fexp, emin; lia).
  rewrite Hf.
  destruct (d - 53 - 0) as [|q|q] eqn:Eq; try lia.
  - (* 53 digits already *)
    rewrite redondeo_exacto; [|fold d; unfold fexp, emin; lia | lia].
    exists p, 0. split; [reflexivity|]. split; [lia|]. split; [cbn; lia|].
    replace (d - 1) with 52 in Hd1 by lia. split; [exact Hd1 | exact H53].
  - destruct (iter_xO p q) as [Hv Hdig].
    rewrite redondeo_exacto.
    + exists (Pos.iter xO p q), (d - 53). split; [reflexivity|]. split; [lia|].
      replace (- (d - 53)) with (Zpos q) by lia. split; [exact Hv|].
      rewrite Hv.
      assert (2 ^ 52 = 2 ^ (d - 1) * 2 ^ Zpos q).
      { rewrite <- Z.pow_add_r by lia. f_equal; lia. }
      assert (2 ^ 53 = 2 ^ d * 2 ^ Zpos q).
      { rewrite <- Z.pow_add_r by lia. f_equal; lia. }
      assert (0 < 2 ^ Zpos q) by (apply Z.pow_pos_nonneg; lia). nia.
    + rewrite Hdig, Pos2Z.inj_add. fold d. unfold fexp, emin. lia.
    + lia.
Qed.

(** The sign and the form of a rounded integer. *)
Lemma double_of_Z_negativo (n : Z) :
  n < 0 ->
  match JS.double_of_Z n with
  | S754_zero s => s = true
  | S754_infinity s => s = true
  | S754_nan => False
  | S754_finite s _ _ => s = true
  end.
Proof.
  intros Hn. destruct n as [|p|p]; try lia.
  unfold JS.double_of_Z, binary_normalize, binary_round.
  destruct (shl_align p 0 _) as [mz ez].
  pose proof (redondeo_cota true mz ez) as H. cbv zeta in H.
  destruct (binary_round_aux 53 1024 true (Zpos mz) ez loc_Exact); tauto.
Qed.

(** ** The product of a draw and an integer *)

(** The product of a draw [u] and an integer [n] from 1 to 2^53 - 1 is a
    zero or a finite value of at most 53 digits that is less than [n]:
    rounding the product to the nearest binary64 value does not reach
    [n].  In units of [2^g]: [m3 * 2^(e3 - g) < n * 2^(-g)]. *)
Lemma producto_forma (u : JS.double) (n : Z) :
  JS.en_unidad u = true -> 1 <= n < 2 ^ 53 ->
  (exists s, JS.double_mul u (JS.double_of_Z n) = S754_zero s) \/
  exists m3 e3,
    JS.double_mul u (JS.double_of_Z n) = S754_finite false m3 e3 /\
    Zpos m3 < 2 ^ 53 /\ -1126 <= e3 /\
    forall g, g <= e3 -> g <= 0 -> Zpos m3 * 2 ^ (e3 - g) < n * 2 ^ (- g).
Proof.
  intros Hu Hn.
  destruct (double_of_Z_positivo n Hn) as (my & ey & -> & Hey & Hmy & Hmy52).
  destruct u as [s|s| |[|] m e]; try discriminate;
    [left; exists (xorb s false); reflexivity|].
  unfold JS.en_unidad in Hu.
  apply andb_prop in Hu as [Hu Hlt]. apply andb_prop in Hu as [Hb He].
  apply Z.ltb_lt in He, Hlt.
  unfold bounded, canonical_mantissa in Hb.
  apply andb_prop in Hb as [Hcan _]. apply Z.eqb_eq in Hcan.
  unfold JS.double_mul, SFmul. cbn [xorb].
  destruct (redondeo_forma false (m * my) (e + ey))
    as (m3 & e3 & Hm3 & HE & Hcota & ->).
  set (A := 2 ^ (- e)) in *.
  assert (HA : 2 <= A).
  { unfold A. change 2 with (2 ^ 1) at 1. apply Z.pow_le_mono_r; lia. }
  pose proof (digitos_cotas m) as [_ Hdm].
  pose proof (digitos_cotas (m * my)) as [HdP _].
  set (dP := Zpos (digits2_pos (m * my))) in *.
  set (dm := Zpos (digits2_pos m)) in *.
  assert (Hdm53 : dm <= 53) by (unfold fexp, emin in Hcan; lia).
  assert (Hemin : -1074 <= e) by (unfold fexp, emin in Hcan; lia).
  assert (Hm53 : Zpos m < 2 ^ 53).
  { eapply Z.lt_le_trans; [exact Hdm|]. apply Z.pow_le_mono_r; lia. }
  rewrite Pos2Z.inj_mul in *.
  set (k := Z.max 0 (fexp 53 1024 (dP + (e + ey)) - (e + ey))) in *.
  assert (HE' : e + ey <= e3) by lia.
  (* the bound, in units of [2^(e + ey)] *)
  assert (Hobj : m3 * 2 ^ (e3 - (e + ey)) < Zpos my * A).
  { assert (Hsuf : 2 * (Zpos m * Zpos my) + 2 ^ k < 2 * (Zpos my * A)).
    { unfold fexp, emin in k.
      destruct (Z_le_gt_dec (dP - 53) 0) as [Hd0|Hd0];
        [|destruct (Z_le_gt_dec (dP - 53) (-1074 - (e + ey))) as [Hd1|Hd1]].
      - (* no digit is cut beyond the least exponent *)
        assert (Hk : k <= 52) by (unfold k; lia).
        assert (2 ^ k <= 2 ^ 52) by (apply Z.pow_le_mono_r; unfold k; lia).
        nia.
      - assert (Hk : k <= 52) by (unfold k; lia).
        assert (2 ^ k <= 2 ^ 52) by (apply Z.pow_le_mono_r; unfold k; lia).
        nia.
      - (* the product is cut to 53 digits *)
        assert (Hk : k = dP - 53) by (unfold k; lia).
        assert (Hk52 : 2 ^ k * 2 ^ 52 = 2 ^ (dP - 1)).
        { rewrite <- Z.pow_add_r by lia. f_equal; lia. }
        assert (HU : Zpos m * 2 ^ 53 <= A * (2 ^ 53 - 1)).
        { destruct (Z_le_gt_dec (- e) 53) as [He53|He53].
          - assert (A <= 2 ^ 53) by (apply Z.pow_le_mono_r; lia). nia.
          - assert (2 ^ 54 <= A) by (apply Z.pow_le_mono_r; lia).
            change (2 ^ 54) with (2 * 2 ^ 53) in *. nia. }
        set (B := 2 ^ 53) in *.
        assert (HB : 0 < B) by (unfold B; lia).
        assert (H1 : 2 ^ k * B <= 2 * (Zpos m * Zpos my)).
        { unfold B. change (2 ^ 53) with (2 ^ 52 * 2). nia. }
        assert (H2 : (2 * (Zpos m * Zpos my) + 2 ^ k) * B
                     <= 2 * (Zpos m * Zpos my) * (B + 1)) by nia.
        assert (H3 : 2 * (Zpos m * Zpos my) * (B + 1) * B
                     <= 2 * Zpos my * (A * (B - 1)) * (B + 1)) by nia.
        assert (H4 : 2 * Zpos my * (A * (B - 1)) * (B + 1)
                     < 2 * (Zpos my * A) * (B * B)) by nia.
        assert (H5 : (2 * (Zpos m * Zpos my) + 2 ^ k) * (B * B)
                     < 2 * (Zpos my * A) * (B * B)) by nia.
        nia. }
    lia. }
  assert (HnA : n * 2 ^ (- (e + ey)) = Zpos my * A).
  { unfold A. rewrite Hmy.
    replace (- (e + ey)) with (- ey + - e) by lia.
    rewrite Z.pow_add_r by lia. ring. }
  destruct m3 as [|m3|m3]; [left; now exists false | right | lia].
  (* the exponent is far from the largest *)
  assert (He3 : e3 < 53).
  { assert (H0 : 0 < 2 ^ (e3 - (e + ey))) by (apply Z.pow_pos_nonneg; lia).
    assert (H1 : 2 ^ (e3 - (e + ey)) < 2 ^ 53 * A) by nia.
    unfold A in H1. rewrite <- Z.pow_add_r in H1 by lia.
    apply Z.pow_lt_mono_r_iff in H1; lia. }
  destruct (Z.leb_spec e3 971); [|lia].
  exists m3, e3. split; [reflexivity|]. split; [lia|]. split; [lia|].
  intros g Hg Hg0. rewrite <- HnA in Hobj.
  destruct (Z_le_gt_dec g (e + ey)) as [Hge|Hge].
  - assert (Hp : 2 ^ (e3 - g) = 2 ^ (e3 - (e + ey)) * 2 ^ (e + ey - g)).
    { rewrite <- Z.pow_add_r by lia. f_equal; lia. }
    assert (Hq : 2 ^ (- g) = 2 ^ (- (e + ey)) * 2 ^ (e + ey - g)).
    { rewrite <- Z.pow_add_r by lia. f_equal; lia. }
    assert (0 < 2 ^ (e + ey - g)) by (apply Z.pow_pos_nonneg; lia).
    rewrite Hp, Hq. nia.
  - assert (Hp : 2 ^ (e3 - (e + ey)) = 2 ^ (e3 - g) * 2 ^ (g - (e + ey))).
    { rewrite <- Z.pow_add_r by lia. f_equal; lia. }
    assert (Hq : 2 ^ (- (e + ey)) = 2 ^ (- g) * 2 ^ (g - (e + ey))).
    { rewrite <- Z.pow_add_r by lia. f_equal; lia. }
    assert (0 < 2 ^ (g - (e + ey))) by (apply Z.pow_pos_nonneg; lia).
    rewrite Hp, Hq in Hobj. nia.
Qed.

(** [Math.floor] of a positive value below [N], and of a negative value of
    size at most [N]. *)
Lemma floor_menor (m : positive) (e N : Z) :
  (forall g, g <= e -> g <= 0 -> Zpos m * 2 ^ (e - g) < N * 2 ^ (- g)) ->
  0 <= JS.Math_floor (S754_finite false m e) <= N - 1.
Proof.
  intros Hv. unfold JS.Math_floor.
  destruct (Z.ltb_spec e 0) as [H3|H3].
  - pose proof (Hv e ltac:(lia) ltac:(lia)) as H.
    rewrite Z.sub_diag, Z.mul_1_r in H.
    split; [apply Z.div_pos; [lia | apply Z.pow_pos_nonneg; lia]|].
    assert (Zpos m / 2 ^ (- e) < N); [|lia].
    apply Z.div_lt_upper_bound; [apply Z.pow_pos_nonneg; lia | lia].
  - pose proof (Hv 0 ltac:(lia) ltac:(lia)) as H.
    rewrite Z.sub_0_r in H. change (2 ^ (- 0)) with 1 in H.
    assert (0 < 2 ^ e) by (apply Z.pow_pos_nonneg; lia). nia.
Qed.

Lemma floor_mayor (m : positive) (e N g : Z) :
  g <= e -> g <= 0 -> Zpos m * 2 ^ (e - g) <= N * 2 ^ (- g) ->
  - N <= JS.Math_floor (S754_finite true m e).
Proof.
  intros Hg Hg0 Hv. unfold JS.Math_floor.
  assert (H2g : 0 < 2 ^ (- g)) by (apply Z.pow_pos_nonneg; lia).
  destruct (Z.ltb_spec e 0) as [H3|H3].
  - assert (H2e : 0 < 2 ^ (- e)) by (apply Z.pow_pos_nonneg; lia).
    assert (Hp : 2 ^ (- g) = 2 ^ (- e) * 2 ^ (e - g)).
    { rewrite <- Z.pow_add_r by lia. f_equal; lia. }
    assert (0 < 2 ^ (e - g)) by (apply Z.pow_pos_nonneg; lia).
    apply Z.div_le_lower_bound; [exact H2e|].
    rewrite Hp in Hv. nia.
  - assert (Hp : 2 ^ (e - g) = 2 ^ e * 2 ^ (- g)).
    { rewrite <- Z.pow_add_r by lia. f_equal; lia. }
    assert (0 < 2 ^ e) by (apply Z.pow_pos_nonneg; lia).
    rewrite Hp in Hv. nia.
Qed.

(** [Math.floor(u * n)] is at least 0 and at most [n - 1]. *)
Lemma floor_producto (u : JS.double) (n : Z) :
  JS.en_unidad u = true -> 1 <= n < 2 ^ 53 ->
  0 <= JS.Math_floor (JS.double_mul u (JS.double_of_Z n)) <= n - 1.
Proof.
  intros Hu Hn.
  destruct (producto_forma u n Hu Hn) as [[s ->]|(m3 & e3 & -> & _ & _ & Hv)];
    [cbn; lia|].
  now apply floor_menor.
Qed.

Lemma producto_finito (u : JS.double) (n : Z) :
  JS.en_unidad u = true -> 0 <= n < 2 ^ 53 ->
  JS.es_finito (JS.double_mul u (JS.double_of_Z n)) = true.
Proof.
  intros Hu Hn. destruct (Z.eq_dec n 0) as [->|Hn0].
  { destruct u as [s|s| |[|] m e]; try discriminate; reflexivity. }
  destruct (producto_forma u n Hu ltac:(lia)) as [[s ->]|(m3 & e3 & -> & _)];
    reflexivity.
Qed.

Lemma floor_negativo (m : positive) (e : Z) :
  JS.Math_floor (S754_finite true m e) <= 0.
Proof.
  unfold JS.Math_floor. destruct (e <? 0).
  - assert (0 < 2 ^ (- e) \/ 2 ^ (- e) = 0) as [H|H].
    { pose proof (Z.pow_nonneg 2 (- e) ltac:(lia)). lia. }
    + apply Z.lt_succ_r. apply Z.div_lt_upper_bound; [exact H | nia].
    + rewrite H. now destruct (Zneg m).
  - pose proof (Z.pow_nonneg 2 e ltac:(lia)). nia.
Qed.

Lemma floor_producto_no_positivo (u : JS.double) (n : Z) :
  JS.en_unidad u = true -> n <= 0 ->
  JS.Math_floor (JS.double_mul u (JS.double_of_Z n)) <= 0.
Proof.
  intros Hu Hn.
  destruct (Z.eq_dec n 0) as [->|Hn0].
  { destruct u as [s|s| |[|] m e]; try discriminate; cbn; lia. }
  pose proof (double_of_Z_negativo n ltac:(lia)) as Hf.
  destruct (JS.double_of_Z n) as [sy|sy| |sy my ey]; try contradiction; subst sy.
  - destruct u as [s|s| |[|] m e]; try discriminate; cbn; lia.
  - destruct u as [s|s| |[|] m e]; try discriminate; cbn; lia.
  - destruct u as [s|s| |[|] m e]; try discriminate; try (cbn; lia).
    unfold JS.double_mul, SFmul. cbn [xorb].
    pose proof (redondeo_cota true (m * my) (e + ey)) as H. cbv zeta in H.
    destruct (binary_round_aux 53 1024 true (Zpos (m * my)) (e + ey) loc_Exact)
      as [s|s| |s m3 e3]; try (cbn; lia).
    destruct H as (-> & _). apply floor_negativo.
Qed.

(** A sampled delay. *)
Lemma latencia_cotas (u : JS.double) (latenciaMax : Z) :
  JS.en_unidad u = true -> latenciaMax < 2 ^ 53 ->
  5 <= ClockSync.latencia u latenciaMax <= Z.max 5 (latenciaMax - 1).
Proof.
  intros Hu Hl. unfold ClockSync.latencia.
  destruct (Z_le_gt_dec latenciaMax 0) as [H0|H0].
  - pose proof (floor_producto_no_positivo u latenciaMax Hu H0). lia.
  - pose proof (floor_producto u latenciaMax Hu ltac:(lia)). lia.
Qed.

(** ** The difference that gives an initial offset *)

Lemma shl_align_valor (m : positive) (e e' : Z) :
  e' <= e ->
  Zpos (fst (shl_align m e e')) = Zpos m * 2 ^ (e - e') /\
  snd (shl_align m e e') = e' /\
  Zpos (digits2_pos (fst (shl_align m e e'))) = Zpos (digits2_pos m) + (e - e').
Proof.
  intros H. unfold shl_align.
  destruct (e' - e) as [|d|d] eqn:Ed; try lia; cbn [fst snd].
  - replace (e - e') with 0 by lia. cbn. split; [lia|]. split; lia.
  - destruct (iter_xO m d) as [Hv Hd]. rewrite Hv, Hd.
    replace (e - e') with (Zpos d) by lia. split; [reflexivity|].
    split; [reflexivity | lia].
Qed.

Lemma shl_align_quieto (m : positive) (e e' : Z) :
  e <= e' -> shl_align m e e' = (m, e).
Proof.
  intros H. unfold shl_align. destruct (e' - e) eqn:Ed; try reflexivity. lia.
Qed.

(** The result of rounding [D * 2^ez], [D] not 0: with [t] the exponent
    its digits ask for, in units of [2^G], [G] the lesser of [ez] and [t]. *)
Lemma normalizar_forma (D ez : Z) :
  D <> 0 ->
  let p := Z.abs D in
  let t := fexp 53 1024 (Zdigits2 D + ez) in
  let G := Z.min ez t in
  let K := Z.max 0 (t - ez) in
  exists m4 e4,
    0 <= m4 < 2 ^ 53 /\
    G + K <= e4 /\
    2 * m4 * 2 ^ (e4 - G) <= 2 * (p * 2 ^ (ez - G)) + 2 ^ K /\
    binary_normalize 53 1024 D ez false
    = match m4 with
      | Z0 => S754_zero (D <? 0)
      | Zpos m => if e4 <=? 971 then S754_finite (D <? 0) m e4
                  else S754_infinity (D <? 0)
      | Zneg _ => S754_nan
      end.
Proof.
  intros HD p t G K.
  assert (Hgen : forall (sx : bool) (q : positive),
             Zdigits2 D = Zpos (digits2_pos q) -> p = Zpos q ->
             exists m4 e4,
               0 <= m4 < 2 ^ 53 /\
               G + K <= e4 /\
               2 * m4 * 2 ^ (e4 - G) <= 2 * (p * 2 ^ (ez - G)) + 2 ^ K /\
               binary_round 53 1024 sx q ez
               = match m4 with
                 | Z0 => S754_zero sx
                 | Zpos m => if e4 <=? 971 then S754_finite sx m e4
                             else S754_infinity sx
                 | Zneg _ => S754_nan
                 end).
  { intros sx q Hdig Hp. unfold binary_round.
    set (t' := fexp 53 1024 (Zpos (digits2_pos q) + ez)).
    assert (Et : t = t') by (unfold t, t'; now rewrite Hdig).
    unfold G, K. rewrite Et, Hp. clear Et.
    destruct (Z_le_gt_dec ez t') as [Hle|Hgt].
    - rewrite (shl_align_quieto q ez t' Hle).
      destruct (redondeo_forma sx q ez) as (m4 & e4 & Hm & He & Hc & ->).
      fold t' in He, Hc.
      exists m4, e4. replace (Z.min ez t') with ez by lia.
      rewrite Z.sub_diag, Z.mul_1_r.
      split; [exact Hm|]. split; [exact He|]. split; [exact Hc | reflexivity].
    - destruct (shl_align_valor q ez t' ltac:(lia)) as (Hv & Hs & Hd).
      destruct (shl_align q ez t') as [mz ez'] eqn:Esh. cbn [fst snd] in Hv, Hs, Hd.
      subst ez'.
      destruct (redondeo_forma sx mz t') as (m4 & e4 & Hm & He & Hc & ->).
      rewrite Hd in He, Hc.
      replace (Zpos (digits2_pos q) + (ez - t') + t')
        with (Zpos (digits2_pos q) + ez) in He, Hc by lia.
      fold t' in He, Hc. rewrite Z.sub_diag in He, Hc. cbn [Z.max] in He, Hc.
      exists m4, e4. replace (Z.min ez t') with t' by lia.
      replace (Z.max 0 (t' - ez)) with 0 by lia.
      rewrite <- Hv.
      split; [exact Hm|]. split; [lia|]. split; [exact Hc | reflexivity]. }
  unfold binary_normalize. destruct D as [|q|q]; [congruence| |].
  - apply (Hgen false q); reflexivity.
  - apply (Hgen true q); reflexivity.
Qed.

(** [u * 6000 - 3000] for a draw [u] is finite, and its floor is at least
    -3000 and at most 2999: below 3000 the rounded difference does not
    pass -3000, above 3000 it is exact. *)
Lemma offset_inicial_cotas (u : JS.double) :
  JS.en_unidad u = true ->
  JS.es_finito
    (JS.double_sub (JS.double_mul u (JS.double_of_Z 6000)) (JS.double_of_Z 3000))
  = true /\
  -3000
  <= JS.Math_floor
       (JS.double_sub (JS.double_mul u (JS.double_of_Z 6000)) (JS.double_of_Z 3000))
  <= 2999.
Proof.
  intros Hu.
  change (JS.double_of_Z 3000) with (S754_finite false 6597069766656000 (-41)).
  destruct (producto_forma u 6000 Hu ltac:(lia))
    as [[s ->]|(m3 & e3 & -> & Hm3 & He3 & Hv)].
  { assert (E : JS.double_sub (S754_zero s)
                                (S754_finite false 6597069766656000 (-41))
                = S754_finite true 6597069766656000 (-41))
      by (destruct s; reflexivity).
    rewrite E. split; [reflexivity|].
    change (JS.Math_floor (S754_finite true 6597069766656000 (-41))) with (-3000).
    lia. }
  unfold JS.double_sub, SFsub. cbn [cond_Zopp].
  set (mb := 6597069766656000%positive) in *.
  assert (Hmb : Zpos mb = 3000 * 2 ^ 41) by reflexivity.
  set (ez := Z.min e3 (-41)).
  destruct (shl_align_valor m3 e3 ez ltac:(unfold ez; lia)) as (Ha & _ & _).
  destruct (shl_align_valor mb (-41) ez ltac:(unfold ez; lia)) as (Hb & _ & _).
  rewrite Ha, Hb.
  set (D := Zpos m3 * 2 ^ (e3 - ez) - Zpos mb * 2 ^ (-41 - ez)).
  assert (H2a : 0 < 2 ^ (e3 - ez)) by (apply Z.pow_pos_nonneg; unfold ez; lia).
  assert (H2b : 0 < 2 ^ (-41 - ez)) by (apply Z.pow_pos_nonneg; unfold ez; lia).
  (* the size of the difference, in units of [2^ez] *)
  assert (HR : Zpos mb * 2 ^ (-41 - ez) = 3000 * 2 ^ (- ez)).
  { rewrite Hmb. replace (- ez) with (41 + (-41 - ez)) by lia.
    rewrite Z.pow_add_r by (unfold ez; lia). ring. }
  destruct (Z.eq_dec D 0) as [HD0|HD0].
  { rewrite HD0. cbn [binary_normalize JS.es_finito JS.Math_floor].
    split; [reflexivity | lia]. }
  destruct (normalizar_forma D ez HD0) as (m4 & e4 & Hm4 & He4 & Hc & ->).
  cbv zeta in He4, Hc.
  set (t := fexp 53 1024 (Zdigits2 D + ez)) in *.
  assert (Hdig : 2 ^ (Zdigits2 D - 1) <= Z.abs D).
  { destruct D as [|q|q]; [congruence| |]; cbn [Zdigits2 Z.abs];
      apply digitos_cotas. }
  assert (Hdig0 : 1 <= Zdigits2 D).
  { destruct D as [|q|q]; [congruence| |]; cbn [Zdigits2]; lia. }
  assert (H2G : 0 < 2 ^ (ez - Z.min ez t))
    by (apply Z.pow_pos_nonneg; lia).
  assert (H2e4 : 0 < 2 ^ (e4 - Z.min ez t))
    by (apply Z.pow_pos_nonneg; lia).
  destruct (Z.ltb_spec D 0) as [Hneg|Hpos].
  - (* below 3000: the difference is negative, of size at most 3000 *)
    assert (Hp : Z.abs D <= 3000 * 2 ^ (- ez)) by (unfold D in *; lia).
    assert (Hd12 : Zdigits2 D + ez <= 12).
    { assert (H : 2 ^ (Zdigits2 D - 1) < 2 ^ (12 - ez)).
      { eapply Z.le_lt_trans; [exact Hdig|]. eapply Z.le_lt_trans; [exact Hp|].
        replace (12 - ez) with (12 + - ez) by lia.
        rewrite Z.pow_add_r by (unfold ez; lia).
        assert (0 < 2 ^ (- ez)) by (apply Z.pow_pos_nonneg; unfold ez; lia).
        change (2 ^ 12) with 4096. nia. }
      apply Z.pow_lt_mono_r_iff in H; unfold ez in *; lia. }
    assert (Ht : t <= -41) by (unfold t, fexp, emin; lia).
    set (G := Z.min ez t) in *. set (K := Z.max 0 (t - ez)) in *.
    assert (HGK : G + K = t) by (unfold G, K; lia).
    (* everything is a multiple of [2^K] *)
    assert (Hm4R : m4 * 2 ^ (e4 - G) <= 3000 * 2 ^ (- G)).
    { assert (E1 : 2 ^ (e4 - G) = 2 ^ (e4 - G - K) * 2 ^ K).
      { rewrite <- Z.pow_add_r by lia. f_equal; lia. }
      assert (E2 : 2 ^ (- G) = 2 ^ (- t) * 2 ^ K).
      { rewrite <- Z.pow_add_r by lia. f_equal; lia. }
      assert (E3 : 2 ^ (- ez) * 2 ^ (ez - G) = 2 ^ (- G)).
      { rewrite <- Z.pow_add_r by (unfold ez, G in *; lia). f_equal; lia. }
      assert (H2K : 0 < 2 ^ K) by (apply Z.pow_pos_nonneg; unfold K; lia).
      assert (0 < 2 ^ (e4 - G - K)) by (apply Z.pow_pos_nonneg; lia).
      assert (0 < 2 ^ (- t)) by (apply Z.pow_pos_nonneg; lia).
      assert (Hc' : 2 * m4 * 2 ^ (e4 - G) <= 2 * (3000 * 2 ^ (- G)) + 2 ^ K).
      { eapply Z.le_trans; [exact Hc|]. rewrite <- E3. nia. }
      rewrite E1, E2 in Hc' |- *.
      assert (m4 * 2 ^ (e4 - G - K) <= 3000 * 2 ^ (- t)) by nia.
      nia. }
    destruct m4 as [|m4|m4];
      [cbn [JS.es_finito JS.Math_floor]; split; [reflexivity | lia] | | lia].
    assert (He971 : e4 <= 971).
    { assert (H : 2 ^ (e4 - G) < 2 ^ (12 - G)).
      { replace (12 - G) with (12 + - G) by lia.
        rewrite Z.pow_add_r by (unfold G, ez in *; lia).
        assert (0 < 2 ^ (- G)) by (apply Z.pow_pos_nonneg; unfold G, ez in *; lia).
        change (2 ^ 12) with 4096. nia. }
      apply Z.pow_lt_mono_r_iff in H; unfold G, ez in *; lia. }
    destruct (Z.leb_spec e4 971); [|lia].
    split; [reflexivity|]. split.
    + apply (floor_mayor m4 e4 3000 G); [lia | unfold G, ez; lia | exact Hm4R].
    + pose proof (floor_negativo m4 e4). lia.
  - (* above 3000: the difference is exact *)
    assert (HDpos : 0 < D) by lia.
    assert (He41 : -41 <= e3).
    { destruct (Z_le_gt_dec (-41) e3) as [H|H]; [exact H | exfalso].
      assert (Hez : ez = e3) by (unfold ez; lia).
      unfold D in HDpos. rewrite Hez, Z.sub_diag in HDpos.
      change (2 ^ 0) with 1 in HDpos.
      assert (Hc2 : 2 <= 2 ^ (-41 - e3)).
      { change 2 with (2 ^ 1) at 1. apply Z.pow_le_mono_r; lia. }
      assert (Hmb52 : 2 ^ 52 <= Zpos mb) by (rewrite Hmb; reflexivity || (cbv; discriminate)).
      assert (2 ^ 52 * 2 <= Zpos mb * 2 ^ (-41 - e3)) by nia.
      change (2 ^ 53) with (2 ^ 52 * 2) in Hm3. lia. }
    assert (Hez : ez = -41) by (unfold ez; lia).
    pose proof (Hv (-41) ltac:(lia) ltac:(lia)) as Hv41.
    change (- -41) with 41 in Hv41.
    assert (ED : D = Zpos m3 * 2 ^ (e3 - -41) - 3000 * 2 ^ 41).
    { unfold D. rewrite Hez, Hmb. change (-41 - -41) with 0.
      change (2 ^ 0) with 1. lia. }
    assert (HDlt : D < 3000 * 2 ^ 41) by lia.
    assert (Hd53 : Zdigits2 D <= 53).
    { assert (H : 2 ^ (Zdigits2 D - 1) < 2 ^ 53).
      { eapply Z.le_lt_trans; [exact Hdig|].
        rewrite Z.abs_eq by lia. eapply Z.lt_le_trans; [exact HDlt|].
        change (2 ^ 53) with (4096 * 2 ^ 41). lia. }
      apply Z.pow_lt_mono_r_iff in H; lia. }
    assert (Ht : t <= -41) by (unfold t, fexp, emin; rewrite Hez; lia).
    rewrite Hez in He4, Hc, H2G, H2e4.
    replace (Z.max 0 (t - -41)) with 0 in He4, Hc by lia.
    replace (Z.min (-41) t) with t in He4, Hc, H2G, H2e4 by lia.
    change (2 ^ 0) with 1 in Hc.
    rewrite Z.abs_eq in Hc by lia.
    assert (E3 : 2 ^ 41 * 2 ^ (-41 - t) = 2 ^ (- t)).
    { rewrite <- Z.pow_add_r by lia. f_equal; lia. }
    assert (Hm4R : m4 * 2 ^ (e4 - t) < 3000 * 2 ^ (- t)).
    { rewrite <- E3. nia. }
    destruct m4 as [|m4|m4];
      [cbn [JS.es_finito JS.Math_floor]; split; [reflexivity | lia] | | lia].
    assert (He971 : e4 <= 971).
    { assert (H : 2 ^ (e4 - t) < 2 ^ (12 - t)).
      { replace (12 - t) with (12 + - t) by lia.
        rewrite Z.pow_add_r by lia.
        assert (0 < 2 ^ (- t)) by (apply Z.pow_pos_nonneg; lia).
        change (2 ^ 12) with 4096. nia. }
      apply Z.pow_lt_mono_r_iff in H; lia. }
    destruct (Z.leb_spec e4 971); [|lia].
    split; [reflexivity|].
    assert (0 <= JS.Math_floor (S754_finite false m4 e4) <= 3000 - 1); [|lia].
    apply floor_menor. intros g Hg Hg0.
    destruct (Z_le_gt_dec g t) as [Hgt|Hgt].
    + assert (Hp : 2 ^ (e4 - g) = 2 ^ (e4 - t) * 2 ^ (t - g)).
      { rewrite <- Z.pow_add_r by lia. f_equal; lia. }
      assert (Hq : 2 ^ (- g) = 2 ^ (- t) * 2 ^ (t - g)).
      { rewrite <- Z.pow_add_r by lia. f_equal; lia. }
      assert (0 < 2 ^ (t - g)) by (apply Z.pow_pos_nonneg; lia).
      rewrite Hp, Hq. nia.
    + assert (Hp : 2 ^ (e4 - t) = 2 ^ (e4 - g) * 2 ^ (g - t)).
      { rewrite <- Z.pow_add_r by lia. f_equal; lia. }
      assert (Hq : 2 ^ (- t) = 2 ^ (- g) * 2 ^ (g - t)).
      { rewrite <- Z.pow_add_r by lia. f_equal; lia. }
      assert (0 < 2 ^ (g - t)) by (apply Z.pow_pos_nonneg; lia).
      rewrite Hp, Hq in Hm4R. nia.
Qed.

End DoubleSpec.

(** * Further properties of the clock simulator *)

Module ClockSyncExtra.
Import ClockSync.

(** ** Sampled delays and generated clocks *)

(** X14. A sampled delay, the greater of 5 and the floor of the binary64
    product of a draw of [Math.random()] and [latenciaMax], is at least 5
    and at most the greater of 5 and [latenciaMax - 1], for every binary64
    draw that is at least 0 and less than 1 and every [latenciaMax] below
    2^53.  For [latenciaMax] from 0 on the product is finite and its floor
    is from 0 to [latenciaMax - 1]: rounding the product does not reach
    [latenciaMax]. *)
Theorem latencia_acotada (u : JS.double) (latenciaMax : Z) :
  JS.en_unidad u = true -> latenciaMax < 2 ^ 53 ->
  5 <= latencia u latenciaMax <= Z.max 5 (latenciaMax - 1) /\
  (0 <= latenciaMax ->
   JS.es_finito (JS.double_mul u (JS.double_of_Z latenciaMax)) = true /\
   0 <= JS.Math_floor (JS.double_mul u (JS.double_of_Z latenciaMax))
     <= Z.max 0 (latenciaMax - 1)).
Proof.
  intros Hu Hl. unfold latencia.
  destruct (Z_le_gt_dec latenciaMax 0) as [H0|H0].
  - pose proof (DoubleSpec.floor_producto_no_positivo u latenciaMax Hu H0).
    split; [lia|]. intros Hpos.
    split; [apply DoubleSpec.producto_finito; [exact Hu | lia]|].
    assert (latenciaMax = 0) as -> by lia.
    destruct u as [s|s| |[|] m e]; try discriminate; cbn; lia.
  - pose proof (DoubleSpec.floor_producto u latenciaMax Hu ltac:(lia)).
    split; [lia|]. intros _.
    split; [apply DoubleSpec.producto_finito; [exact Hu | lia] | lia].
Qed.

Lemma latencia_acotada_witness :
  latencia (JS.double_div (JS.double_of_Z 24) (JS.double_of_Z 100)) 200 = 48 /\
  5 <= latencia (JS.double_div (JS.double_of_Z 24) (JS.double_of_Z 100)) 200
    <= Z.max 5 (200 - 1).
Proof.
  split; [reflexivity|].
  apply latencia_acotada; [reflexivity | reflexivity].
Defined.

(** The draws of the example source are binary64 values in [0, 1). *)
Lemma azar_ejemplo_en_unidad (k : nat) : JS.en_unidad (azar_ejemplo k) = true.
Proof.
  unfold azar_ejemplo.
  assert (H : forallb
                (fun r => JS.en_unidad
                            (JS.double_div (JS.double_of_Z (Z.of_nat r))
                                           (JS.double_of_Z 100)))
                (seq 0 100) = true) by (vm_compute; reflexivity).
  rewrite forallb_forall in H. apply H. apply in_seq.
  pose proof (Nat.mod_upper_bound (37 * k + 11) 100 ltac:(lia)). lia.
Qed.

Lemma generarRelojes_ids now azar cantidad algoritmo :
  map id (generarRelojes now azar cantidad algoritmo)
  = map Z.of_nat (seq 0 (S (Z.to_nat cantidad))).
Proof.
  unfold generarRelojes. cbn [map seq id]. f_equal.
  rewrite map_map. reflexivity.
Qed.

Lemma generarRelojes_cada now azar cantidad algoritmo :
  Forall (fun n => failed n = false /\ offsetActual n = 0 /\ base n = now)
         (generarRelojes now azar cantidad algoritmo).
Proof.
  unfold generarRelojes. constructor.
  - unfold base. cbn. repeat split; lia.
  - apply Forall_forall. intros n Hn. apply in_map_iff in Hn as [i [<- _]].
    unfold base. cbn. repeat split; lia.
Qed.

Lemma generarRelojes_bien_formados now azar cantidad algoritmo :
  relojes_bien_formados (generarRelojes now azar cantidad algoritmo).
Proof.
  pose proof (generarRelojes_cada now azar cantidad algoritmo) as Hcada.
  split; [|split].
  - revert Hcada. apply Forall_impl. tauto.
  - rewrite generarRelojes_ids. apply Finite.Injective_map_NoDup; [|apply seq_NoDup].
    intros x y. apply Nat2Z.inj.
  - exists now. revert Hcada. apply Forall_impl. tauto.
Qed.

(** X15. [generarRelojes] gives [cantidad + 1] clocks of ids 0 to
    [cantidad], none failed, all with a zero current offset and set from
    the instant [now]; with binary64 draws in [0, 1) every initial offset,
    the floor of the rounded [draw * 6000 - 3000], is at least -3000 and
    less than 3000, that rounded value being finite. *)
Theorem relojes_generados (now : Z) (azar : nat -> JS.double) (cantidad : Z)
  (algoritmo : ClockAlgorithm) :
  let rs := generarRelojes now azar cantidad algoritmo in
  List.length rs = S (Z.to_nat cantidad) /\
  map id rs = map Z.of_nat (seq 0 (S (Z.to_nat cantidad))) /\
  relojes_bien_formados rs /\
  Forall (fun n => offsetActual n = 0 /\ base n = now) rs /\
  ((forall k, JS.en_unidad (azar k) = true) ->
   Forall (fun n => -3000 <= offsetInicial n < 3000) rs /\
   forall k,
     JS.es_finito
       (JS.double_sub (JS.double_mul (azar k) (JS.double_of_Z 6000))
                      (JS.double_of_Z 3000)) = true).
Proof.
  intros rs.
  assert (Hids := generarRelojes_ids now azar cantidad algoritmo). fold rs in Hids.
  assert (Hcada := generarRelojes_cada now azar cantidad algoritmo). fold rs in Hcada.
  split; [|split; [exact Hids|split; [|split]]].
  - rewrite <- (length_map id), Hids, length_map. apply length_seq.
  - apply generarRelojes_bien_formados.
  - revert Hcada. apply Forall_impl. tauto.
  - intros Haz. split; [|intros k; apply DoubleSpec.offset_inicial_cotas, Haz].
    unfold rs, generarRelojes. constructor; [cbn [offsetInicial]; lia|].
    apply Forall_forall. intros n Hn. apply in_map_iff in Hn as [i [<- _]].
    cbn [offsetInicial].
    pose proof (proj2 (DoubleSpec.offset_inicial_cotas (azar (i - 1)%nat) (Haz _))).
    lia.
Qed.

Lemma relojes_generados_witness :
  map id (generarRelojes 1000000 azar_ejemplo 3 berkeley) = [0; 1; 2; 3] /\
  map offsetInicial (generarRelojes 1000000 azar_ejemplo 3 berkeley)
  = [0; -2340; -120; 2100] /\
  Forall (fun n => -3000 <= offsetInicial n < 3000)
         (generarRelojes 1000000 azar_ejemplo 3 berkeley).
Proof.
  destruct (relojes_generados 1000000 azar_ejemplo 3 berkeley)
    as (_ & Hids & _ & _ & Hr).
  split; [exact Hids|]. split; [reflexivity|].
  apply (proj1 (Hr azar_ejemplo_en_unidad)).
Defined.

(** ** The messages of a compiled sequence *)

Lemma mensajes_app xs ys : mensajes (xs ++ ys) = mensajes xs ++ mensajes ys.
Proof. apply flat_map_app. Qed.

Section Mensajes.

Variable toLocaleTimeString : Z -> string.
Variable azar : nat -> JS.double.
Variable latenciaMax : Z.

Lemma cristian_bucle_mensajes (baseReal : Z) (vs : list ClockNode) (k : nat) :
  mensajes (cristian_bucle toLocaleTimeString azar latenciaMax baseReal k vs)
  = flat_map (fun n => [ mkMensaje (id n) 0 request;
                         mkMensaje 0 (id n) response ]) vs.
Proof.
  revert k; induction vs as [|v r IH]; intros k; [reflexivity|].
  cbn [cristian_bucle flat_map]. rewrite mensajes_app, IH. reflexivity.
Qed.

Lemma cristian_bucle_length (baseReal : Z) (vs : list ClockNode) (k : nat) :
  List.length (cristian_bucle toLocaleTimeString azar latenciaMax baseReal k vs)
  = (3 * List.length vs)%nat.
Proof.
  revert k; induction vs as [|v r IH]; intros k; [reflexivity|].
  cbn [cristian_bucle]. rewrite length_app, IH. cbn. lia.
Qed.

Lemma poll_mensajes (coord : ClockNode) (vs : list ClockNode) acciones h k :
  mensajes (fst (fst (fold_left
                        (berkeley_poll_paso toLocaleTimeString azar latenciaMax coord)
                        vs (acciones, h, k))))
  = mensajes acciones
    ++ flat_map (fun n => [ mkMensaje (id coord) (id n) berkeley_poll;
                            mkMensaje (id n) (id coord) response ])
                (filter (fun n => negb (id n =? id coord)) vs).
Proof.
  revert acciones h k; induction vs as [|v r IH]; intros acciones h k.
  - cbn. now rewrite app_nil_r.
  - cbn [fold_left berkeley_poll_paso filter].
    destruct (id v =? id coord); cbn [negb]; [apply IH|].
    rewrite IH, mensajes_app, <- app_assoc. reflexivity.
Qed.

Lemma offset_mensajes (coord : ClockNode) (promedio : Z) (vs : list ClockNode)
  acciones offsets :
  mensajes (fst (fold_left (berkeley_offset_paso coord promedio) vs
                           (acciones, offsets)))
  = mensajes acciones
    ++ map (fun n => mkMensaje (id coord) (id n) berkeley_offset) vs.
Proof.
  revert acciones offsets; induction vs as [|v r IH]; intros acciones offsets.
  - cbn. now rewrite app_nil_r.
  - cbn [fold_left berkeley_offset_paso map].
    rewrite IH, mensajes_app, <- app_assoc. reflexivity.
Qed.

End Mensajes.

(** X16. The messages of a Cristian sequence are, for each alive node in
    order, a REQUEST from the node to id 0 and a RESPONSE from id 0 to the
    node.  With an alive node the sequence has [3n + 2] actions, [n]
    being the number of alive nodes. *)
Theorem cristian_forma (toLocaleTimeString : Z -> string) (azar : nat -> JS.double)
  (nodos : list ClockNode) (latenciaMax : Z) :
  mensajes (simularCristian toLocaleTimeString azar nodos latenciaMax)
  = flat_map (fun n => [ mkMensaje (id n) 0 request;
                         mkMensaje 0 (id n) response ]) (vivos nodos) /\
  (vivos nodos <> [] ->
   List.length (simularCristian toLocaleTimeString azar nodos latenciaMax)
   = (3 * List.length (vivos nodos) + 2)%nat).
Proof.
  unfold simularCristian.
  destruct (vivos nodos) as [|servidor resto] eqn:Ev; [split; [reflexivity | congruence]|].
  split.
  - change (?a :: ?l) with ([a] ++ l) at 1.
    rewrite !mensajes_app, cristian_bucle_mensajes. cbn [mensajes flat_map mensaje app].
    now rewrite app_nil_r.
  - intros _. cbn [app List.length]. rewrite length_app, cristian_bucle_length.
    cbn [List.length]. lia.
Qed.

Lemma cristian_forma_witness :
  List.length (simularCristian hora_decimal azar_medio relojes_ejemplo 200)
  = (3 * List.length (vivos relojes_ejemplo) + 2)%nat.
Proof.
  assert (H : vivos relojes_ejemplo <> []) by discriminate.
  exact (proj2 (cristian_forma hora_decimal azar_medio relojes_ejemplo 200) H).
Defined.

(** X17. The messages of a Berkeley sequence are a POLL from the
    coordinator and a RESPONSE to it for each alive node whose id is not
    the coordinator's, then one OFFSET message from the coordinator to
    each alive node, the coordinator included. *)
Theorem berkeley_forma (toLocaleTimeString : Z -> string) (azar : nat -> JS.double)
  (nodos : list ClockNode) (latenciaMax : Z) (coord : ClockNode) :
  hd_error (vivos nodos) = Some coord ->
  mensajes (simularBerkeley toLocaleTimeString azar nodos latenciaMax)
  = flat_map (fun n => [ mkMensaje (id coord) (id n) berkeley_poll;
                         mkMensaje (id n) (id coord) response ])
             (filter (fun n => negb (id n =? id coord)) (vivos nodos))
    ++ map (fun n => mkMensaje (id coord) (id n) berkeley_offset) (vivos nodos).
Proof.
  intros Hhd. unfold simularBerkeley.
  destruct (vivos nodos) as [|c resto] eqn:Ev; [discriminate|].
  injection Hhd as ->. rewrite <- Ev.
  set (inicio := mkAccion _ (Some [id coord]) None None None).
  pose proof (poll_mensajes toLocaleTimeString azar latenciaMax coord
                (vivos nodos) [inicio] Registro.vacio O) as Hp.
  destruct (fold_left (berkeley_poll_paso toLocaleTimeString azar latenciaMax coord)
              (vivos nodos) ([inicio], Registro.vacio, O))
    as [[acciones h0] k0].
  cbn [fst] in Hp.
  set (h := Registro.set (id coord) (horaLocal coord + offsetActual coord) h0).
  set (p := berkeley_promedio h).
  match goal with
  | |- context [fold_left _ _ (?a, Registro.vacio)] =>
      pose proof (offset_mensajes coord p (vivos nodos) a Registro.vacio) as Ho;
      destruct (fold_left (berkeley_offset_paso coord p) (vivos nodos)
                  (a, Registro.vacio)) as [acciones2 offsets]
  end.
  cbn [fst] in Ho.
  rewrite mensajes_app, Ho, !mensajes_app, Hp.
  cbn [mensajes flat_map mensaje app berkeley_accion_promedio
       berkeley_accion_final inicio].
  rewrite !app_nil_r. reflexivity.
Qed.

Lemma berkeley_forma_witness :
  mensajes (simularBerkeley hora_decimal azar_medio relojes_ejemplo 200)
  = [ mkMensaje 0 1 berkeley_poll; mkMensaje 1 0 response;
      mkMensaje 0 2 berkeley_poll; mkMensaje 2 0 response;
      mkMensaje 0 0 berkeley_offset; mkMensaje 0 1 berkeley_offset;
      mkMensaje 0 2 berkeley_offset ].
Proof.
  exact (berkeley_forma hora_decimal azar_medio relojes_ejemplo 200
           (mkNodo 0 1000000 0 0 false false (Some server) None) eq_refl).
Defined.

(** ** Compiling while the clocks run *)

Lemma vivos_adelantar d nodos : vivos (adelantar d nodos) = adelantar d (vivos nodos).
Proof.
  unfold vivos, adelantar. induction nodos as [|n r IH]; [reflexivity|].
  cbn [map filter con_horaLocal failed]. destruct (failed n); cbn [negb map];
    now rewrite IH.
Qed.

Lemma cristian_theta_adelantado (baseReal d1 d2 T0 d : Z) :
  cristian_theta (baseReal + d) d1 d2 (T0 + d) = cristian_theta baseReal d1 d2 T0.
Proof. rewrite !ClockSyncSpec.cristian_theta_entero. f_equal. lia. Qed.

Lemma cristian_bucle_adelantado toLocaleTimeString azar latenciaMax baseReal d vs k :
  map sin_texto
      (cristian_bucle toLocaleTimeString azar latenciaMax (baseReal + d) k
                      (adelantar d vs))
  = map sin_texto
        (cristian_bucle toLocaleTimeString azar latenciaMax baseReal k vs).
Proof.
  revert k; induction vs as [|v r IH]; intros k; [reflexivity|].
  cbn [adelantar map cristian_bucle]. fold (adelantar d r).
  rewrite !map_app, IH. f_equal.
  unfold cristian_nodo. cbn [map sin_texto highlightIds mensaje ajustes rttValues
                             con_horaLocal id horaLocal offsetActual].
  replace (horaLocal v + d + offsetActual v) with (horaLocal v + offsetActual v + d)
    by lia.
  now rewrite cristian_theta_adelantado.
Qed.

(** X18. Moving every clock forward by the same amount before compiling
    leaves a Cristian sequence unchanged but for the text of its actions:
    the same highlights, messages, adjustments and round-trip times. *)
Theorem cristian_invariante_al_adelantar (toLocaleTimeString : Z -> string)
  (azar : nat -> JS.double) (nodos : list ClockNode) (latenciaMax d : Z) :
  map sin_texto
      (simularCristian toLocaleTimeString azar (adelantar d nodos) latenciaMax)
  = map sin_texto (simularCristian toLocaleTimeString azar nodos latenciaMax).
Proof.
  unfold simularCristian. rewrite vivos_adelantar.
  destruct (vivos nodos) as [|servidor resto]; [reflexivity|].
  cbn [adelantar map]. fold (adelantar d resto).
  change (con_horaLocal (horaLocal servidor + d) servidor :: adelantar d resto)
    with (adelantar d (servidor :: resto)).
  cbn [con_horaLocal horaLocal offsetInicial].
  replace (horaLocal servidor + d - offsetInicial servidor)
    with (horaLocal servidor - offsetInicial servidor + d) by lia.
  rewrite !map_app, cristian_bucle_adelantado. reflexivity.
Qed.

(** *** Berkeley *)

Lemma set_desplazar k v d r :
  Registro.set k (v + d) (desplazar d r) = desplazar d (Registro.set k v r).
Proof.
  induction r as [|[k' v'] r IH]; [reflexivity|].
  cbn [desplazar map Registro.set fst snd].
  destruct (k <? k'); [reflexivity|]. destruct (k =? k'); [reflexivity|].
  cbn [map fst snd]. f_equal. exact IH.
Qed.

Lemma suma_desplazar d r :
  fold_left Z.add (Registro.values (desplazar d r)) 0
  = fold_left Z.add (Registro.values r) 0 + Z.of_nat (List.length r) * d /\
  List.length (Registro.keys (desplazar d r)) = List.length (Registro.keys r).
Proof.
  unfold Registro.values, Registro.keys, desplazar.
  rewrite !length_map. split; [|reflexivity].
  induction r as [|[k v] r IH]; [reflexivity|].
  cbn [map fold_left snd List.length].
  rewrite (RegistroSpec.fold_left_add_inicio _ (0 + (v + d))),
          (RegistroSpec.fold_left_add_inicio _ (0 + v)), IH. lia.
Qed.

Lemma promedio_desplazado d r :
  r <> [] -> berkeley_promedio (desplazar d r) = berkeley_promedio r + d.
Proof.
  intros Hne. unfold berkeley_promedio, berkeley_suma.
  destruct (suma_desplazar d r) as [-> ->].
  unfold Registro.keys. rewrite length_map.
  destruct (Z.of_nat (List.length r)) as [|p|p] eqn:En;
    [destruct r; [congruence | discriminate] | | lia].
  rewrite !ClockSyncSpec.Math_round_cociente.
  replace (2 * (fold_left Z.add (Registro.values r) 0 + Z.pos p * d) + Z.pos p)
    with (2 * fold_left Z.add (Registro.values r) 0 + Z.pos p + d * (2 * Z.pos p))
    by lia.
  apply Z.div_add. lia.
Qed.

Lemma set_no_vacio k v r : Registro.set k v r <> [].
Proof.
  destruct r as [|[k' v'] r]; cbn; [discriminate|].
  destruct (k <? k'); [discriminate|]. destruct (k =? k'); discriminate.
Qed.

Section Adelantar.

Variable toLocaleTimeString : Z -> string.
Variable azar : nat -> JS.double.
Variables latenciaMax d : Z.
Variable coord : ClockNode.

Lemma poll_adelantado (vs : list ClockNode) acciones1 acciones2 h k :
  map sin_texto acciones1 = map sin_texto acciones2 ->
  map sin_texto
    (fst (fst (fold_left
                 (berkeley_poll_paso toLocaleTimeString azar latenciaMax
                    (con_horaLocal (horaLocal coord + d) coord))
                 (adelantar d vs) (acciones1, desplazar d h, k))))
  = map sin_texto
      (fst (fst (fold_left
                   (berkeley_poll_paso toLocaleTimeString azar latenciaMax coord)
                   vs (acciones2, h, k)))) /\
  snd (fst (fold_left
              (berkeley_poll_paso toLocaleTimeString azar latenciaMax
                 (con_horaLocal (horaLocal coord + d) coord))
              (adelantar d vs) (acciones1, desplazar d h, k)))
  = desplazar d
      (snd (fst (fold_left
                   (berkeley_poll_paso toLocaleTimeString azar latenciaMax coord)
                   vs (acciones2, h, k)))).
Proof.
  revert acciones1 acciones2 h k.
  induction vs as [|v r IH]; intros acciones1 acciones2 h k Hacc; [now split|].
  cbn [adelantar map fold_left berkeley_poll_paso]. fold (adelantar d r).
  cbn [con_horaLocal id horaLocal offsetActual].
  destruct (id v =? id coord); [now apply IH|].
  replace (horaLocal v + d + offsetActual v) with (horaLocal v + offsetActual v + d)
    by lia.
  rewrite set_desplazar. apply IH.
  rewrite !map_app, Hacc. reflexivity.
Qed.

Lemma offset_adelantado (promedio : Z) (vs : list ClockNode)
  acciones1 acciones2 offsets :
  map sin_texto acciones1 = map sin_texto acciones2 ->
  map sin_texto
    (fst (fold_left (berkeley_offset_paso
                       (con_horaLocal (horaLocal coord + d) coord) (promedio + d))
                    (adelantar d vs) (acciones1, offsets)))
  = map sin_texto
      (fst (fold_left (berkeley_offset_paso coord promedio) vs
                      (acciones2, offsets))) /\
  snd (fold_left (berkeley_offset_paso
                    (con_horaLocal (horaLocal coord + d) coord) (promedio + d))
                 (adelantar d vs) (acciones1, offsets))
  = snd (fold_left (berkeley_offset_paso coord promedio) vs (acciones2, offsets)).
Proof.
  revert acciones1 acciones2 offsets.
  induction vs as [|v r IH]; intros acciones1 acciones2 offsets Hacc; [now split|].
  cbn [adelantar map fold_left berkeley_offset_paso]. fold (adelantar d r).
  cbn [con_horaLocal id horaLocal offsetActual].
  replace (promedio + d - (horaLocal v + d + offsetActual v))
    with (promedio - (horaLocal v + offsetActual v)) by lia.
  apply IH. rewrite !map_app, Hacc. reflexivity.
Qed.

End Adelantar.

(** [simularBerkeley] with its two loops named. *)
Lemma berkeley_desplegado toLocaleTimeString azar nodos latenciaMax coord resto :
  vivos nodos = coord :: resto ->
  let st1 :=
    fold_left (berkeley_poll_paso toLocaleTimeString azar latenciaMax coord)
      (vivos nodos)
      ([ mkAccion
           ("👑 Nodo " ++ JS.str (id coord)
              ++ " actúa como coordinador del algoritmo Berkeley")
           (Some [id coord]) None None None ],
       Registro.vacio, O) in
  let h :=
    Registro.set (id coord) (horaLocal coord + offsetActual coord) (snd (fst st1)) in
  let st2 :=
    fold_left (berkeley_offset_paso coord (berkeley_promedio h)) (vivos nodos)
      ((fst (fst st1) ++
        [ mkAccion
            ("📊 Coordinador " ++ JS.str (id coord) ++ " recopila "
               ++ JS.str (Z.of_nat (List.length (Registro.keys h)))
               ++ " horas de los nodos")
            (Some [id coord]) None None None ]) ++
       [ berkeley_accion_promedio toLocaleTimeString coord (berkeley_promedio h) h ],
       Registro.vacio) in
  simularBerkeley toLocaleTimeString azar nodos latenciaMax
  = fst st2 ++ [ berkeley_accion_final (vivos nodos) (snd st2) ] /\
  berkeley_horasReportadas toLocaleTimeString azar nodos latenciaMax = h.
Proof.
  intros Hv. cbv zeta. unfold simularBerkeley, berkeley_horasReportadas.
  rewrite Hv. rewrite <- Hv.
  destruct (fold_left (berkeley_poll_paso toLocaleTimeString azar latenciaMax coord)
              (vivos nodos) _) as [[acciones h0] k0].
  cbn [fst snd]. split; [|reflexivity].
  destruct (fold_left (berkeley_offset_paso coord _) (vivos nodos) _)
    as [acciones2 offsets].
  reflexivity.
Qed.

(** X19. Moving every clock forward by [d] before compiling leaves a
    Berkeley sequence unchanged but for the text of its actions, and,
    with an alive node, moves the computed average forward by [d]. *)
Theorem berkeley_invariante_al_adelantar (toLocaleTimeString : Z -> string)
  (azar : nat -> JS.double) (nodos : list ClockNode) (latenciaMax d : Z) :
  map sin_texto
      (simularBerkeley toLocaleTimeString azar (adelantar d nodos) latenciaMax)
  = map sin_texto (simularBerkeley toLocaleTimeString azar nodos latenciaMax) /\
  (vivos nodos <> [] ->
   berkeley_promedio
     (berkeley_horasReportadas toLocaleTimeString azar (adelantar d nodos) latenciaMax)
   = berkeley_promedio
       (berkeley_horasReportadas toLocaleTimeString azar nodos latenciaMax) + d).
Proof.
  destruct (vivos nodos) as [|coord resto] eqn:Ev.
  { split; [|congruence].
    unfold simularBerkeley. rewrite vivos_adelantar, Ev. reflexivity. }
  assert (Ev' : vivos (adelantar d nodos)
                = con_horaLocal (horaLocal coord + d) coord :: adelantar d resto)
    by (rewrite vivos_adelantar, Ev; reflexivity).
  destruct (berkeley_desplegado toLocaleTimeString azar nodos latenciaMax
              coord resto Ev) as [-> ->].
  destruct (berkeley_desplegado toLocaleTimeString azar (adelantar d nodos)
              latenciaMax _ _ Ev') as [-> ->].
  rewrite vivos_adelantar.
  cbn [con_horaLocal id horaLocal offsetActual].
  set (inicio := mkAccion _ (Some [id coord]) None None None).
  destruct (poll_adelantado toLocaleTimeString azar latenciaMax d coord
              (vivos nodos) [inicio] [inicio] Registro.vacio O eq_refl)
    as [Ha Hh].
  change (desplazar d Registro.vacio) with Registro.vacio in Ha, Hh.
  cbn [con_horaLocal] in Ha, Hh.
  set (st1' := fold_left _ (adelantar d (vivos nodos)) ([inicio], Registro.vacio, O))
    in *.
  set (st1 := fold_left _ (vivos nodos) ([inicio], Registro.vacio, O)) in *.
  rewrite Hh.
  replace (horaLocal coord + d + offsetActual coord)
    with (horaLocal coord + offsetActual coord + d) by lia.
  rewrite set_desplazar.
  set (h := Registro.set (id coord) (horaLocal coord + offsetActual coord)
                         (snd (fst st1))).
  assert (Hp : berkeley_promedio (desplazar d h) = berkeley_promedio h + d)
    by (apply promedio_desplazado, set_no_vacio).
  split; [|intros _; exact Hp].
  rewrite Hp.
  destruct (suma_desplazar d h) as [_ Hk]. rewrite Hk.
  match goal with
  | |- map sin_texto (fst (fold_left _ _ (?a1, _)) ++ _)
       = map sin_texto (fst (fold_left _ _ (?a2, _)) ++ _) =>
      destruct (offset_adelantado d coord (berkeley_promedio h) (vivos nodos)
                  a1 a2 Registro.vacio) as [Hb Ho];
        [rewrite !map_app, Ha; reflexivity|]
  end.
  cbn [con_horaLocal] in Hb, Ho.
  rewrite !map_app, Hb, Ho. f_equal.
  unfold berkeley_accion_final, adelantar.
  cbn [map sin_texto highlightIds mensaje ajustes rttValues].
  rewrite map_map. reflexivity.
Qed.

Lemma berkeley_invariante_al_adelantar_witness :
  berkeley_promedio
    (berkeley_horasReportadas hora_decimal azar_medio
       (adelantar 1000 relojes_ejemplo) 200)
  = 1000447 + 1000.
Proof.
  assert (H : vivos relojes_ejemplo <> []) by discriminate.
  exact (proj2 (berkeley_invariante_al_adelantar hora_decimal azar_medio
                  relojes_ejemplo 200 1000) H).
Defined.

(** ** What the component keeps *)

Ltac campos :=
  cbn [Estado.acciones Estado.numNodos Estado.algoritmoActivo
       Estado.latenciaMax Estado.nodos Estado.logs Estado.pasoIndex
       Estado.isPlaying Estado.mensajeActual].

Lemma bien_formados_map (f : ClockNode -> ClockNode) (d : Z) nodos :
  (forall n, id (f n) = id n /\ failed (f n) = failed n /\ base (f n) = base n + d) ->
  relojes_bien_formados nodos -> relojes_bien_formados (map f nodos).
Proof.
  intros Hf (Hv & Hn & t & Ht). split; [|split].
  - apply Forall_map. revert Hv. apply Forall_impl. intros n Hn'.
    destruct (Hf n) as (_ & -> & _). exact Hn'.
  - rewrite map_map. erewrite map_ext; [exact Hn|]. intros n. apply Hf.
  - exists (t + d). apply Forall_map. revert Ht. apply Forall_impl. intros n <-.
    apply Hf.
Qed.

Lemma aplicar_nodos_reloj acc s :
  exists g,
    (forall n,
        id (g n) = id n /\ failed (g n) = failed n /\
        horaLocal (g n) = horaLocal n /\ offsetInicial (g n) = offsetInicial n /\
        offsetActual (g n) = ajustado acc (id n) (offsetActual n)) /\
    Estado.nodos (aplicar acc s) = map g (Estado.nodos s).
Proof.
  unfold aplicar, ajustado.
  assert (H1 : Estado.nodos
                 match ajustes acc with
                 | Some aj => log_ajustes (descripcion acc) (Estado.nodos s) aj s
                 | None => pushLog (descripcion acc) s
                 end = Estado.nodos s).
  { destruct (ajustes acc) as [aj|]; [|reflexivity].
    apply ClockSyncSpec.log_ajustes_conserva. }
  set (s1 := match ajustes acc with
             | Some aj => log_ajustes (descripcion acc) (Estado.nodos s) aj s
             | None => pushLog (descripcion acc) s
             end) in *.
  destruct (highlightIds acc) as [hs|]; cbv zeta.
  - destruct (ajustes acc) as [aj|] eqn:Ea; [|destruct (rttValues acc) as [rv|] eqn:Er].
    + exists (fun n => con_ajuste (Some aj) (rttValues acc)
                         (con_highlighted (JS.includes (id n) hs) n)).
      split; [intros n; now repeat split|].
      campos. unfold setMensajeActual, setNodos. campos.
      now rewrite H1, map_map.
    + exists (fun n => con_ajuste None (Some rv)
                         (con_highlighted (JS.includes (id n) hs) n)).
      split; [intros n; now repeat split|].
      campos. unfold setMensajeActual, setNodos. campos.
      now rewrite H1, map_map.
    + exists (fun n => con_highlighted (JS.includes (id n) hs) n).
      split; [intros n; now repeat split|].
      campos. unfold setMensajeActual, setNodos. campos.
      now rewrite H1.
  - destruct (ajustes acc) as [aj|] eqn:Ea; [|destruct (rttValues acc) as [rv|] eqn:Er].
    + exists (fun n => con_ajuste (Some aj) (rttValues acc) (con_highlighted false n)).
      split; [intros n; now repeat split|].
      campos. unfold setMensajeActual, setNodos. campos.
      now rewrite H1, map_map.
    + exists (fun n => con_ajuste None (Some rv) (con_highlighted false n)).
      split; [intros n; now repeat split|].
      campos. unfold setMensajeActual, setNodos. campos.
      now rewrite H1, map_map.
    + exists (con_highlighted false).
      split; [intros n; now repeat split|].
      campos. unfold setMensajeActual, setNodos. campos.
      now rewrite H1.
Qed.

Lemma avanzarPaso_bien_formado s :
  relojes_bien_formados (Estado.nodos s) ->
  (Estado.pasoIndex s <= List.length (Estado.acciones s))%nat ->
  relojes_bien_formados (Estado.nodos (avanzarPaso s)) /\
  (Estado.pasoIndex (avanzarPaso s) <= List.length (Estado.acciones (avanzarPaso s)))%nat.
Proof.
  intros Hb Hp.
  destruct (nth_error (Estado.acciones s) (Estado.pasoIndex s)) as [acc|] eqn:E.
  - rewrite (ClockSyncSpec.avanzarPaso_en_rango_reloj s acc E).
    destruct (ClockSyncSpec.aplicar_conserva_reloj acc s) as (Ha & Hi & _).
    destruct (aplicar_nodos_reloj acc s) as (g & Hg & Hn).
    assert (Estado.pasoIndex s < List.length (Estado.acciones s))%nat
      by (apply nth_error_Some; congruence).
    unfold setPasoIndex. campos. rewrite Ha, Hn. split; [|lia].
    apply (bien_formados_map g 0); [|exact Hb].
    intros n. destruct (Hg n) as (-> & -> & Hh & Ho & _).
    unfold base. rewrite Hh, Ho. repeat split; lia.
  - apply nth_error_None in E.
    rewrite ClockSyncSpec.avanzarPaso_al_final_reloj by exact E. now split.
Qed.

Lemma manejar_bien_formado toLocaleTimeString e s :
  relojes_bien_formados (Estado.nodos s) ->
  (Estado.pasoIndex s <= List.length (Estado.acciones s))%nat ->
  relojes_bien_formados (Estado.nodos (manejar toLocaleTimeString e s)) /\
  (Estado.pasoIndex (manejar toLocaleTimeString e s)
   <= List.length (Estado.acciones (manejar toLocaleTimeString e s)))%nat.
Proof.
  intros Hb Hp. destruct e as [n|n|a|now azar|azar| | | | | | ]; cbn [manejar].
  - now destruct (_ && _).
  - now destruct (_ && _).
  - now split.
  - unfold handleGenerarRelojes.
    destruct (_ || _); [now split|]. destruct (_ || _); [now split|].
    split; [exact (generarRelojes_bien_formados _ _ _ _) | exact (Nat.le_0_l _)].
  - unfold handleSincronizar.
    destruct (_ =? _)%nat; [now split|].
    assert (Hh : relojes_bien_formados (map (con_highlighted false) (Estado.nodos s))).
    { apply (bien_formados_map _ 0); [|exact Hb].
      intros n. unfold base. cbn. repeat split; lia. }
    destruct (Estado.algoritmoActivo s);
      (split; [exact Hh | exact (Nat.le_0_l _)]).
  - now split.
  - now split.
  - now apply avanzarPaso_bien_formado.
  - now split.
  - unfold temporizador. destruct (_ && _); [now apply avanzarPaso_bien_formado|].
    now split.
  - unfold tic, setNodos. campos. split; [|exact Hp].
    apply (bien_formados_map _ 1000); [|exact Hb].
    intros n. unfold base. cbn. repeat split; lia.
Qed.

Lemma ejecutar_bien_formado toLocaleTimeString es :
  relojes_bien_formados
    (Estado.nodos (ejecutar toLocaleTimeString es estado_inicial)) /\
  (Estado.pasoIndex (ejecutar toLocaleTimeString es estado_inicial)
   <= List.length (Estado.acciones (ejecutar toLocaleTimeString es estado_inicial)))%nat.
Proof.
  unfold ejecutar.
  assert (H0 : relojes_bien_formados (Estado.nodos estado_inicial) /\
               (Estado.pasoIndex estado_inicial
                <= List.length (Estado.acciones estado_inicial))%nat).
  { split; [|cbn; lia]. split; [constructor|split; [constructor|]].
    exists 0. constructor. }
  revert H0. generalize estado_inicial.
  induction es as [|e es IH]; intros t Ht; [exact Ht|].
  cbn [fold_left]. apply IH. now apply manejar_bien_formado.
Qed.

Lemma todos_vivos nodos :
  Forall (fun n => failed n = false) nodos -> vivos nodos = nodos.
Proof.
  intros Hv. unfold vivos.
  induction Hv as [|n r Hn Hr IH]; [reflexivity|].
  cbn [filter]. rewrite Hn. cbn [negb]. now rewrite IH.
Qed.

(** X20. In every state the clock component can reach, no clock is failed,
    the ids are pairwise distinct, all clocks were set from the same
    instant, and the cursor is at most the length of the sequence. *)
Theorem estado_bien_formado (toLocaleTimeString : Z -> string) (s : Estado.t) :
  alcanzable toLocaleTimeString s ->
  relojes_bien_formados (Estado.nodos s) /\
  vivos (Estado.nodos s) = Estado.nodos s /\
  (Estado.pasoIndex s <= List.length (Estado.acciones s))%nat.
Proof.
  intros [es ->].
  destruct (ejecutar_bien_formado toLocaleTimeString es) as [Hb Hp].
  split; [exact Hb|split; [|exact Hp]].
  apply todos_vivos, Hb.
Qed.

Lemma estado_bien_formado_witness :
  alcanzable hora_decimal (ejecutar hora_decimal sesion_berkeley estado_inicial) /\
  (Estado.pasoIndex (ejecutar hora_decimal sesion_berkeley estado_inicial)
   <= List.length
        (Estado.acciones (ejecutar hora_decimal sesion_berkeley estado_inicial)))%nat.
Proof.
  assert (H : alcanzable hora_decimal
                (ejecutar hora_decimal sesion_berkeley estado_inicial))
    by (exists sesion_berkeley; reflexivity).
  split; [exact H|].
  exact (proj2 (proj2 (estado_bien_formado hora_decimal _ H))).
Defined.

(** ** Offsets follow the cursor *)

Lemma skipn_cabeza {A : Type} (l : list A) (p : nat) (a : A) :
  nth_error l p = Some a -> skipn p l = a :: skipn (S p) l.
Proof.
  revert p; induction l as [|x l IH]; intros [|p] H; try discriminate.
  - now injection H as ->.
  - cbn [skipn]. apply (IH p H).
Qed.

Lemma ajustar_sin_ajustes l acc : ajustes acc = None -> ajustar l acc = l.
Proof.
  intros H. unfold ajustar, ajustado. rewrite H.
  induction l as [|[i o] l IH]; [reflexivity|]. cbn [map fst snd]. now rewrite IH.
Qed.

Lemma avanzarPaso_offsets s :
  Estado.acciones (avanzarPaso s) = Estado.acciones s /\
  map horaLocal (Estado.nodos (avanzarPaso s)) = map horaLocal (Estado.nodos s) /\
  ((Estado.pasoIndex (avanzarPaso s) = Estado.pasoIndex s /\
    offsets (Estado.nodos (avanzarPaso s)) = offsets (Estado.nodos s)) \/
   (exists acc,
       nth_error (Estado.acciones s) (Estado.pasoIndex s) = Some acc /\
       Estado.pasoIndex (avanzarPaso s) = S (Estado.pasoIndex s) /\
       offsets (Estado.nodos (avanzarPaso s)) = ajustar (offsets (Estado.nodos s)) acc)).
Proof.
  destruct (nth_error (Estado.acciones s) (Estado.pasoIndex s)) as [acc|] eqn:E.
  - rewrite (ClockSyncSpec.avanzarPaso_en_rango_reloj s acc E).
    destruct (ClockSyncSpec.aplicar_conserva_reloj acc s) as (Ha & Hi & _).
    destruct (aplicar_nodos_reloj acc s) as (g & Hg & Hn).
    unfold setPasoIndex. campos. rewrite Hn. split; [exact Ha|]. split.
    + rewrite map_map. apply map_ext. intros n. apply Hg.
    + right. exists acc. split; [reflexivity|]. split; [lia|].
      unfold offsets, ajustar. rewrite !map_map. apply map_ext. intros n.
      cbn [fst snd]. destruct (Hg n) as (-> & _ & _ & _ & ->). reflexivity.
  - apply nth_error_None in E.
    rewrite ClockSyncSpec.avanzarPaso_al_final_reloj by exact E.
    split; [reflexivity|]. split; [reflexivity|]. now left.
Qed.

Lemma manejar_offsets toLocaleTimeString e s :
  sin_recompilar e ->
  Estado.acciones (manejar toLocaleTimeString e s) = Estado.acciones s /\
  (exists d, map horaLocal (Estado.nodos (manejar toLocaleTimeString e s))
             = map (Z.add d) (map horaLocal (Estado.nodos s))) /\
  ((Estado.pasoIndex (manejar toLocaleTimeString e s) = Estado.pasoIndex s /\
    offsets (Estado.nodos (manejar toLocaleTimeString e s))
    = offsets (Estado.nodos s)) \/
   (exists acc,
       nth_error (Estado.acciones s) (Estado.pasoIndex s) = Some acc /\
       Estado.pasoIndex (manejar toLocaleTimeString e s) = S (Estado.pasoIndex s) /\
       offsets (Estado.nodos (manejar toLocaleTimeString e s))
       = ajustar (offsets (Estado.nodos s)) acc)).
Proof.
  assert (H0 : forall l : list Z, l = map (Z.add 0) l).
  { intros l. rewrite <- (map_id l) at 1. apply map_ext. intros x. lia. }
  assert (Hquieto : forall t,
             Estado.acciones t = Estado.acciones s ->
             Estado.nodos t = Estado.nodos s ->
             Estado.pasoIndex t = Estado.pasoIndex s ->
             Estado.acciones t = Estado.acciones s /\
             (exists d, map horaLocal (Estado.nodos t)
                        = map (Z.add d) (map horaLocal (Estado.nodos s))) /\
             ((Estado.pasoIndex t = Estado.pasoIndex s /\
               offsets (Estado.nodos t) = offsets (Estado.nodos s)) \/
              (exists acc,
                  nth_error (Estado.acciones s) (Estado.pasoIndex s) = Some acc /\
                  Estado.pasoIndex t = S (Estado.pasoIndex s) /\
                  offsets (Estado.nodos t) = ajustar (offsets (Estado.nodos s)) acc))).
  { intros t Ha Hn Hp. split; [exact Ha|]. rewrite Hn. split.
    - exists 0. apply H0.
    - left. now split. }
  assert (Hpaso :
            Estado.acciones (avanzarPaso s) = Estado.acciones s /\
            (exists d, map horaLocal (Estado.nodos (avanzarPaso s))
                       = map (Z.add d) (map horaLocal (Estado.nodos s))) /\
            ((Estado.pasoIndex (avanzarPaso s) = Estado.pasoIndex s /\
              offsets (Estado.nodos (avanzarPaso s)) = offsets (Estado.nodos s)) \/
             (exists acc,
                 nth_error (Estado.acciones s) (Estado.pasoIndex s) = Some acc /\
                 Estado.pasoIndex (avanzarPaso s) = S (Estado.pasoIndex s) /\
                 offsets (Estado.nodos (avanzarPaso s))
                 = ajustar (offsets (Estado.nodos s)) acc))).
  { destruct (avanzarPaso_offsets s) as (Ha & Hh & Ho).
    split; [exact Ha|]. split; [|exact Ho]. exists 0. rewrite Hh. apply H0. }
  intros He. destruct e as [n|n|a|now azar|azar| | | | | | ]; cbn [manejar];
    try contradiction.
  - destruct (_ && _); now apply Hquieto.
  - destruct (_ && _); now apply Hquieto.
  - now apply Hquieto.
  - now apply Hquieto.
  - now apply Hquieto.
  - exact Hpaso.
  - now apply Hquieto.
  - unfold temporizador. destruct (_ && _); [exact Hpaso | now apply Hquieto].
  - unfold tic, setNodos. campos. split; [reflexivity|]. split.
    + exists 1000. rewrite !map_map. apply map_ext. intros n.
      cbn [horaLocal con_horaLocal]. lia.
    + left. split; [reflexivity|]. unfold offsets. rewrite map_map. reflexivity.
Qed.

Lemma ejecutar_offsets toLocaleTimeString es s :
  Forall sin_recompilar es ->
  (Estado.pasoIndex s <= List.length (Estado.acciones s))%nat ->
  Estado.acciones (ejecutar toLocaleTimeString es s) = Estado.acciones s /\
  (Estado.pasoIndex s <= Estado.pasoIndex (ejecutar toLocaleTimeString es s)
   <= List.length (Estado.acciones s))%nat /\
  offsets (Estado.nodos (ejecutar toLocaleTimeString es s))
  = fold_left ajustar
      (firstn (Estado.pasoIndex (ejecutar toLocaleTimeString es s)
               - Estado.pasoIndex s)
              (skipn (Estado.pasoIndex s) (Estado.acciones s)))
      (offsets (Estado.nodos s)) /\
  exists d, map horaLocal (Estado.nodos (ejecutar toLocaleTimeString es s))
            = map (Z.add d) (map horaLocal (Estado.nodos s)).
Proof.
  unfold ejecutar. revert s. induction es as [|e es IH]; intros s Hes Hp.
  - cbn [fold_left]. rewrite Nat.sub_diag. cbn [firstn fold_left].
    repeat split; try lia. exists 0.
    rewrite <- (map_id (map horaLocal (Estado.nodos s))) at 1.
    apply map_ext. intros x. lia.
  - cbn [fold_left]. apply Forall_cons_iff in Hes as [He Hes].
    destruct (manejar_offsets toLocaleTimeString e s He) as (Ha & [d1 Hd1] & Hcaso).
    set (s1 := manejar toLocaleTimeString e s) in *.
    assert (Hp1 : (Estado.pasoIndex s1 <= List.length (Estado.acciones s1))%nat).
    { rewrite Ha. destruct Hcaso as [[-> _] | (acc & Hacc & -> & _)]; [exact Hp|].
      apply Nat.le_succ_l, nth_error_Some. congruence. }
    destruct (IH s1 Hes Hp1) as (IHa & IHp & IHo & [d2 Hd2]).
    rewrite Ha in IHa, IHp, IHo.
    split; [exact IHa|]. split; [|split].
    + destruct Hcaso as [[E _] | (acc & _ & E & _)]; rewrite E in IHp; lia.
    + rewrite IHo.
      destruct Hcaso as [[E Eo] | (acc & Hacc & E & Eo)]; rewrite E, Eo.
      * reflexivity.
      * rewrite E in IHp.
        replace (Estado.pasoIndex
                   (fold_left (fun s0 e0 => manejar toLocaleTimeString e0 s0) es s1)
                 - Estado.pasoIndex s)%nat
          with (S (Estado.pasoIndex
                     (fold_left (fun s0 e0 => manejar toLocaleTimeString e0 s0) es s1)
                   - S (Estado.pasoIndex s)))%nat by lia.
        rewrite (skipn_cabeza _ _ _ Hacc). reflexivity.
    + exists (d1 + d2). rewrite Hd2, Hd1, !map_map. apply map_ext. intros n. lia.
Qed.

(** X21. Events that neither generate clocks nor compile a sequence keep
    the sequence and only move the cursor forward, never past the end;
    the current offsets after them are the offsets before them with the
    adjustments of the actions the cursor has passed applied in order. *)
Theorem offsets_segun_cursor (toLocaleTimeString : Z -> string)
  (es : list Evento) (s : Estado.t) :
  Forall sin_recompilar es ->
  (Estado.pasoIndex s <= List.length (Estado.acciones s))%nat ->
  let s' := ejecutar toLocaleTimeString es s in
  Estado.acciones s' = Estado.acciones s /\
  (Estado.pasoIndex s <= Estado.pasoIndex s' <= List.length (Estado.acciones s))%nat /\
  offsets (Estado.nodos s')
  = fold_left ajustar
      (firstn (Estado.pasoIndex s' - Estado.pasoIndex s)
              (skipn (Estado.pasoIndex s) (Estado.acciones s)))
      (offsets (Estado.nodos s)).
Proof.
  intros Hes Hp s'.
  destruct (ejecutar_offsets toLocaleTimeString es s Hes Hp) as (Ha & Hi & Ho & _).
  now repeat split.
Qed.

Lemma offsets_segun_cursor_witness :
  offsets (Estado.nodos
             (ejecutar hora_decimal sesion_reproduccion
                (ejecutar hora_decimal sesion_berkeley estado_inicial)))
  = [(0, -90); (1, 2250); (2, 30); (3, -2190)].
Proof.
  assert (Hes : Forall sin_recompilar sesion_reproduccion)
    by (repeat constructor).
  assert (Hp : (Estado.pasoIndex (ejecutar hora_decimal sesion_berkeley estado_inicial)
                <= List.length
                     (Estado.acciones
                        (ejecutar hora_decimal sesion_berkeley estado_inicial)))%nat)
    by (vm_compute; lia).
  exact (proj2 (proj2 (offsets_segun_cursor hora_decimal sesion_reproduccion
                         (ejecutar hora_decimal sesion_berkeley estado_inicial)
                         Hes Hp))).
Defined.

(** ** A Berkeley run played to its end *)

Section SinAjustes.

Variable toLocaleTimeString : Z -> string.
Variable azar : nat -> JS.double.
Variable latenciaMax : Z.
Variable coord : ClockNode.

Lemma poll_sin_ajustes (vs : list ClockNode) acciones h k :
  Forall (fun a => ajustes a = None) acciones ->
  Forall (fun a => ajustes a = None)
         (fst (fst (fold_left
                      (berkeley_poll_paso toLocaleTimeString azar latenciaMax coord)
                      vs (acciones, h, k)))).
Proof.
  revert acciones h k. induction vs as [|v r IH]; intros acciones h k H; [exact H|].
  cbn [fold_left berkeley_poll_paso].
  destruct (id v =? id coord); [now apply IH|].
  apply IH. apply Forall_app. split; [exact H|]. now repeat constructor.
Qed.

Lemma offset_sin_ajustes (promedio : Z) (vs : list ClockNode) acciones offsets :
  Forall (fun a => ajustes a = None) acciones ->
  Forall (fun a => ajustes a = None)
         (fst (fold_left (berkeley_offset_paso coord promedio) vs
                         (acciones, offsets))).
Proof.
  revert acciones offsets. induction vs as [|v r IH]; intros acciones offsets H;
    [exact H|].
  cbn [fold_left berkeley_offset_paso].
  apply IH. apply Forall_app. split; [exact H|]. now repeat constructor.
Qed.

End SinAjustes.

Lemma berkeley_cierre toLocaleTimeString azar nodos latenciaMax :
  vivos nodos <> [] ->
  exists previas,
    simularBerkeley toLocaleTimeString azar nodos latenciaMax
    = previas
        ++ [ berkeley_accion_final (vivos nodos)
               (Registro.llenar id
                  (fun n => berkeley_promedio
                              (berkeley_horasReportadas toLocaleTimeString azar
                                                        nodos latenciaMax)
                            - hora n)
                  (vivos nodos) Registro.vacio) ] /\
    Forall (fun a => ajustes a = None) previas.
Proof.
  intros Hne. destruct (vivos nodos) as [|coord resto] eqn:Ev; [congruence|].
  pose proof (berkeley_desplegado toLocaleTimeString azar nodos latenciaMax
                coord resto Ev) as H.
  cbv zeta in H. destruct H as [E1 E2]. rewrite E2, E1, Ev.
  match goal with
  | |- context [fold_left (berkeley_offset_paso coord ?p) ?vs (?a, Registro.vacio)] =>
      destruct (ClockSyncSpec.offset_bucle coord p vs a Registro.vacio)
        as [extra Eo];
      pose proof (offset_sin_ajustes coord p vs a Registro.vacio) as Hs;
      rewrite Eo in Hs |- *
  end.
  cbn [fst snd] in Hs |- *.
  eexists. split; [reflexivity|].
  apply Hs. apply Forall_app. split; [|now repeat constructor].
  apply Forall_app. split; [|now repeat constructor].
  apply poll_sin_ajustes. now repeat constructor.
Qed.

Lemma fold_ajustar_previas previas l :
  Forall (fun a => ajustes a = None) previas -> fold_left ajustar previas l = l.
Proof.
  intros H. induction H as [|a r Ha Hr IH]; [reflexivity|].
  cbn [fold_left]. now rewrite ajustar_sin_ajustes.
Qed.

Lemma hora_de_partes (q : ClockNode -> Z) (d : Z) (l l' : list ClockNode) :
  map horaLocal l' = map (Z.add d) (map horaLocal l) ->
  offsets l' = map (fun n => (id n, q n)) l ->
  map hora l' = map (fun n => horaLocal n + d + q n) l.
Proof.
  revert l'. induction l as [|n l IH]; intros [|n' l'] Hh Ho;
    try discriminate; [reflexivity|].
  cbn [map offsets] in Hh, Ho |- *. injection Hh as Hh1 Hh2.
  injection Ho as _ Ho1 Ho2.
  rewrite (IH l' Hh2 Ho2). unfold hora at 1. rewrite Hh1, Ho1. f_equal. lia.
Qed.

Lemma sincronizar_berkeley toLocaleTimeString azar s :
  Estado.algoritmoActivo s = berkeley ->
  Estado.nodos s <> [] ->
  Estado.acciones (manejar toLocaleTimeString (EvSincronizar azar) s)
  = simularBerkeley toLocaleTimeString azar (Estado.nodos s) (Estado.latenciaMax s) /\
  Estado.pasoIndex (manejar toLocaleTimeString (EvSincronizar azar) s) = O /\
  Estado.nodos (manejar toLocaleTimeString (EvSincronizar azar) s)
  = map (con_highlighted false) (Estado.nodos s).
Proof.
  intros Ha Hn. cbn [manejar]. unfold handleSincronizar. rewrite Ha.
  destruct (Estado.nodos s) as [|n r] eqn:En; [congruence|].
  cbn [List.length Nat.eqb]. cbv zeta. now repeat split.
Qed.

(** X22. A Berkeley run started on well-formed clocks and played until the
    cursor is at the end of the sequence, whatever ticks, steps and other
    events not generating or compiling come in between, leaves each node
    with the average minus the time the node had at compilation as its
    current offset.  Each node then shows the average minus its previous
    current offset, plus the time all the clocks have advanced since. *)
Theorem berkeley_hasta_el_final (toLocaleTimeString : Z -> string)
  (azar : nat -> JS.double) (es : list Evento) (s : Estado.t) :
  Estado.algoritmoActivo s = berkeley ->
  Estado.nodos s <> [] ->
  relojes_bien_formados (Estado.nodos s) ->
  Forall sin_recompilar es ->
  let s1 := manejar toLocaleTimeString (EvSincronizar azar) s in
  let s' := ejecutar toLocaleTimeString es s1 in
  Estado.pasoIndex s' = List.length (Estado.acciones s1) ->
  let p :=
    berkeley_promedio
      (berkeley_horasReportadas toLocaleTimeString azar (Estado.nodos s)
                                (Estado.latenciaMax s)) in
  offsets (Estado.nodos s') = map (fun n => (id n, p - hora n)) (Estado.nodos s) /\
  exists d,
    map hora (Estado.nodos s')
    = map (fun n => p - offsetActual n + d) (Estado.nodos s).
Proof.
  intros Ha Hn Hb Hes s1 s' Hfin p.
  destruct (sincronizar_berkeley toLocaleTimeString azar s Ha Hn) as (Eacc & Epi & Enod).
  fold s1 in Eacc, Epi, Enod.
  destruct (ejecutar_offsets toLocaleTimeString es s1 Hes) as (_ & _ & Ho & d & Hd);
    [rewrite Epi; lia|].
  fold s' in Ho, Hd. rewrite Hfin, Epi, Nat.sub_0_r in Ho. cbn [skipn] in Ho.
  rewrite firstn_all in Ho.
  assert (Hoff : offsets (Estado.nodos s1) = offsets (Estado.nodos s))
    by (rewrite Enod; unfold offsets; now rewrite map_map).
  assert (Hhl : map horaLocal (Estado.nodos s1) = map horaLocal (Estado.nodos s))
    by (rewrite Enod; now rewrite map_map).
  rewrite Hoff in Ho. rewrite Hhl in Hd.
  destruct Hb as (Hv & Hnd & _).
  pose proof (todos_vivos _ Hv) as Hvivos.
  destruct (berkeley_cierre toLocaleTimeString azar (Estado.nodos s)
              (Estado.latenciaMax s)) as (previas & Eseq & Hprev);
    [now rewrite Hvivos|].
  fold p in Eseq. rewrite Hvivos in Eseq.
  rewrite Eacc, Eseq, fold_left_app, (fold_ajustar_previas _ _ Hprev) in Ho.
  cbn [fold_left] in Ho.
  assert (Hfinal : offsets (Estado.nodos s')
                   = map (fun n => (id n, p - hora n)) (Estado.nodos s)).
  { rewrite Ho. unfold ajustar, offsets, ajustado, berkeley_accion_final.
    cbn [ajustes]. rewrite map_map. apply map_ext_in. intros n Hin. cbn [fst snd].
    destruct (RegistroSpec.llenar_claves_nuevas id (fun n => p - hora n)
                (Estado.nodos s) Registro.vacio Hnd) as (_ & _ & Hget);
      [reflexivity|].
    now rewrite (Hget n Hin). }
  split; [exact Hfinal|].
  exists d. rewrite (hora_de_partes (fun n => p - hora n) d _ _ Hd Hfinal).
  apply map_ext. intros n. unfold hora. lia.
Qed.

Lemma berkeley_hasta_el_final_witness :
  offsets
    (Estado.nodos
       (ejecutar hora_decimal sesion_reproduccion
          (ejecutar hora_decimal sesion_berkeley estado_inicial)))
  = [(0, 1000910 - 1001000); (1, 1000910 - 998660);
     (2, 1000910 - 1000880); (3, 1000910 - 1003100)].
Proof.
  pose (s := ejecutar hora_decimal (sesion_relojes berkeley) estado_inicial).
  assert (Ha : Estado.algoritmoActivo s = berkeley) by reflexivity.
  assert (Hn : Estado.nodos s <> []) by discriminate.
  assert (Hb : relojes_bien_formados (Estado.nodos s))
    by apply (ejecutar_bien_formado hora_decimal (sesion_relojes berkeley)).
  assert (Hes : Forall sin_recompilar sesion_reproduccion) by (repeat constructor).
  assert (Hfin : Estado.pasoIndex
                   (ejecutar hora_decimal sesion_reproduccion
                      (manejar hora_decimal (EvSincronizar azar_medio) s))
                 = List.length
                     (Estado.acciones
                        (manejar hora_decimal (EvSincronizar azar_medio) s)))
    by (vm_compute; reflexivity).
  pose proof (proj1 (berkeley_hasta_el_final hora_decimal azar_medio
                       sesion_reproduccion s Ha Hn Hb Hes Hfin)) as H.
  vm_compute in H. vm_compute. exact H.
Defined.

(** ** What a Cristian adjustment leaves *)

Lemma cristian_nodo_ajuste toLocaleTimeString azar latenciaMax baseReal j nodo :
  exists acc,
    nth_error (cristian_nodo toLocaleTimeString azar latenciaMax baseReal j nodo) 2
    = Some acc /\
    ajustes acc
    = Some (Registro.set (id nodo)
              (cristian_theta baseReal (latencia (azar j) latenciaMax)
                              (latencia (azar (S j)) latenciaMax)
                              (horaLocal nodo + offsetActual nodo))
              Registro.vacio) /\
    rttValues acc
    = Some (Registro.set (id nodo)
              (latencia (azar j) latenciaMax + latencia (azar (S j)) latenciaMax)
              Registro.vacio).
Proof.
  unfold cristian_nodo. cbn [nth_error]. eexists. split; [reflexivity|].
  split; reflexivity.
Qed.

(** X23. For the [k]-th alive node of a Cristian run on clocks set from a
    common instant, with binary64 draws in [0, 1) and [latenciaMax] below
    2^53, the action of index [3k + 3] carries the node's adjustment: once
    applied, the node's total offset plus its previous current offset is
    at most half of [latenciaMax - 5] in absolute value.  If the previous
    current offset was 0 and [latenciaMax] is at most 2000, the node is
    shown as synchronised. *)
Theorem cristian_deja_sincronizado (toLocaleTimeString : Z -> string)
  (azar : nat -> JS.double) (nodos : list ClockNode) (latenciaMax : Z)
  (k : nat) (nodo : ClockNode) :
  (forall j, JS.en_unidad (azar j) = true) ->
  latenciaMax < 2 ^ 53 ->
  (exists t, Forall (fun n => base n = t) (vivos nodos)) ->
  nth_error (vivos nodos) k = Some nodo ->
  exists acc,
    nth_error (simularCristian toLocaleTimeString azar nodos latenciaMax) (3 * k + 3)
    = Some acc /\
    forall n', id n' = id nodo -> offsetInicial n' = offsetInicial nodo ->
      2 * Z.abs (offsetInicial (con_ajuste (ajustes acc) (rttValues acc) n')
                 + offsetActual (con_ajuste (ajustes acc) (rttValues acc) n')
                 + offsetActual nodo)
      <= Z.max 0 (latenciaMax - 5) /\
      (offsetActual nodo = 0 -> latenciaMax <= 2000 ->
       syncStatus (con_ajuste (ajustes acc) (rttValues acc) n') = synced).
Proof.
  intros Haz Hl53 [t Ht] Hk. unfold simularCristian.
  destruct (vivos nodos) as [|servidor resto] eqn:Ev; [destruct k; discriminate|].
  set (baseReal := horaLocal servidor - offsetInicial servidor).
  assert (Hbase : baseReal = horaLocal nodo - offsetInicial nodo).
  { pose proof (proj1 (Forall_forall _ _) Ht) as Hall.
    change (base servidor = base nodo).
    rewrite (Hall servidor (or_introl eq_refl)).
    symmetry. apply (Hall nodo). eapply nth_error_In, Hk. }
  assert (Hlt : (k < List.length (servidor :: resto))%nat)
    by (apply nth_error_Some; congruence).
  destruct (cristian_nodo_ajuste toLocaleTimeString azar latenciaMax baseReal
              (0 + 2 * k) nodo) as (acc & Eacc & Haj & Hrt).
  exists acc. split.
  - replace (3 * k + 3)%nat with (S (3 * k + 2)) by lia.
    cbn [app nth_error].
    rewrite nth_error_app1 by (rewrite cristian_bucle_length; lia).
    rewrite (ClockSyncSpec.cristian_bucle_ajuste toLocaleTimeString azar latenciaMax
               baseReal _ k O nodo Hk).
    exact Eacc.
  - intros n' Hid Hoi. rewrite Haj, Hrt.
    pose proof (DoubleSpec.latencia_cotas _ latenciaMax (Haz (0 + 2 * k)%nat) Hl53)
      as L1.
    pose proof (DoubleSpec.latencia_cotas _ latenciaMax (Haz (S (0 + 2 * k))) Hl53)
      as L2.
    set (d1 := latencia (azar (0 + 2 * k)%nat) latenciaMax) in *.
    set (d2 := latencia (azar (S (0 + 2 * k))%nat) latenciaMax) in *.
    pose proof (Z.div_mod (d1 - d2 + 1) 2 ltac:(lia)) as Hdm.
    pose proof (Z.mod_pos_bound (d1 - d2 + 1) 2 ltac:(lia)) as Hmb.
    unfold syncStatus.
    cbn [con_ajuste offsetInicial offsetActual].
    rewrite Hid, RegistroSpec.get_set_eq, ClockSyncSpec.cristian_theta_entero, Hbase, Hoi.
    split; [lia|].
    intros H0 Hlat.
    destruct (Z.gtb_spec
                (Z.abs (offsetInicial nodo
                        + (horaLocal nodo - offsetInicial nodo
                           - (horaLocal nodo + offsetActual nodo)
                           + (d1 - d2 + 1) / 2))) 3000); [lia|].
    destruct (Z.gtb_spec
                (Z.abs (offsetInicial nodo
                        + (horaLocal nodo - offsetInicial nodo
                           - (horaLocal nodo + offsetActual nodo)
                           + (d1 - d2 + 1) / 2))) 1000); [lia|].
    reflexivity.
Qed.

Lemma cristian_deja_sincronizado_witness :
  exists acc,
    nth_error
      (simularCristian hora_decimal azar_ejemplo
         (Estado.nodos (ejecutar hora_decimal (sesion_relojes cristian) estado_inicial))
         200) (3 * 1 + 3)
    = Some acc /\
    syncStatus
      (con_ajuste (ajustes acc) (rttValues acc)
                  (mkNodo 1 998660 (-2340) 0 false false (Some client) None))
    = synced.
Proof.
  assert (Hbase : exists t,
             Forall (fun n => base n = t)
                    (vivos (Estado.nodos
                              (ejecutar hora_decimal (sesion_relojes cristian)
                                        estado_inicial)))).
  { exists 1001000. repeat constructor. }
  destruct (cristian_deja_sincronizado hora_decimal azar_ejemplo
              (Estado.nodos (ejecutar hora_decimal (sesion_relojes cristian)
                                      estado_inicial))
              200 1 (mkNodo 1 998660 (-2340) 0 false false (Some client) None)
              azar_ejemplo_en_unidad ltac:(reflexivity) Hbase eq_refl)
    as (acc & Hacc & Hsync).
  exists acc. split; [exact Hacc|].
  apply (Hsync _ eq_refl eq_refl); [reflexivity | lia].
Defined.

(** ** The trace is stamped by position *)

Ltac sin_setters :=
  cbn [Estado.logs setNumNodos setLatenciaMax setAlgoritmoActivo setNodos
       setLogs setAcciones setPasoIndex setIsPlaying setMensajeActual].

Lemma pushLog_sellado_reloj msg s :
  Election.sellado (Estado.logs s) -> Election.sellado (Estado.logs (pushLog msg s)).
Proof.
  intros H. unfold pushLog. sin_setters.
  now apply ElectionControl.sellado_nueva_linea.
Qed.

Lemma log_ajustes_sellado texto ns aj s :
  Election.sellado (Estado.logs s) ->
  Election.sellado (Estado.logs (log_ajustes texto ns aj s)).
Proof.
  unfold log_ajustes, Registro.entries.
  revert s; induction aj as [|[k v] aj IH]; intros s H; [exact H|].
  cbn [fold_left]. destruct (find (fun n => id n =? k) ns).
  - apply IH. now apply pushLog_sellado_reloj.
  - now apply IH.
Qed.

Lemma aplicar_sellado_reloj acc s :
  Election.sellado (Estado.logs s) ->
  Election.sellado (Estado.logs (aplicar acc s)).
Proof.
  intros H. unfold aplicar.
  assert (H1 : Election.sellado
                 (Estado.logs
                    match ajustes acc with
                    | Some aj => log_ajustes (descripcion acc) (Estado.nodos s) aj s
                    | None => pushLog (descripcion acc) s
                    end)).
  { destruct (ajustes acc); [now apply log_ajustes_sellado | now apply pushLog_sellado_reloj]. }
  set (s1 := match ajustes acc with
             | Some aj => log_ajustes (descripcion acc) (Estado.nodos s) aj s
             | None => pushLog (descripcion acc) s
             end) in *.
  destruct (highlightIds acc), (ajustes acc), (rttValues acc); exact H1.
Qed.

Lemma avanzarPaso_sellado_reloj s :
  Election.sellado (Estado.logs s) ->
  Election.sellado (Estado.logs (avanzarPaso s)).
Proof.
  intros H. unfold avanzarPaso.
  destruct (_ <=? _)%nat; [exact H|].
  destruct (nth_error _ _); [|exact H].
  sin_setters. now apply aplicar_sellado_reloj.
Qed.

Lemma sellado_tres (a b c : string) :
  String.prefix "[t=0] " a = true ->
  String.prefix "[t=1] " b = true ->
  String.prefix "[t=2] " c = true ->
  Election.sellado [a; b; c].
Proof.
  intros Ha Hb Hc [|[|[|[|k]]]] l H; cbn in H; try discriminate;
    injection H as <-; assumption.
Qed.

Lemma manejar_sellado_reloj toLocaleTimeString e s :
  Election.sellado (Estado.logs s) ->
  Election.sellado (Estado.logs (manejar toLocaleTimeString e s)).
Proof.
  intros H. destruct e as [n|n|a|now azar|azar| | | | | | ]; cbn [manejar].
  - destruct (_ && _); exact H.
  - destruct (_ && _); exact H.
  - exact H.
  - unfold handleGenerarRelojes.
    destruct (_ || _); [exact H|]. destruct (_ || _); [exact H|].
    sin_setters. apply sellado_tres; [reflexivity | | reflexivity].
    destruct (Estado.algoritmoActivo s); reflexivity.
  - unfold handleSincronizar.
    destruct (_ =? _)%nat; [now apply pushLog_sellado_reloj|].
    destruct (Estado.algoritmoActivo s); cbv zeta; sin_setters;
      apply pushLog_sellado_reloj; exact H.
  - exact H.
  - exact H.
  - now apply avanzarPaso_sellado_reloj.
  - apply ElectionControl.sellado_vacio.
  - unfold temporizador. destruct (_ && _); [now apply avanzarPaso_sellado_reloj | exact H].
  - exact H.
Qed.

(** X24. In every state the clock component can reach, the [k]-th line of
    the trace starts with the stamp of [k]; an action with adjustments
    adds one stamped line per adjusted node. *)
Theorem traza_sellada_reloj (toLocaleTimeString : Z -> string) (s : Estado.t) :
  alcanzable toLocaleTimeString s -> Election.sellado (Estado.logs s).
Proof.
  intros [es ->]. unfold ejecutar.
  assert (H0 : Election.sellado (Estado.logs estado_inicial))
    by apply ElectionControl.sellado_vacio.
  revert H0. generalize estado_inicial.
  induction es as [|e es IH]; intros t Ht; [exact Ht|].
  cbn [fold_left]. apply IH. now apply manejar_sellado_reloj.
Qed.

Lemma traza_sellada_reloj_witness :
  exists l,
    nth_error
      (Estado.logs
         (ejecutar hora_decimal sesion_reproduccion
            (ejecutar hora_decimal sesion_berkeley estado_inicial))) 17
    = Some l /\
    String.prefix "[t=17] " l = true.
Proof.
  assert (H : alcanzable hora_decimal
                (ejecutar hora_decimal sesion_reproduccion
                   (ejecutar hora_decimal sesion_berkeley estado_inicial))).
  { exists (sesion_berkeley ++ sesion_reproduccion).
    unfold ejecutar. now rewrite fold_left_app. }
  eexists. split; [vm_compute; reflexivity|].
  apply (traza_sellada_reloj hora_decimal _ H 17%nat). vm_compute. reflexivity.
Defined.

End ClockSyncExtra.
